(** * bundlemaker: a shallow embedding of [bundlemaker.py] and its session protocol

    The development follows the source file top to bottom: Python built-ins
    that the program relies on ([Py]), the POSIX flavour of [os.path]
    ([PosixPath]), JSON values as [json.load] returns them ([Json]), then the
    functions of [bundlemaker.py] under their own names, and finally the
    theorems about them. *)

From Stdlib Require Import ZArith Lia Ascii String.
From Stdlib Require SpecFloat.
From stdpp Require Import base list strings gmap sorting pretty.

Local Open Scope Z_scope.
Local Set Warnings "-register-all".

(* ===================================================================== *)
(** ** Python built-ins *)
(* ===================================================================== *)

Module Py.

(** Exceptions.  [Exception name] is an instance of a subclass of Python's
    [Exception] whose [type(e).__name__] is [name]; [KeyboardInterrupt]
    derives from [BaseException] only and is therefore not caught by
    [except Exception]. *)
Inductive exn :=
  | Exception (type_name : string)
  | KeyboardInterrupt.

Inductive result (A : Type) :=
  | Ok (a : A)
  | Raise (e : exn).
Global Arguments Ok {A} a.
Global Arguments Raise {A} e.

Global Instance result_ret : MRet result := fun A a => Ok a.
Global Instance result_bind : MBind result := fun A B f m =>
  match m with Ok a => f a | Raise e => Raise e end.

(** What a call into the operating system or a codec does: it returns, or it
    raises an instance of some [Exception] subclass, given by its type name.
    (A keyboard interrupt is modelled where the program waits for the
    console, see [stdin_event] below.) *)
Inductive outcome (A : Type) :=
  | Returns (a : A)
  | Raises (type_name : string).
Global Arguments Returns {A} a.
Global Arguments Raises {A} type_name.

Definition call {A} (o : outcome A) : result A :=
  match o with Returns a => Ok a | Raises n => Raise (Exception n) end.

(** [try: body / except Exception as e: handler(type(e).__name__)] *)
Definition try_except {A} (body : result A) (handler : string -> result A) : result A :=
  match body with
  | Ok a => Ok a
  | Raise (Exception n) => handler n
  | Raise KeyboardInterrupt => Raise KeyboardInterrupt
  end.

Definition EOFError := Exception "EOFError".
Definition ValueError := Exception "ValueError".
Definition IndexError := Exception "IndexError".
Definition ZeroDivisionError := Exception "ZeroDivisionError".

(** [except Exception] *)
Definition is_Exception (e : exn) : bool :=
  match e with Exception _ => true | KeyboardInterrupt => false end.

(** [except EOFError] *)
Definition is_EOFError (e : exn) : bool :=
  match e with Exception n => String.eqb n "EOFError" | KeyboardInterrupt => false end.

(** A [str] is modelled by a Rocq [string]; each character stands for the
    code point of the same number, so the model covers the code points below
    256. *)

Definition code (c : ascii) : N := N_of_ascii c.

(** [str.isspace] on one character. *)
Definition isspace (c : ascii) : bool :=
  let n := code c in
  ((9 <=? n) && (n <=? 13) || (28 <=? n) && (n <=? 32)
   || (n =? 133) || (n =? 160))%N.

Fixpoint lstrip (s : string) : string :=
  match s with
  | EmptyString => EmptyString
  | String c r => if isspace c then lstrip r else s
  end.

Fixpoint rstrip (s : string) : string :=
  match s with
  | EmptyString => EmptyString
  | String c r =>
      match rstrip r with
      | EmptyString => if isspace c then EmptyString else String c EmptyString
      | r' => String c r'
      end
  end.

(** [s.strip()] *)
Definition strip (s : string) : string := rstrip (lstrip s).

(** [s.lstrip(".")] *)
Fixpoint lstrip_dots (s : string) : string :=
  match s with
  | String "." r => lstrip_dots r
  | _ => s
  end.

Definition lower_char (c : ascii) : ascii :=
  let n := code c in
  if ((65 <=? n) && (n <=? 90)
      || (192 <=? n) && (n <=? 222) && negb (n =? 215))%N
  then ascii_of_N (n + 32) else c.

(** [s.lower()] *)
Fixpoint lower (s : string) : string :=
  match s with
  | EmptyString => EmptyString
  | String c r => String (lower_char c) (lower r)
  end.

(** [str.isdigit] on one character: the decimal digits and the superscript
    digits two, three and one. *)
Definition isdigit_char (c : ascii) : bool :=
  let n := code c in
  ((48 <=? n) && (n <=? 57) || (n =? 178) || (n =? 179) || (n =? 185))%N.

Fixpoint all_chars (p : ascii -> bool) (s : string) : bool :=
  match s with
  | EmptyString => true
  | String c r => p c && all_chars p r
  end.

(** [s.isdigit()] *)
Definition isdigit (s : string) : bool :=
  match s with
  | EmptyString => false
  | _ => all_chars isdigit_char s
  end.

Definition decimal_char (c : ascii) : bool :=
  let n := code c in ((48 <=? n) && (n <=? 57))%N.

Fixpoint int_digits (acc : Z) (s : string) : Z :=
  match s with
  | EmptyString => acc
  | String c r => int_digits (10 * acc + (Z.of_N (code c) - 48)) r
  end.

(** [int(s)] for the strings the program passes to it (those accepted by
    [isdigit]); a superscript digit is rejected with [ValueError], and so
    is a string of more than 4300 digits, the most that CPython converts
    ([sys.int_info.default_max_str_digits]). *)
Definition int (s : string) : result Z :=
  match s with
  | EmptyString => Raise ValueError
  | _ =>
      if all_chars decimal_char s && (Z.of_nat (String.length s) <=? 4300)
      then Ok (int_digits 0 s) else Raise ValueError
  end.

(** [s.split()]: the maximal runs of non-space characters. *)
Fixpoint split_from (cur : string) (s : string) : list string :=
  match s with
  | EmptyString =>
      match cur with EmptyString => [] | _ => [String.rev cur] end
  | String c r =>
      if isspace c
      then match cur with
           | EmptyString => split_from EmptyString r
           | _ => String.rev cur :: split_from EmptyString r
           end
      else split_from (String c cur) r
  end.

Definition split (s : string) : list string := split_from EmptyString s.

(** [s.endswith(suffix)] *)
Fixpoint endswith (s suffix : string) : bool :=
  if String.eqb s suffix then true
  else match s with
       | EmptyString => false
       | String _ r => endswith r suffix
       end.

(** ["".join(parts)] *)
Fixpoint join (parts : list string) : string :=
  match parts with
  | [] => EmptyString
  | p :: ps => p +:+ join ps
  end.

(** [x in xs] for a tuple or set of strings *)
Definition str_in (x : string) (xs : list string) : bool :=
  existsb (String.eqb x) xs.

(** [s[:n]] for [n >= 0] *)
Fixpoint prefix (n : nat) (s : string) : string :=
  match n, s with
  | S k, String c r => String c (prefix k r)
  | _, _ => EmptyString
  end.

(** [s.ljust(n)] *)
Fixpoint ljust (n : nat) (s : string) : string :=
  match n, s with
  | O, _ => s
  | S k, EmptyString => String " " (ljust k EmptyString)
  | S k, String c r => String c (ljust k r)
  end.

(** [" " * n] *)
Fixpoint spaces (n : nat) : string :=
  match n with O => EmptyString | S k => String " " (spaces k) end.

(** [str(n)] *)
Definition str_of_int (n : Z) : string := pretty n.

(** [xs[i]] on a list, with Python's negative indices and [IndexError]. *)
Definition index {A} (xs : list A) (i : Z) : result A :=
  let n := Z.of_nat (length xs) in
  let j := if i <? 0 then i + n else i in
  if (0 <=? j) && (j <? n)
  then match xs !! Z.to_nat j with
       | Some x => Ok x
       | None => Raise IndexError
       end
  else Raise IndexError.

(** [xs[i] = x] for [i >= 0] *)
Definition setitem {A} (xs : list A) (i : Z) (x : A) : result (list A) :=
  if (0 <=? i) && (i <? Z.of_nat (length xs))
  then Ok (<[Z.to_nat i := x]> xs)
  else Raise IndexError.

(** [bool(x)] on a string *)
Definition truthy_str (s : string) : bool :=
  match s with EmptyString => false | _ => true end.

(** [range(a, b)] *)
Definition range (a b : Z) : list Z :=
  (fun k => a + Z.of_nat k) <$> seq 0 (Z.to_nat (b - a)).

End Py.

Import Py.

(* ===================================================================== *)
(** ** [os.path] on a POSIX system *)
(* ===================================================================== *)

Module PosixPath.

Definition sep : ascii := "/"%char.

(** The part of [s] after its last separator, if it has one. *)
Fixpoint after_last_sep (s : string) : option string :=
  match s with
  | EmptyString => None
  | String c r =>
      match after_last_sep r with
      | Some t => Some t
      | None => if Ascii.eqb c sep then Some r else None
      end
  end.

(** [os.path.basename] *)
Definition basename (p : string) : string :=
  match after_last_sep p with Some t => t | None => p end.

(** The suffix of [s] that starts at its last dot, if it has one. *)
Fixpoint from_last_dot (s : string) : option string :=
  match s with
  | EmptyString => None
  | String c r =>
      match from_last_dot r with
      | Some t => Some t
      | None => if Ascii.eqb c "."%char then Some s else None
      end
  end.

Definition is_dot (c : ascii) : bool := Ascii.eqb c "."%char.

(** [os.path.splitext]: the extension starts at the last dot of the base
    name, provided a character other than a dot precedes it there. *)
Definition splitext (p : string) : string * string :=
  let name := basename p in
  match from_last_dot name with
  | Some ext =>
      let stem := Py.prefix (String.length name - String.length ext) name in
      if Py.all_chars is_dot stem then (p, EmptyString)
      else (Py.prefix (String.length p - String.length ext) p, ext)
  | None => (p, EmptyString)
  end.

(** [os.path.join] of two components *)
Definition join (a b : string) : string :=
  match b with
  | String c _ =>
      if Ascii.eqb c sep then b
      else if negb (Py.truthy_str a) || Py.endswith a "/" then a +:+ b
      else a +:+ "/" +:+ b
  | EmptyString =>
      if negb (Py.truthy_str a) || Py.endswith a "/" then a +:+ b
      else a +:+ "/" +:+ b
  end.

(** [s.replace(a, b)] for single characters *)
Fixpoint replace_char (a b : ascii) (s : string) : string :=
  match s with
  | EmptyString => EmptyString
  | String c r => String (if Ascii.eqb c a then b else c) (replace_char a b r)
  end.

End PosixPath.

(* ===================================================================== *)
(** ** JSON values, as [json.load] builds them *)
(* ===================================================================== *)

Module Json.

(** A number with a fraction or an exponent is a float; it is kept as its
    IEEE 754 datum (a zero, an infinity, a NaN or a finite number). *)
Inductive json :=
  | JNull
  | JBool (b : bool)
  | JInt (n : Z)
  | JFloat (x : SpecFloat.spec_float)
  | JStr (s : string)
  | JList (l : list json)
  | JDict (m : gmap string json).

(** [bool(x)] *)
Definition truthy (x : json) : bool :=
  match x with
  | JNull => false
  | JBool b => b
  | JInt n => negb (n =? 0)
  | JFloat x => match x with SpecFloat.S754_zero _ => false | _ => true end
  | JStr s => Py.truthy_str s
  | JList l => match l with [] => false | _ => true end
  | JDict m => negb (bool_decide (m = ∅))
  end.

(** [x == s] for a [str] [s] *)
Definition eq_str (x : json) (s : string) : bool :=
  match x with JStr s' => String.eqb s' s | _ => false end.

(** [x == l] for a list of [str] [l] *)
Fixpoint all_eq_str (xs : list json) (l : list string) : bool :=
  match xs, l with
  | [], [] => true
  | x :: xs', s :: l' => eq_str x s && all_eq_str xs' l'
  | _, _ => false
  end.

Definition eq_strs (x : json) (l : list string) : bool :=
  match x with JList xs => all_eq_str xs l | _ => false end.

(** [isinstance(x, str)] with the value *)
Definition as_str (x : json) : option string :=
  match x with JStr s => Some s | _ => None end.

(** [isinstance(x, int)] with the value; [bool] is a subclass of [int]. *)
Definition as_int (x : json) : option Z :=
  match x with
  | JInt n => Some n
  | JBool b => Some (if b then 1 else 0)
  | _ => None
  end.

(** [isinstance(x, bool)] with the value *)
Definition as_bool (x : json) : option bool :=
  match x with JBool b => Some b | _ => None end.

(** [state.get(key, default)]; anything but a dict has no [get]. *)
Definition get (state : json) (key : string) (default : json) : Py.result json :=
  match state with
  | JDict m => Py.Ok (match m !! key with Some v => v | None => default end)
  | _ => Py.Raise (Py.Exception "AttributeError")
  end.

End Json.

Import Json.

(* ===================================================================== *)
(** ** [bundlemaker.py]: configuration *)
(* ===================================================================== *)

Definition nl : string := String "010"%char EmptyString.

Definition BUNDLE_NAME : string := "bundle.txt".
Definition STATE_FILE : string := "bundle_state.json".

Definition HEADER_FMT (path : string) : string := "=== FILE: " +:+ path +:+ " ===" +:+ nl.
Definition FOOTER_FMT (path : string) : string := "=== END FILE: " +:+ path +:+ " ===" +:+ nl.
Definition SECTION_GAP : string := nl.

Definition SECTION_END_MARKER : string := "\END".

Definition MODE_AUTO : string := "auto".
Definition MODE_PASTE : string := "paste".
Definition MODE_HYBRID : string := "hybrid".
Definition MODES : list string := [MODE_HYBRID; MODE_PASTE; MODE_AUTO].

Definition AUTO_MAX_BYTES : Z := 5 * 1024 * 1024.
Definition AUTO_ENCODINGS : list string := ["utf-8"; "utf-8-sig"; "cp949"].

Definition AUTO_SKIP_NAMES : list string :=
  [".env"; ".env.local"; ".env.production"; ".env.development";
   "id_rsa"; "id_dsa"; "id_ed25519"].
Definition AUTO_SKIP_EXTS : list string :=
  ["pem"; "key"; "p12"; "pfx"; "der"; "crt"; "cer"].

(** [color] returns its text unchanged when colours are off; the model runs
    with [USE_COLOR = False]. *)
Definition color (text : string) : string := text.

(** [_from_posix], with [os.sep = "/"] *)
Definition _from_posix (path : string) : string :=
  PosixPath.replace_char "/"%char PosixPath.sep path.

(* ===================================================================== *)
(** ** The services the program calls *)
(* ===================================================================== *)

(** The file system and the codecs, as the program sees them.  [decode enc
    data] is [data.decode(enc)]. *)
Record services := {
  path_exists : string -> bool;
  getsize : string -> outcome Z;
  read_binary : string -> outcome (list Byte.byte);
  decode : string -> list Byte.byte -> outcome string;
  write_text : string -> outcome unit;
  now_isoformat : string;
}.

(* ===================================================================== *)
(** ** Selection and mode helpers *)
(* ===================================================================== *)

(** One [for i in ...: if not done[i]: return i] loop. *)
Fixpoint first_undone (done : list bool) (idxs : list Z) : result (option Z) :=
  match idxs with
  | [] => Ok None
  | i :: rest =>
      d ← index done i;
      if negb d then Ok (Some i) else first_undone done rest
  end.

Definition next_undone_index (done : list bool) (start : Z) : result (option Z) :=
  r ← first_undone done (range start (Z.of_nat (length done)));
  match r with
  | Some i => Ok (Some i)
  | None => first_undone done (range 0 start)
  end.

(** [MODES.index(mode)] for a member of [MODES] *)
Fixpoint index_of (x : string) (xs : list string) : Z :=
  match xs with
  | [] => 0
  | y :: ys => if String.eqb y x then 0 else 1 + index_of x ys
  end.

Definition cycle_mode (mode : string) : string :=
  let i := if str_in mode MODES then index_of mode MODES else 0 in
  nth (Z.to_nat ((i + 1) mod Z.of_nat (length MODES))) MODES MODE_HYBRID.


(* ===================================================================== *)
(** ** Direct read *)
(* ===================================================================== *)

Definition _should_skip_autoread (os : services) (abs_fp : string) : result (bool * string) :=
  let name := PosixPath.basename abs_fp in
  let ext := lstrip_dots (lower (snd (PosixPath.splitext name))) in
  if str_in name AUTO_SKIP_NAMES then Ok (true, "skip-name(" +:+ name +:+ ")")
  else if str_in ext AUTO_SKIP_EXTS then Ok (true, "skip-ext(." +:+ ext +:+ ")")
  else
    early ← try_except
      (sz ← call (getsize os abs_fp);
       if AUTO_MAX_BYTES <? sz
       then Ok (Some (true, "too-large(" +:+ str_of_int sz +:+ " bytes)"))
       else Ok None)
      (fun _ => Ok None);
    match early with
    | Some r => Ok r
    | None => Ok (false, EmptyString)
    end.

(** The [for enc in AUTO_ENCODINGS] loop. *)
Fixpoint decode_first (os : services) (data : list Byte.byte) (encs : list string)
  : result (option string * string) :=
  match encs with
  | [] => Ok (None, "decode-failed")
  | enc :: rest =>
      try_except
        (text ← call (decode os enc data); Ok (Some text, "ok(" +:+ enc +:+ ")"))
        (fun _ => decode_first os data rest)
  end.

Definition has_null (data : list Byte.byte) : bool :=
  existsb (Byte.eqb Byte.x00) data.

Definition auto_read_file (os : services) (rel_root rel_posix_path : string)
  : result (option string * string) :=
  let abs_fp := PosixPath.join rel_root (_from_posix rel_posix_path) in
  if negb (path_exists os abs_fp) then Ok (None, "not-found")
  else
    '(skip, why) ← _should_skip_autoread os abs_fp;
    if (skip : bool) then Ok (None, why)
    else
      match call (read_binary os abs_fp) with
      | Raise (Exception n) => Ok (None, "read-failed(" +:+ n +:+ ")")
      | Raise KeyboardInterrupt => Raise KeyboardInterrupt
      | Ok data =>
          if has_null data then Ok (None, "binary-detected(NULL)")
          else decode_first os data AUTO_ENCODINGS
      end.

(* ===================================================================== *)
(** ** Bundle assembly *)
(* ===================================================================== *)

(** Python's order on [(path, reason)] tuples. *)
Definition item_leb (a b : string * string) : bool :=
  match String.compare a.1 b.1 with
  | Lt => true
  | Eq => String.leb a.2 b.2
  | Gt => false
  end.

Definition item_le (a b : string * string) : Prop := item_leb a b.

(** [sorted(skipped.items())] *)
Definition sorted_items (skipped : gmap string string) : list (string * string) :=
  merge_sort item_le (map_to_list skipped).

Definition skip_line (item : string * string) : string :=
  "- " +:+ item.1 +:+ " :: " +:+ item.2 +:+ nl.

(** The parts appended by one pass of [for path in files]. *)
Definition file_parts (contents : gmap string string) (path : string) : list string :=
  match contents !! path with
  | None => []
  | Some body =>
      [HEADER_FMT path; body]
      ++ (if truthy_str body && negb (endswith body nl) then [nl] else [])
      ++ [FOOTER_FMT path; SECTION_GAP]
  end.

Definition build_bundle_text (now rel_root : string) (files : list string)
    (contents skipped : gmap string string) : string :=
  let parts :=
    ["=== BUNDLE GENERATED: " +:+ now +:+ " ===" +:+ nl;
     "=== REL_ROOT: " +:+ rel_root +:+ " ===" +:+ nl] in
  let parts :=
    if bool_decide (skipped = ∅) then parts
    else parts ++ ["=== SKIPPED (auto-read) ===" +:+ nl]
               ++ (skip_line <$> sorted_items skipped) ++ [nl] in
  let parts := parts ++ [nl] in
  let parts := parts ++ concat (file_parts contents <$> files) in
  join parts.

(* ===================================================================== *)
(** ** Checkpoint: [save_state] and [load_state] *)
(* ===================================================================== *)

(** What is on disk under [STATE_FILE]: nothing, a file that cannot be opened
    or parsed (the exception's type name is kept), or a file that
    [json.load] parses.  [json.dumps] followed by [json.load] is taken to be
    the identity on the values [save_state] writes. *)
Inductive state_file :=
  | Absent
  | Unreadable (type_name : string)
  | Parsed (state : json).

(** The dictionary that [save_state] builds. *)
Definition state_record (generated_at : string) (files scan_dirs_abs : list string)
    (rel_root : string) (done : list bool) (contents : gmap string string)
    (cursor : Z) (show_remaining_only : bool) (mode : string) : json :=
  JDict (list_to_map
    [("generated_at", JStr generated_at);
     ("scan_dirs_abs", JList (JStr <$> scan_dirs_abs));
     ("rel_root", JStr rel_root);
     ("files", JList (JStr <$> files));
     ("done", JList (JBool <$> done));
     ("cursor", JInt cursor);
     ("show_remaining_only", JBool show_remaining_only);
     ("mode", JStr mode);
     ("contents", JDict (JStr <$> contents))]).

(** What [load_state] returns when it returns a state. *)
Record loaded := {
  l_done : list bool;
  l_contents : gmap string string;
  l_cursor : Z;
  l_show_remaining_only : bool;
  l_mode : string;
}.

(** The body of the [try] in [load_state], after [json.load]. *)
Definition load_state_checked (state : json) (files scan_dirs_abs : list string)
    (rel_root : string) : result (option loaded) :=
  v_dirs ← Json.get state "scan_dirs_abs" JNull;
  if negb (eq_strs v_dirs scan_dirs_abs) then Ok None else
  v_root ← Json.get state "rel_root" JNull;
  if negb (eq_str v_root rel_root) then Ok None else
  v_files ← Json.get state "files" JNull;
  if negb (eq_strs v_files files) then Ok None else
  done ← Json.get state "done" JNull;
  contents ← Json.get state "contents" JNull;
  cursor ← Json.get state "cursor" (JInt (-1));
  show_remaining_only ← Json.get state "show_remaining_only" (JBool false);
  mode ← Json.get state "mode" (JStr MODE_HYBRID);
  match done with
  | JList done =>
      if negb (length done =? length files)%nat then Ok None else
      match contents with
      | JDict contents =>
          let cursor := match as_int cursor with Some c => c | None => -1 end in
          let show_remaining_only :=
            match as_bool show_remaining_only with Some b => b | None => false end in
          let mode :=
            match as_str mode with
            | Some m => if str_in m MODES then m else MODE_HYBRID
            | None => MODE_HYBRID
            end in
          let contents :=
            omap as_str (filter (fun kv => kv.1 ∈ files) contents) in
          let done := truthy <$> done in
          let cursor := Z.max (-1) (Z.min cursor (Z.of_nat (length files) - 1)) in
          Ok (Some {| l_done := done; l_contents := contents; l_cursor := cursor;
                      l_show_remaining_only := show_remaining_only; l_mode := mode |})
      | _ => Ok None
      end
  | _ => Ok None
  end.

Definition load_state (file : state_file) (files scan_dirs_abs : list string)
    (rel_root : string) : result (option loaded) :=
  match file with
  | Absent => Ok None
  | Unreadable n => try_except (Raise (Exception n)) (fun _ => Ok None)
  | Parsed state =>
      try_except (load_state_checked state files scan_dirs_abs rel_root)
                 (fun _ => Ok None)
  end.

(* ===================================================================== *)
(** ** The running program: variables of [main], console, checkpoint file *)
(* ===================================================================== *)

(** The variables of [main] that the interactive loop reads and assigns. *)
Record locals := {
  done : list bool;
  contents : gmap string string;
  cursor : Z;
  show_remaining_only : bool;
  mode : string;
  next_action_override : option string;
}.

(** What the console delivers to one read: a line as [readline] returns it
    (with its terminator; the empty string is Python's end-of-file
    indication), or Ctrl-C while the program waits.  After the last event
    the stream is at end of file for good. *)
Inductive stdin_event :=
  | Keys (line : string)
  | Interrupt.

Inductive output :=
  | Print (text : string)
  | Prompt (text : string)
  | Write (text : string)
  | Screen.

Record machine := {
  vars : locals;
  stdin : list stdin_event;
  checkpoint : state_file;
  stdout : list output;
}.

Definition prog (A : Type) : Type := machine -> result A * machine.

Global Instance prog_ret : MRet prog := fun A a m => (Ok a, m).
Global Instance prog_bind : MBind prog := fun A B f c m =>
  match c m with
  | (Ok a, m') => f a m'
  | (Raise e, m') => (Raise e, m')
  end.

Definition raise {A} (e : exn) : prog A := fun m => (Raise e, m).

Definition lift {A} (r : result A) : prog A := fun m => (r, m).

Definition get_vars : prog locals := fun m => (Ok (vars m), m).

Definition set_vars (v : locals) : prog unit := fun m =>
  (Ok tt, {| vars := v; stdin := stdin m; checkpoint := checkpoint m; stdout := stdout m |}).

Definition emit (o : output) : prog unit := fun m =>
  (Ok tt, {| vars := vars m; stdin := stdin m; checkpoint := checkpoint m;
             stdout := stdout m ++ [o] |}).

Definition print (text : string) : prog unit := emit (Print text).

(** [try: body / except EOFError: handler] *)
Definition try_except_EOFError {A} (body handler : prog A) : prog A := fun m =>
  match body m with
  | (Raise e, m') => if is_EOFError e then handler m' else (Raise e, m')
  | r => r
  end.

(** [sys.stdin.readline()] *)
Definition readline : prog string := fun m =>
  match stdin m with
  | [] => (Ok EmptyString, m)
  | ev :: rest =>
      let m' := {| vars := vars m; stdin := rest; checkpoint := checkpoint m;
                   stdout := stdout m |} in
      match ev with
      | Keys line => (Ok line, m')
      | Interrupt => (Raise KeyboardInterrupt, m')
      end
  end.

(** The line without its final newline, as [input] returns it. *)
Fixpoint chomp (line : string) : string :=
  match line with
  | EmptyString => EmptyString
  | String c r =>
      match r with
      | EmptyString => if Ascii.eqb c "010"%char then EmptyString else line
      | _ => String c (chomp r)
      end
  end.

(** [input(prompt)] *)
Definition input (prompt : string) : prog string :=
  emit (Prompt prompt);;
  line ← readline;
  match line with
  | EmptyString => raise EOFError
  | _ => mret (chomp line)
  end.

Definition read_cmd : prog string :=
  try_except_EOFError (s ← input (color "> "); mret (strip s)) (mret "q").

Definition ask_yes_no (prompt : string) (default_no : bool) : prog bool :=
  try_except_EOFError
    (s ← input prompt;
     let ans := lower (strip s) in
     if str_in ans ["y"; "yes"] then mret true
     else if str_in ans ["n"; "no"] then mret false
     else mret (negb default_no))
    (mret false).

(** The [while True] loop of [capture_section], by recursion on what the
    console still holds; it returns the lines kept, the rest of the console
    and what was written meanwhile. *)
Fixpoint capture_loop (path : string) (progress_step : Z) (lines : list string)
    (line_count : Z) (inp : list stdin_event) (out : list output)
  : result (list string) * list stdin_event * list output :=
  let blank := Write (String "013"%char (spaces 60) +:+ String "013"%char EmptyString) in
  match inp with
  | [] =>
      (Ok lines, [],
       out ++ [blank; Print (color ("STDIN EOF. " +:+ str_of_int line_count +:+ " lines captured."))])
  | Interrupt :: rest => (Raise KeyboardInterrupt, rest, out)
  | Keys line :: rest =>
      if String.eqb line EmptyString then
        (Ok lines, rest,
         out ++ [blank; Print (color ("STDIN EOF. " +:+ str_of_int line_count +:+ " lines captured."))])
      else if String.eqb (strip line) SECTION_END_MARKER then
        (Ok lines, rest,
         out ++ [blank; Print (color (str_of_int line_count +:+ " lines captured for ["
                                      +:+ path +:+ "]."))])
      else
        let lines := lines ++ [line] in
        let line_count := line_count + 1 in
        let out :=
          if line_count mod progress_step =? 0
          then out ++ [Write (String "013"%char
                 (ljust 60 (prefix 60 ("Capturing... " +:+ str_of_int line_count +:+ " lines"))))]
          else out in
        capture_loop path progress_step lines line_count rest out
  end.

(** The loop, run on the machine's console. *)
Definition capture_lines (path : string) (progress_step : Z) : prog (list string) := fun m =>
  let '(r, rest, out) := capture_loop path progress_step [] 0 (stdin m) (stdout m) in
  (r, {| vars := vars m; stdin := rest; checkpoint := checkpoint m; stdout := out |}).

Definition capture_section (path : string) (index total : Z) : prog string :=
  print EmptyString;;
  print (color ("[" +:+ str_of_int (index + 1) +:+ "/" +:+ str_of_int total +:+ "] " +:+ path));;
  print ("Paste the file content. When you're done, type " +:+ color SECTION_END_MARKER
         +:+ " on a single line.");;
  print ("(Input won't be echoed back, only progress will be shown.)" +:+ nl);;
  lines ← capture_lines path 50;
  mret (join lines).

(** [atomic_write_json(STATE_FILE, state)]: the new record replaces the old
    one in one step, or the write raises and the old one stays. *)
Definition save_state (os : services) (files scan_dirs_abs : list string)
    (rel_root : string) : prog unit := fun m =>
  let v := vars m in
  let state := state_record (now_isoformat os) files scan_dirs_abs rel_root
                 (done v) (contents v) (cursor v) (show_remaining_only v) (mode v) in
  match write_text os STATE_FILE with
  | Returns _ =>
      (Ok tt, {| vars := v; stdin := stdin m; checkpoint := Parsed state; stdout := stdout m |})
  | Raises n => (Raise (Exception n), m)
  end.

(* ===================================================================== *)
(** ** One pass of the interactive loop of [main] *)
(* ===================================================================== *)

Definition set_done (x : list bool) : prog unit :=
  v ← get_vars;
  set_vars {| done := x; contents := contents v; cursor := cursor v;
              show_remaining_only := show_remaining_only v; mode := mode v;
              next_action_override := next_action_override v |}.

Definition set_contents (x : gmap string string) : prog unit :=
  v ← get_vars;
  set_vars {| done := done v; contents := x; cursor := cursor v;
              show_remaining_only := show_remaining_only v; mode := mode v;
              next_action_override := next_action_override v |}.

Definition set_cursor (x : Z) : prog unit :=
  v ← get_vars;
  set_vars {| done := done v; contents := contents v; cursor := x;
              show_remaining_only := show_remaining_only v; mode := mode v;
              next_action_override := next_action_override v |}.

Definition set_show_remaining_only (x : bool) : prog unit :=
  v ← get_vars;
  set_vars {| done := done v; contents := contents v; cursor := cursor v;
              show_remaining_only := x; mode := mode v;
              next_action_override := next_action_override v |}.

Definition set_mode (x : string) : prog unit :=
  v ← get_vars;
  set_vars {| done := done v; contents := contents v; cursor := cursor v;
              show_remaining_only := show_remaining_only v; mode := x;
              next_action_override := next_action_override v |}.

Definition set_next_action_override (x : option string) : prog unit :=
  v ← get_vars;
  set_vars {| done := done v; contents := contents v; cursor := cursor v;
              show_remaining_only := show_remaining_only v; mode := mode v;
              next_action_override := x |}.

(** [for p in ps: print(" -", p)] *)
Fixpoint print_items (ps : list string) : prog unit :=
  match ps with
  | [] => mret tt
  | p :: rest => print (" - " +:+ p);; print_items rest
  end.

(** [[p for p, d in zip(files, done) if not d]] *)
Definition remaining (files : list string) (done : list bool) : list string :=
  fst <$> List.filter (fun pd : string * bool => negb pd.2) (zip files done).

(** [print_screen] draws the header and the list; it assigns nothing.  Its
    text is not modelled, only that the screen was drawn. *)
Definition print_screen : prog unit := emit Screen.

(** How a pass of the loop ends: [continue] (or falling off the end of the
    body), or [break]. *)
Inductive control := Continue | Break.

(** From ['a 12' / 'p 12'] down to the range check: the command becomes an
    action given with it (if any) and an index, or the pass ends. *)
Definition resolve_command (files : list string) (cmd : string)
  : prog (option (option string * Z)) :=
  v ← get_vars;
  let plain : prog (option (option string * Z)) :=
    if String.eqb cmd EmptyString then
      start ← (if 0 <=? cursor v
               then if Z.of_nat (length (done v)) =? 0 then raise ZeroDivisionError
                    else mret ((cursor v + 1) mod Z.of_nat (length (done v)))
               else mret 0);
      idx ← lift (next_undone_index (done v) start);
      match idx with
      | None =>
          print EmptyString;;
          print (color "All files are done. If you're finished, press q to quit.");;
          mret None
      | Some i => mret (Some (None, i))
      end
    else if negb (isdigit cmd) then
      print EmptyString;;
      print (color "Valid inputs: Enter / number / a / p / m / r / q only.");;
      mret None
    else
      idx ← lift (int cmd);
      mret (Some (None, idx)) in
  picked ← match split cmd with
           | [p0; p1] =>
               if str_in (lower p0) ["a"; "p"] && isdigit p1
               then idx ← lift (int p1); mret (Some (Some (lower p0), idx))
               else plain
           | _ => plain
           end;
  match picked with
  | None => mret None
  | Some (action, idx) =>
      if (idx <? 0) || (Z.of_nat (length files) <=? idx) then
        print EmptyString;;
        print (color "Index out of range.");;
        mret None
      else mret (Some (action, idx))
  end.

(** The overwrite question for an entry that is already done. *)
Definition confirm_overwrite (path : string) (idx : Z) : prog bool :=
  v ← get_vars;
  d ← lift (index (done v) idx);
  if (d : bool) then
    ok ← ask_yes_no (color (nl +:+ "[" +:+ path +:+ "] is already done. Overwrite it? (y/N) > ")) true;
    if (ok : bool) then mret true
    else print (color "Cancelled.");; mret false
  else mret true.

(** The action for this file: the one given with the command, else the armed
    override, else by mode. *)
Definition decide_action (action : option string) (v : locals) : string :=
  match action with
  | Some a => a
  | None =>
      match next_action_override v with
      | Some a => a
      | None => if String.eqb (mode v) MODE_PASTE then "p" else "a"
      end
  end.

(** [contents[path] = content; done[idx] = True; cursor = idx] *)
Definition store (path : string) (idx : Z) (content : string) : prog unit :=
  v ← get_vars;
  set_contents (<[path := content]> (contents v));;
  d ← lift (setitem (done v) idx true);
  set_done d;;
  set_cursor idx.

Definition autosave (os : services) (files scan_dirs_abs : list string)
    (rel_root : string) : prog unit :=
  save_state os files scan_dirs_abs rel_root;;
  print (color ("(autosaved -> " +:+ STATE_FILE +:+ ")")).

(** The branch [if action == "a"], with the autosave that follows it. *)
Definition auto_branch (os : services) (files scan_dirs_abs : list string)
    (rel_root : string) (idx : Z) (path : string) : prog control :=
  v ← get_vars;
  '(content, why) ← lift (auto_read_file os rel_root path);
  got ← match content with
        | Some c => mret (Some c)
        | None =>
            print EmptyString;;
            print (color ("[" +:+ path +:+ "] AUTO-READ failed/skipped: " +:+ why));;
            if String.eqb (mode v) MODE_HYBRID then
              ok ← ask_yes_no (color "Switch to PASTE mode for this file? (y/N) > ") true;
              if (ok : bool) then
                c ← capture_section path idx (Z.of_nat (length files));
                mret (Some c)
              else
                print (color "Skipped. Move on to something else.");;
                mret None
            else mret None
        end;
  match got with
  | None => mret Continue
  | Some content =>
      store path idx content;;
      print (color (nl +:+ "[" +:+ path +:+ "] AUTO-READ complete."));;
      autosave os files scan_dirs_abs rel_root;;
      mret Continue
  end.

(** The branch [else:  # action == "p"], with the autosave that follows it. *)
Definition paste_branch (os : services) (files scan_dirs_abs : list string)
    (rel_root : string) (idx : Z) (path : string) : prog control :=
  content ← capture_section path idx (Z.of_nat (length files));
  store path idx content;;
  print (color (nl +:+ "[" +:+ path +:+ "] PASTE capture complete."));;
  autosave os files scan_dirs_abs rel_root;;
  mret Continue.

(** From "Decide the action for this file" to the end of the loop body. *)
Definition acquire (os : services) (files scan_dirs_abs : list string)
    (rel_root : string) (action : option string) (idx : Z) (path : string)
  : prog control :=
  v ← get_vars;
  let action := decide_action action v in
  set_next_action_override None;;
  if String.eqb action "a"
  then auto_branch os files scan_dirs_abs rel_root idx path
  else paste_branch os files scan_dirs_abs rel_root idx path.

(** From [path = files[idx]] on, for a command that was resolved to an
    entry; an unresolved command ends the pass. *)
Definition on_entry (os : services) (files scan_dirs_abs : list string) (rel_root : string)
    (picked : option (option string * Z)) : prog control :=
  match picked with
  | None => mret Continue
  | Some (action, idx) =>
      path ← lift (index files idx);
      ok ← confirm_overwrite path idx;
      if (ok : bool) then acquire os files scan_dirs_abs rel_root action idx path
      else mret Continue
  end.

(** The body of [while True]. *)
Definition iteration (os : services) (files scan_dirs_abs : list string)
    (rel_root : string) : prog control :=
  print_screen;;
  cmd ← read_cmd;
  v ← get_vars;
  if String.eqb (lower cmd) "q" then
    match remaining files (done v) with
    | [] => mret Break
    | ps =>
        print EmptyString;;
        print (color "You still have files with no content:");;
        print_items ps;;
        ok ← ask_yes_no (color "Quit anyway? (y/N) > ") true;
        if (ok : bool) then mret Break
        else print (color "Aborted. Keep going.");; mret Continue
    end
  else if String.eqb (lower cmd) "r" then
    set_show_remaining_only (negb (show_remaining_only v));;
    save_state os files scan_dirs_abs rel_root;;
    mret Continue
  else if String.eqb (lower cmd) "m" then
    set_mode (cycle_mode (mode v));;
    save_state os files scan_dirs_abs rel_root;;
    mret Continue
  else if String.eqb (lower cmd) "a" then
    set_next_action_override (Some "a");; mret Continue
  else if String.eqb (lower cmd) "p" then
    set_next_action_override (Some "p");; mret Continue
  else
    picked ← resolve_command files cmd;
    on_entry os files scan_dirs_abs rel_root picked.

(* ===================================================================== *)
(** ** Start of the interactive session and the loop around [iteration] *)
(* ===================================================================== *)

Definition get_checkpoint : prog state_file := fun m => (Ok (checkpoint m), m).

(** [done = [False] * len(files)] and the other initial values. *)
Definition fresh_vars (mode : string) (files : list string) : locals :=
  {| done := replicate (length files) false; contents := ∅; cursor := -1;
     show_remaining_only := false; mode := mode; next_action_override := None |}.

(** From the initial assignments to the greeting: a matching checkpoint
    replaces the fresh values, except for the mode just picked. *)
Definition interactive_start (mode : string) (files scan_dirs_abs : list string)
    (rel_root : string) : prog unit :=
  set_vars (fresh_vars mode files);;
  file ← get_checkpoint;
  loaded ← lift (load_state file files scan_dirs_abs rel_root);
  match loaded with
  | Some l =>
      set_vars {| done := l_done l; contents := l_contents l; cursor := l_cursor l;
                  show_remaining_only := l_show_remaining_only l; mode := mode;
                  next_action_override := None |};;
      print (color "Bundle Maker resume: existing state loaded.");;
      print ("Resumed. Let's keep going." +:+ nl)
  | None =>
      print (color "Bundle Maker started.");;
      print ("This is the real workflow." +:+ nl)
  end.

(** [except KeyboardInterrupt] around the loop. *)
Definition on_interrupt (os : services) (files scan_dirs_abs : list string)
    (rel_root : string) : prog unit :=
  print EmptyString;;
  print (color "KeyboardInterrupt detected. Saving state and exiting.");;
  save_state os files scan_dirs_abs rel_root.

(** Where the program stands after one pass: still in the loop, past it (by
    [break] or through the interrupt handler), or stopped by an exception
    that nothing catches. *)
Inductive stage :=
  | Running (m : machine)
  | Finishing (m : machine)
  | Crashed (e : exn) (m : machine).

Definition loop_pass (os : services) (files scan_dirs_abs : list string)
    (rel_root : string) (m : machine) : stage :=
  match iteration os files scan_dirs_abs rel_root m with
  | (Ok Continue, m') => Running m'
  | (Ok Break, m') => Finishing m'
  | (Raise KeyboardInterrupt, m') =>
      match on_interrupt os files scan_dirs_abs rel_root m' with
      | (Ok _, m'') => Finishing m''
      | (Raise e, m'') => Crashed e m''
      end
  | (Raise e, m') => Crashed e m'
  end.

Definition machine_of (s : stage) : machine :=
  match s with Running m | Finishing m | Crashed _ m => m end.

(** The program over several runs.  Between runs only the checkpoint file
    remains; a run of the interactive session is started on a non-empty
    inventory without duplicates ([generate_files] returns [sorted] of a
    set) in mode hybrid or paste (mode auto never enters the loop), and
    then makes passes of the loop until it leaves it. *)
Inductive config :=
  | Idle (file : state_file)
  | Session (files scan_dirs_abs : list string) (rel_root : string) (m : machine).

Inductive transition : config -> config -> Prop :=
  | t_launch file mode files scan_dirs_abs rel_root v0 inp m :
      files ≠ [] -> NoDup files ->
      mode = MODE_HYBRID \/ mode = MODE_PASTE ->
      interactive_start mode files scan_dirs_abs rel_root
        {| vars := v0; stdin := inp; checkpoint := file; stdout := [] |} = (Ok tt, m) ->
      transition (Idle file) (Session files scan_dirs_abs rel_root m)
  | t_pass os files scan_dirs_abs rel_root m m' :
      loop_pass os files scan_dirs_abs rel_root m = Running m' ->
      transition (Session files scan_dirs_abs rel_root m)
                 (Session files scan_dirs_abs rel_root m')
  | t_exit os files scan_dirs_abs rel_root m s :
      loop_pass os files scan_dirs_abs rel_root m = s ->
      (forall m', s <> Running m') ->
      transition (Session files scan_dirs_abs rel_root m) (Idle (checkpoint (machine_of s)))
  | t_kill files scan_dirs_abs rel_root m :
      transition (Session files scan_dirs_abs rel_root m) (Idle (checkpoint m)).

(** The disk before the first run holds no checkpoint, or a file that
    [json.load] rejects. *)
Definition blank (c : config) : Prop :=
  c = Idle Absent \/ exists n, c = Idle (Unreadable n).

Definition reachable (c : config) : Prop :=
  exists c0, blank c0 /\ rtc transition c0 c.

(** [sum(1 for x in done if x)] *)
Definition done_count (done : list bool) : Z :=
  Z.of_nat (length (List.filter (fun x : bool => x) done)).

(* ===================================================================== *)
(** ** Notions used in the statements *)
(* ===================================================================== *)

(** The first pending entry in circular order from [start]: [k] steps on. *)
Definition first_pending_at (done : list bool) (start k : Z) : Prop :=
  let n := Z.of_nat (length done) in
  0 <= k < n /\
  done !! Z.to_nat ((start + k) mod n) = Some false /\
  forall j, 0 <= j < k -> done !! Z.to_nat ((start + j) mod n) = Some true.

(** The machine after some more output. *)
Definition wrote (m : machine) (out : list output) : machine :=
  {| vars := vars m; stdin := stdin m; checkpoint := checkpoint m;
     stdout := stdout m ++ out |}.

(** The machine after one console event was consumed. *)
Definition consumed (m : machine) (rest : list stdin_event) : machine :=
  {| vars := vars m; stdin := rest; checkpoint := checkpoint m; stdout := stdout m |}.

(** The machine with other variables. *)
Definition with_vars (m : machine) (v : locals) : machine :=
  {| vars := v; stdin := stdin m; checkpoint := checkpoint m; stdout := stdout m |}.

(** Where scanning starts on the advance command. *)
Definition advance_start (v : locals) : Z :=
  if 0 <=? cursor v then (cursor v + 1) mod Z.of_nat (length (done v)) else 0.

(** The machine after the screen was drawn and one command line was read. *)
Definition prompted (m : machine) (rest : list stdin_event) : machine :=
  {| vars := vars m; stdin := rest; checkpoint := checkpoint m;
     stdout := stdout m ++ [Screen; Prompt "> "] |}.

(** The extension that [_should_skip_autoread] looks up. *)
Definition skip_ext_of (name : string) : string :=
  lstrip_dots (lower (snd (PosixPath.splitext name))).

(** The file gets past the checks made before it is opened: it exists, its
    name and extension are not excluded, and its size is within the ceiling
    or cannot be told. *)
Definition passes_checks (os : services) (abs_fp : string) : Prop :=
  path_exists os abs_fp = true /\
  str_in (PosixPath.basename abs_fp) AUTO_SKIP_NAMES = false /\
  str_in (skip_ext_of (PosixPath.basename abs_fp)) AUTO_SKIP_EXTS = false /\
  ((exists sz, getsize os abs_fp = Returns sz /\ sz <= AUTO_MAX_BYTES)
   \/ exists n, getsize os abs_fp = Raises n).

(** The reasons of the seven kinds of failure. *)
Definition failure_reasons (name ext : string) (sz : Z) (exn_name : string) : list string :=
  ["not-found"; "skip-name(" +:+ name +:+ ")"; "skip-ext(." +:+ ext +:+ ")";
   "too-large(" +:+ str_of_int sz +:+ " bytes)"; "read-failed(" +:+ exn_name +:+ ")";
   "binary-detected(NULL)"; "decode-failed"].

(** The paths with content, in inventory order, each with its content. *)
Definition acquired (contents : gmap string string) (files : list string)
  : list (string * string) :=
  omap (fun p => pair p <$> contents !! p) files.

(** What [build_bundle_text] puts between the two markers of a file. *)
Definition emitted_body (body : string) : string :=
  if truthy_str body && negb (endswith body nl) then body +:+ nl else body.

Definition group_text (item : string * string) : string :=
  HEADER_FMT item.1 +:+ emitted_body item.2 +:+ FOOTER_FMT item.1 +:+ nl.

(** The lines before the first group, for skip items in the given order. *)
Definition bundle_head (now rel_root : string) (items : list (string * string)) : string :=
  "=== BUNDLE GENERATED: " +:+ now +:+ " ===" +:+ nl
  +:+ "=== REL_ROOT: " +:+ rel_root +:+ " ===" +:+ nl
  +:+ match items with
      | [] => EmptyString
      | _ => "=== SKIPPED (auto-read) ===" +:+ nl +:+ join (skip_line <$> items) +:+ nl
      end
  +:+ nl.

(** The claim's reading of the content part: a terminator is appended
    whenever the content does not end with one. *)
Definition newline_terminated (body : string) : string :=
  if endswith body nl then body else body +:+ nl.

Definition spec_group_text (item : string * string) : string :=
  HEADER_FMT item.1 +:+ newline_terminated item.2 +:+ FOOTER_FMT item.1 +:+ nl.

Definition spec_bundle_text (now rel_root : string) (files : list string)
    (contents skipped : gmap string string) : string :=
  bundle_head now rel_root (sorted_items skipped)
  +:+ join (spec_group_text <$> acquired contents files).

(** The record's fields as the interface section of the specification types
    them: done flags a list of booleans as long as the inventory, contents
    an object of strings, cursor an integer, filter a boolean, mode one of
    the three tokens. *)
Definition field_typed (m : gmap string json) (files : list string) : bool :=
  match m !! "done" with
  | Some (JList ds) =>
      forallb (fun x => bool_decide (is_Some (as_bool x))) ds
      && (length ds =? length files)%nat
  | _ => false
  end
  && match m !! "contents" with
     | Some (JDict cs) => bool_decide (map_Forall (fun _ x => is_Some (as_str x)) cs)
     | _ => false
     end
  && match m !! "cursor" with Some (JInt _) => true | _ => false end
  && match m !! "show_remaining_only" with Some (JBool _) => true | _ => false end
  && match m !! "mode" with Some (JStr s) => str_in s MODES | _ => false end.

Definition record_typed (state : json) (files : list string) : bool :=
  match state with JDict m => field_typed m files | _ => false end.

(** The cursor, filter and mode that [load_state] makes of a record. *)
Definition cursor_of (m : gmap string json) (files : list string) : Z :=
  Z.max (-1) (Z.min (match m !! "cursor" with
                     | Some x => match as_int x with Some c => c | None => -1 end
                     | None => -1
                     end) (Z.of_nat (length files) - 1)).

Definition filter_of (m : gmap string json) : bool :=
  match m !! "show_remaining_only" with
  | Some x => match as_bool x with Some b => b | None => false end
  | None => false
  end.

Definition mode_of (m : gmap string json) : string :=
  match m !! "mode" with
  | Some (JStr s) => if str_in s MODES then s else MODE_HYBRID
  | _ => MODE_HYBRID
  end.

(** The record is for this inventory, these scan roots and this root. *)
Definition keys_match (m : gmap string json) (files dirs : list string) (root : string) : Prop :=
  (exists x, m !! "scan_dirs_abs" = Some x /\ eq_strs x dirs = true) /\
  (exists x, m !! "rel_root" = Some x /\ eq_str x root = true) /\
  (exists x, m !! "files" = Some x /\ eq_strs x files = true).

(** [c] leaves the variables and the checkpoint file alone. *)
Definition console_only {A} (c : prog A) : Prop :=
  forall m, vars (snd (c m)) = vars m /\ checkpoint (snd (c m)) = checkpoint m.

(** The variables once the one-shot override has been taken. *)
Definition cleared (v : locals) : locals :=
  {| done := done v; contents := contents v; cursor := cursor v;
     show_remaining_only := show_remaining_only v; mode := mode v;
     next_action_override := None |}.







(** A path has stored content exactly when its flag is set. *)
Definition acquired_iff_content (files : list string) (v : locals) : Prop :=
  forall i p, files !! i = Some p ->
    (is_Some (contents v !! p) <-> done v !! i = Some true).

(** The session state is well formed for the inventory. *)
Definition session_ok (files : list string) (v : locals) : Prop :=
  length (done v) = length files /\
  acquired_iff_content files v /\
  (forall p, is_Some (contents v !! p) -> p ∈ files) /\
  -1 <= cursor v < Z.of_nat (length files) /\
  mode v ∈ MODES.

(** The checkpoint file holds nothing that parses, or a record that
    [save_state] wrote from a well-formed session state. *)
Definition checkpoint_ok (file : state_file) : Prop :=
  match file with
  | Parsed state =>
      exists now files dirs root v,
        session_ok files v /\
        state = state_record now files dirs root (done v) (contents v) (cursor v)
                  (show_remaining_only v) (mode v)
  | _ => True
  end.

Definition inv (files : list string) (m : machine) : Prop :=
  session_ok files (vars m) /\ checkpoint_ok (checkpoint m).

(** The variables after [store]. *)
Definition stored (v : locals) (path : string) (idx : Z) (content : string) : locals :=
  {| done := <[Z.to_nat idx := true]> (done v);
     contents := <[path := content]> (contents v);
     cursor := idx;
     show_remaining_only := show_remaining_only v; mode := mode v;
     next_action_override := next_action_override v |}.

Definition keeps (I : machine -> Prop) {A} (c : prog A) : Prop :=
  forall m, I m -> I (snd (c m)).

(** What holds of every configuration the program can be in. *)
Definition config_ok (c : config) : Prop :=
  match c with
  | Idle file => checkpoint_ok file
  | Session files _ _ m => NoDup files /\ inv files m
  end.

(* ===================================================================== *)
(** ** Sample inputs *)
(* ===================================================================== *)

Definition sample_os : services :=
  {| path_exists := fun p => String.eqb p "/r/a.py";
     getsize := fun _ => Returns 2;
     read_binary := fun p => if String.eqb p "/r/a.py" then Returns [Byte.x58; Byte.x0a]
                             else Raises "PermissionError";
     decode := fun enc _ => if String.eqb enc "utf-8" then Returns ("X" +:+ nl)
                            else Raises "UnicodeDecodeError";
     write_text := fun _ => Returns tt;
     now_isoformat := "2024-01-01T00:00:00" |}.

Definition sample_vars : locals :=
  {| done := [true; false]; contents := {[ "a.py" := "X" +:+ nl ]}; cursor := 0;
     show_remaining_only := true; mode := MODE_PASTE; next_action_override := None |}.

Definition sample_machine (inp : list stdin_event) : machine :=
  {| vars := sample_vars; stdin := inp; checkpoint := Absent; stdout := [] |}.

Definition sample_files : list string := ["a.py"; "b.py"].

Definition sample_started : machine :=
  snd (interactive_start MODE_HYBRID sample_files ["/r"] "/r"
         {| vars := sample_vars; stdin := [Keys nl; Keys nl; Keys ("n" +:+ nl)];
            checkpoint := Absent; stdout := [] |}).

Definition sample_after_one_pass : machine :=
  machine_of (loop_pass sample_os sample_files ["/r"] "/r" sample_started).

(** A console on which a one-line file is pasted. *)
Definition sample_paste : machine :=
  sample_machine [Keys ("hello" +:+ nl); Keys ("  \END " +:+ nl); Keys ("next" +:+ nl)].

(** A file that exists but cannot be opened. *)
Definition locked_os : services :=
  {| path_exists := fun _ => true;
     getsize := fun _ => Raises "PermissionError";
     read_binary := fun _ => Raises "PermissionError";
     decode := fun _ _ => Raises "UnicodeDecodeError";
     write_text := fun _ => Returns tt;
     now_isoformat := "2024-01-01T00:00:00" |}.

(** A session in mode auto whose next entry cannot be read. *)
Definition sample_auto : machine :=
  {| vars := {| done := [true; false]; contents := {[ "a.py" := "X" +:+ nl ]}; cursor := 0;
                show_remaining_only := false; mode := MODE_AUTO;
                next_action_override := None |};
     stdin := [Keys ("y" +:+ nl)]; checkpoint := Absent; stdout := [] |}.

(** A session in mode hybrid whose operator declines the fallback. *)
Definition sample_hybrid : machine :=
  {| vars := {| done := [true; false]; contents := {[ "a.py" := "X" +:+ nl ]}; cursor := 0;
                show_remaining_only := false; mode := MODE_HYBRID;
                next_action_override := Some "a" |};
     stdin := [Keys ("no" +:+ nl); Keys nl]; checkpoint := Absent; stdout := [] |}.

(** A file with a null byte in it. *)
Definition binary_os : services :=
  {| path_exists := fun _ => true;
     getsize := fun _ => Returns 3;
     read_binary := fun _ => Returns [Byte.x41; Byte.x00; Byte.x42];
     decode := fun _ _ => Returns "A";
     write_text := fun _ => Returns tt;
     now_isoformat := "2024-01-01T00:00:00" |}.

(** A record that [save_state] never writes: a flag is set, but the content
    kept for its path is a number. *)
Definition foreign_record : json :=
  JDict (list_to_map
    [("scan_dirs_abs", JList [JStr "/r"]); ("rel_root", JStr "/r");
     ("files", JList [JStr "a.py"]); ("done", JList [JInt 1]);
     ("contents", JDict {[ "a.py" := JInt 5 ]})]).

(* ===================================================================== *)
(** ** The loop as a whole: notions used in the further properties *)
(* ===================================================================== *)

(** The part of the variables that [save_state] writes. *)
Definition session_state (v : locals) : list bool * gmap string string * Z * bool * string :=
  (done v, contents v, cursor v, show_remaining_only v, mode v).

(** Since [m0], neither the session state nor the checkpoint file changed. *)
Definition untouched (m0 m : machine) : Prop :=
  session_state (vars m) = session_state (vars m0) /\ checkpoint m = checkpoint m0.

(** The checkpoint file holds the record of the current session state. *)
Definition synced (os : services) (files scan_dirs_abs : list string) (rel_root : string)
    (m : machine) : Prop :=
  checkpoint m
  = Parsed (state_record (now_isoformat os) files scan_dirs_abs rel_root
              (done (vars m)) (contents (vars m)) (cursor (vars m))
              (show_remaining_only (vars m)) (mode (vars m))).

(** What [main] guarantees when it enters the loop: some file, and a flag
    for each. *)
Definition shaped (files : list string) (v : locals) : Prop :=
  files <> [] /\ length (done v) = length files.

(** A Hoare triple for programs that may raise: from a machine in [P], a
    normal end is in [Q] and an exception [e] leaves a machine in [E e]. *)
Definition triple {A} (P : machine -> Prop) (c : prog A)
    (Q : A -> machine -> Prop) (E : exn -> machine -> Prop) : Prop :=
  forall m, P m ->
    match c m with
    | (Ok a, m') => Q a m'
    | (Raise e, m') => E e m'
    end.

(** [c] raises nothing but exceptions in [K]. *)
Definition raises_only {A} (K : exn -> Prop) (c : prog A) : Prop :=
  forall m e m', c m = (Raise e, m') -> K e.

(** How a pass of the loop may end normally: nothing changed, or what
    changed is in the checkpoint file. *)
Definition pass_ok (os : services) (files scan_dirs_abs : list string) (rel_root : string)
    (m0 m : machine) : Prop :=
  untouched m0 m
  \/ (write_text os STATE_FILE = Returns tt /\ synced os files scan_dirs_abs rel_root m).

(** How a pass of the loop may raise. *)
Definition pass_exn (os : services) (files : list string) (m0 : machine)
    (e : exn) (m : machine) : Prop :=
  checkpoint m = checkpoint m0 /\
  ((e = KeyboardInterrupt /\ session_state (vars m) = session_state (vars m0))
   \/ (e = ValueError /\ session_state (vars m) = session_state (vars m0))
   \/ (exists n, write_text os STATE_FILE = Raises n /\ e = Exception n)
   \/ (~ shaped files (vars m0) /\ (e = IndexError \/ e = ZeroDivisionError))).

(** A predicate that looks at the variables and the checkpoint only. *)
Definition on_state (P : machine -> Prop) : Prop :=
  forall m m', vars m' = vars m -> checkpoint m' = checkpoint m -> P m -> P m'.

(** Nothing collected so far is lost from [v] to [v']. *)
Definition progressed (v v' : locals) : Prop :=
  length (done v') = length (done v) /\
  (forall i, done v !! i = Some true -> done v' !! i = Some true) /\
  (forall p, is_Some (contents v !! p) -> is_Some (contents v' !! p)).

(** [while True] for at most [fuel] passes: where the program stands when
    the loop is left, or after [fuel] passes that all continued. *)
Fixpoint passes (os : services) (files scan_dirs_abs : list string) (rel_root : string)
    (fuel : nat) (m : machine) : stage :=
  match fuel with
  | O => Running m
  | S k =>
      match loop_pass os files scan_dirs_abs rel_root m with
      | Running m' => passes os files scan_dirs_abs rel_root k m'
      | s => s
      end
  end.


(** Two files, the first one collected, nothing on disk yet. *)
Definition half_done (inp : list stdin_event) : machine :=
  {| vars := {| done := [true; false]; contents := {[ "a.py" := "X" +:+ nl ]}; cursor := 0;
                show_remaining_only := false; mode := MODE_PASTE;
                next_action_override := None |};
     stdin := inp; checkpoint := Absent; stdout := [] |}.

(* ===================================================================== *)
(** ** The command line and the two questions before the scan *)
(* ===================================================================== *)

(** [s[0]] and [s[-1]], where the string has them *)
Definition first_char (s : string) : option ascii :=
  match s with String c _ => Some c | EmptyString => None end.

Fixpoint last_char (s : string) : option ascii :=
  match s with
  | EmptyString => None
  | String c r => match r with EmptyString => Some c | _ => last_char r end
  end.

(** [s[:-1]] *)
Fixpoint but_last (s : string) : string :=
  match s with
  | EmptyString => EmptyString
  | String c r => match r with EmptyString => EmptyString | _ => String c (but_last r) end
  end.

(** [s[1:-1]] *)
Definition inner (s : string) : string :=
  match s with String _ r => but_last r | EmptyString => EmptyString end.

(** [c] is the single or the double quote *)
Definition is_quote (c : ascii) : bool := Ascii.eqb c "'"%char || Ascii.eqb c "034"%char.

Definition _strip_wrapping_quotes (s : string) : string :=
  let s := strip s in
  match first_char s, last_char s with
  | Some a, Some b =>
      if (2 <=? String.length s)%nat && Ascii.eqb a b && is_quote a then inner s else s
  | _, _ => s
  end.

(** [s.startswith(pre)] *)
Fixpoint startswith (s pre : string) {struct pre} : bool :=
  match pre, s with
  | EmptyString, _ => true
  | String a p, String b r => Ascii.eqb a b && startswith r p
  | String _ _, EmptyString => false
  end.

(** [sub in s] *)
Fixpoint contains (sub s : string) : bool :=
  startswith s sub
  || match s with EmptyString => false | String _ r => contains sub r end.

(** [s.split(sep)] for a separator of one character *)
Fixpoint split_on (sep : ascii) (s : string) : list string :=
  match s with
  | EmptyString => [EmptyString]
  | String c r =>
      if Ascii.eqb c sep then EmptyString :: split_on sep r
      else match split_on sep r with
           | x :: xs => String c x :: xs
           | [] => [String c EmptyString]
           end
  end.

(** The capital of one character of the model (a code point below 256), as
    [str.upper] gives it: the letters a-z and those from 224 to 254, the
    division sign apart, move down by 32; the sharp s (223) becomes the two
    letters SS; every other character stays, but for the two in
    [capital_out_of_range]. *)
Definition upper_char (c : ascii) : string :=
  let n := code c in
  if (n =? 223)%N then "SS"
  else if ((97 <=? n) && (n <=? 122)
           || (224 <=? n) && (n <=? 254) && negb (n =? 247))%N
  then String (ascii_of_N (n - 32)) EmptyString
  else String c EmptyString.

(** The micro sign (181) and the y with diaeresis (255): [str.upper] maps
    them to U+039C and U+0178, which are no characters of the model;
    [upper] below is [s.upper()] for the strings without them. *)
Definition capital_out_of_range (c : ascii) : bool :=
  ((code c =? 181) || (code c =? 255))%N.

(** [s.upper()], for a string [s] with no character in
    [capital_out_of_range] *)
Fixpoint upper (s : string) : string :=
  match s with
  | EmptyString => EmptyString
  | String c r => upper_char c +:+ upper r
  end.

Definition has_upper (s : string) : bool :=
  all_chars (fun c => negb (capital_out_of_range c)) s.

(** One turn of the [for a in argv] loop of [parse_mode_and_dirs]. *)
Definition parse_arg (acc : string * list string * bool) (a : string)
  : string * list string * bool :=
  let '(mode, rest, forced) := acc in
  if str_in a ["--auto"; "-a"] then (MODE_AUTO, rest, true)
  else if str_in a ["--paste"; "-p"] then (MODE_PASTE, rest, true)
  else if str_in a ["--hybrid"; "-h"] then (MODE_HYBRID, rest, true)
  else (mode, rest ++ [a], forced).

Definition parse_mode_and_dirs (argv : list string) : string * list string * bool :=
  foldl parse_arg (MODE_HYBRID, [], false) argv.

(** The [while True] loop of [select_mode_before_path], by recursion on
    what the console still holds. *)
Fixpoint select_mode_loop (default : string) (inp : list stdin_event) (out : list output)
  : result string * list stdin_event * list output :=
  let out := out ++ [Prompt (color "Mode > ")] in
  match inp with
  | [] => (Ok default, [], out)
  | Interrupt :: rest => (Raise KeyboardInterrupt, rest, out)
  | Keys line :: rest =>
      if String.eqb line EmptyString then (Ok default, rest, out)
      else
        let ans := strip (chomp line) in
        if String.eqb ans EmptyString then (Ok default, rest, out)
        else if String.eqb ans "1" then (Ok MODE_HYBRID, rest, out)
        else if String.eqb ans "2" then (Ok MODE_PASTE, rest, out)
        else if String.eqb ans "3" then (Ok MODE_AUTO, rest, out)
        else select_mode_loop default rest (out ++ [Print (color "Only 1/2/3 or Enter.")])
  end.

Definition select_mode_answers (default : string) : prog string := fun m =>
  let '(r, rest, out) := select_mode_loop default (stdin m) (stdout m) in
  (r, {| vars := vars m; stdin := rest; checkpoint := checkpoint m; stdout := out |}).

Definition select_mode_before_path (default : string) : prog string :=
  print EmptyString;;
  print (color "=========== Select Mode ===========");;
  print (color "1) HYBRID" +:+ " " +:+ "- auto-read by default, fall back to paste");;
  print (color "2) PASTE " +:+ " " +:+ "- manual copy-paste for every file + \END");;
  print (color "3) AUTO  " +:+ " " +:+ "- auto-read everything and build bundle immediately");;
  print (color ("[Enter]=default(" +:+ upper default +:+ ")"));;
  select_mode_answers default.

Definition get_scan_dirs (paths_from_argv : list string) : prog (list string) :=
  match paths_from_argv with
  | _ :: _ =>
      mret (_strip_wrapping_quotes
              <$> List.filter (fun x => truthy_str (strip x)) paths_from_argv)
  | [] =>
      p ← try_except_EOFError
             (s ← input (color "Paste project root path (Enter = current folder) > ");
              mret (strip s))
             (mret EmptyString);
      if negb (truthy_str p) then mret ["."]
      else
        let p := _strip_wrapping_quotes p in
        if contains ";" p
        then mret (List.filter truthy_str (_strip_wrapping_quotes <$> split_on ";" p))
        else mret [p]
  end.

(** The first part of [main]: the mode comes from the command line, or from
    the console when no flag gave it; then the paths. *)
Definition choose_mode_and_dirs (argv : list string) : prog (string * list string) :=
  let '(mode, rest_paths, mode_forced) := parse_mode_and_dirs argv in
  mode ← (if negb mode_forced then select_mode_before_path MODE_HYBRID else mret mode);
  scan_dirs_raw ← get_scan_dirs rest_paths;
  mret (mode, scan_dirs_raw).

(* ---- notions for the statements ---- *)

(** A mode flag, and the mode it stands for. *)
Definition flag_mode (a : string) : option string :=
  if str_in a ["--auto"; "-a"] then Some MODE_AUTO
  else if str_in a ["--paste"; "-p"] then Some MODE_PASTE
  else if str_in a ["--hybrid"; "-h"] then Some MODE_HYBRID
  else None.

(** An answer that the mode question turns down. *)
Definition bad_mode_answer (line : string) : Prop :=
  line <> EmptyString /\ strip (chomp line) ∉ [EmptyString; "1"; "2"; "3"].

(** What an accepted answer selects. *)
Definition answered_mode (default ans : string) : string :=
  if String.eqb ans "1" then MODE_HYBRID
  else if String.eqb ans "2" then MODE_PASTE
  else if String.eqb ans "3" then MODE_AUTO
  else default.

(** No white space, no quote and no semicolon in [s], which is not empty. *)
Definition plain_char (c : ascii) : bool :=
  negb (isspace c) && negb (is_quote c) && negb (Ascii.eqb c ";").

Definition plain (s : string) : Prop :=
  s <> EmptyString /\ all_chars plain_char s = true.

(** [";".join(parts)] *)
Fixpoint join_semicolon (parts : list string) : string :=
  match parts with
  | [] => EmptyString
  | [p] => p
  | p :: ps => p +:+ ";" +:+ join_semicolon ps
  end.

Definition dq : string := String "034"%char EmptyString.

Definition nonspace (c : ascii) : bool := negb (isspace c).

Definition select_mode_header (default : string) : list output :=
  [Print EmptyString;
   Print (color "=========== Select Mode ===========");
   Print (color "1) HYBRID" +:+ " " +:+ "- auto-read by default, fall back to paste");
   Print (color "2) PASTE " +:+ " " +:+ "- manual copy-paste for every file + \END");
   Print (color "3) AUTO  " +:+ " " +:+ "- auto-read everything and build bundle immediately");
   Print (color ("[Enter]=default(" +:+ upper default +:+ ")"))].

Definition no_semicolon (c : ascii) : bool := negb (Ascii.eqb c ";").

Definition path_prompt : string := color "Paste project root path (Enter = current folder) > ".

(* ===================================================================== *)
(** ** The scan: roots, common root, inventory *)
(* ===================================================================== *)

Definition ALLOWED_EXTS : list string :=
  ["py"; "sql"; "html"; "css"; "js"; "c"; "h"; "cpp"; "hpp"; "cc"; "hh"; "cs"].

Definition EXCLUDE_DIRS : list string :=
  [".git"; ".svn"; ".hg"; "__pycache__"; ".pytest_cache"; "node_modules";
   "venv"; ".venv"; "dist"; "build"; ".idea"; ".vscode"].

Definition EXCLUDE_FILES : list string := [BUNDLE_NAME; STATE_FILE].

(** [_to_posix], with [os.sep = "/"] *)
Definition _to_posix (path : string) : string :=
  PosixPath.replace_char PosixPath.sep "/"%char path.

(** What a folder holds, as [os.walk] lists it: the folders in it by name,
    each with what it holds, and the names of its files. *)
Inductive tree :=
  | Folder (dirnames : list (string * tree)) (filenames : list string).

(** What a path names. *)
Inductive node :=
  | File
  | Dir (t : tree).

(** The file system as the scan sees it.  [commonpath] raises on a mix of
    absolute and relative paths; [relpath] does not raise on a POSIX system
    for the paths the scan gives it, which are not empty. *)
Record scan_services := {
  getcwd : string;
  abspath : string -> string;
  lookup_path : string -> option node;
  commonpath : list string -> outcome string;
  relpath : string -> string -> string;
}.

(** [os.path.isabs] *)
Definition isabs (p : string) : bool := startswith p "/".

Definition isfile (os : scan_services) (p : string) : bool :=
  match lookup_path os p with Some File => true | _ => false end.

(** [s.rstrip("/")] *)
Fixpoint rstrip_sep (s : string) : string :=
  match s with
  | EmptyString => EmptyString
  | String c r =>
      match rstrip_sep r with
      | EmptyString => if Ascii.eqb c PosixPath.sep then EmptyString else String c EmptyString
      | r' => String c r'
      end
  end.

(** [os.path.dirname]: the part up to the last separator, without the
    separators at its end unless it consists of separators. *)
Definition dirname (p : string) : string :=
  let head := prefix (String.length p - String.length (PosixPath.basename p)) p in
  if truthy_str head && negb (all_chars (Ascii.eqb PosixPath.sep) head)
  then rstrip_sep head else head.

(** The loop of [normalize_base_dirs] that drops what was seen before. *)
Fixpoint uniq_from (seen : gset string) (xs : list string) : list string :=
  match xs with
  | [] => []
  | x :: rest =>
      if decide (x ∈ seen) then uniq_from seen rest
      else x :: uniq_from ({[x]} ∪ seen) rest
  end.

(** The absolute path appended for one entry, if any. *)
Definition normalize_one (os : scan_services) (b : string) : option string :=
  if negb (truthy_str b) then None
  else
    let b := _strip_wrapping_quotes b in
    Some (if isabs b then abspath os b
          else abspath os (PosixPath.join (getcwd os) b)).

Definition normalize_base_dirs (os : scan_services) (base_dirs : list string) : list string :=
  uniq_from ∅ (omap (normalize_one os) base_dirs).

Definition compute_rel_root (os : scan_services) (base_dirs_abs : list string) : string :=
  match base_dirs_abs with
  | [] => getcwd os
  | [b] => if isfile os b then dirname b else b
  | _ =>
      match commonpath os base_dirs_abs with
      | Returns p => p
      | Raises _ => getcwd os
      end
  end.

Definition allow_file (fp : string) : bool :=
  let name := PosixPath.basename fp in
  if str_in name EXCLUDE_FILES then false
  else if contains ".tmp." name then false
  else
    let ext := lstrip_dots (lower (snd (PosixPath.splitext name))) in
    truthy_str ext && str_in ext ALLOWED_EXTS.

(** [os.walk(top)], top down, for a caller that keeps of [dirnames] the
    names that [keep] accepts before the walk goes on: each folder visited,
    with the names of its files. *)
Fixpoint walk (keep : string -> bool) (top : string) (t : tree)
  : list (string * list string) :=
  match t with
  | Folder dirnames filenames =>
      (top, filenames)
      :: (fix below (ds : list (string * tree)) : list (string * list string) :=
            match ds with
            | [] => []
            | (d, sub) :: rest =>
                (if keep d then walk keep (PosixPath.join top d) sub else [])
                ++ below rest
            end) dirnames
  end.

(** What one pass of [for base_path in base_dirs_abs] adds to [out]. *)
Definition found_under (os : scan_services) (rel_root base_path : string) : list string :=
  match lookup_path os base_path with
  | None => []
  | Some File =>
      if allow_file base_path then [_to_posix (relpath os base_path rel_root)] else []
  | Some (Dir t) =>
      '(cur, filenames) ← walk (fun d => negb (str_in d EXCLUDE_DIRS)) base_path t;
      fn ← filenames;
      let full := PosixPath.join cur fn in
      if allow_file full then [_to_posix (relpath os full rel_root)] else []
  end.

(** [sorted(out)] for a set of strings *)
Definition sorted_set (out : gset string) : list string :=
  merge_sort String.le (elements out).

Definition generate_files (os : scan_services) (base_dirs_abs : list string) : list string :=
  let rel_root := compute_rel_root os base_dirs_abs in
  sorted_set (list_to_set (base_dirs_abs ≫= found_under os rel_root)).

(* ---- notions for the statements ---- *)

(** The folders that a walk from [top] gets to, going down only through
    folders whose names [keep] accepts. *)
Inductive visits (keep : string -> bool)
  : string -> tree -> string -> list string -> Prop :=
  | visits_top top dirnames filenames :
      visits keep top (Folder dirnames filenames) top filenames
  | visits_below top dirnames filenames d sub cur fns :
      (d, sub) ∈ dirnames -> keep d = true ->
      visits keep (PosixPath.join top d) sub cur fns ->
      visits keep top (Folder dirnames filenames) cur fns.

(** A small tree: a source file at the top, one below [src], one in a
    [node_modules] folder. *)
Definition sample_tree : tree :=
  Folder [("node_modules", Folder [] ["x.js"]);
          ("src", Folder [("build", Folder [] ["gen.c"])] ["b.py"; "notes.txt"])]
         ["a.py"; "bundle.txt"; "README"].

Definition sample_scan : scan_services :=
  {| getcwd := "/home";
     abspath := fun p => p;
     lookup_path := fun p => if String.eqb p "/r" then Some (Dir sample_tree) else None;
     commonpath := fun _ => Raises "ValueError";
     relpath := fun p start =>
       if startswith p (start +:+ "/")
       then substring (String.length start + 1) (String.length p) p else p |}.

(* ===================================================================== *)
(** ** Mode auto, and the end of [main] *)
(* ===================================================================== *)

(** The [for i, p in enumerate(files, start=1)] loop of mode auto, from
    turn [i] on. *)
Fixpoint auto_loop (os : services) (rel_root : string) (total : Z) (i : Z)
    (files : list string) (contents skipped : gmap string string)
  : prog (gmap string string * gmap string string) :=
  match files with
  | [] => mret (contents, skipped)
  | p :: rest =>
      '(c, why) ← lift (auto_read_file os rel_root p);
      match c with
      | None => auto_loop os rel_root total (i + 1) rest contents (<[p := why]> skipped)
      | Some c =>
          (if i mod 50 =? 0
           then print (color ("Reading... " +:+ str_of_int i +:+ "/" +:+ str_of_int total))
           else mret tt);;
          auto_loop os rel_root total (i + 1) rest (<[p := c]> contents) skipped
      end
  end.

(** [for p, why in sorted(skipped.items()): print(" -", p, "::", why)] *)
Fixpoint print_skipped (items : list (string * string)) : prog unit :=
  match items with
  | [] => mret tt
  | (p, why) :: rest => print (" - " +:+ p +:+ " :: " +:+ why);; print_skipped rest
  end.

(** [atomic_write_text(BUNDLE_NAME, bundle_text)] on what [bundle.txt]
    holds: the new text replaces the old one, or the write raises and the
    old one stays. *)
Definition write_bundle (os : services) (bundle_text : string) (bundle : option string)
  : result unit * option string :=
  match write_text os BUNDLE_NAME with
  | Returns _ => (Ok tt, Some bundle_text)
  | Raises n => (Raise (Exception n), bundle)
  end.

(** What mode auto prints after the bundle is written; the value is the
    exit status. *)
Definition auto_report (files : list string) (contents skipped : gmap string string)
  : prog Z :=
  print EmptyString;;
  print (color ("Done. Created: " +:+ BUNDLE_NAME +:+ " | Included: "
                +:+ str_of_int (Z.of_nat (size contents)) +:+ "/"
                +:+ str_of_int (Z.of_nat (length files))));;
  (if negb (bool_decide (skipped = ∅))
   then print (color "Skipped files:");;
        print_skipped (sorted_items skipped)
   else print (color "No skipped files. Clean."));;
  mret 0.

(** What the interactive modes print after the bundle is written. *)
Definition finish_report (files : list string) (done : list bool) : prog Z :=
  print EmptyString;;
  print (color ("Done. Created: " +:+ BUNDLE_NAME +:+ " | done flags: "
                +:+ str_of_int (done_count done) +:+ "/"
                +:+ str_of_int (Z.of_nat (length files))));;
  match remaining files done with
  | [] => print (color "All files completed. Good job.")
  | ps => print (color "Files with no content (still incomplete):");;
          print_items ps
  end;;
  print (color "Re-running a file will fully overwrite its previous content in the bundle.");;
  mret 0.

(** The branch [if mode == MODE_AUTO] of [main]: the exit status, the
    machine and what [bundle.txt] holds at the end. *)
Definition auto_mode (os : services) (files : list string) (rel_root : string)
    (m : machine) (bundle : option string) : result Z * machine * option string :=
  match (print (color "AUTO mode: reading files directly and building bundle.");;
         print (color "No copy-paste. Just build.");;
         auto_loop os rel_root (Z.of_nat (length files)) 1 files ∅ ∅) m with
  | (Raise e, m1) => (Raise e, m1, bundle)
  | (Ok (contents, skipped), m1) =>
      let bundle_text :=
        build_bundle_text (now_isoformat os) rel_root files contents skipped in
      match write_bundle os bundle_text bundle with
      | (Raise e, bundle') => (Raise e, m1, bundle')
      | (Ok _, bundle') =>
          let '(r, m2) := auto_report files contents skipped m1 in
          (r, m2, bundle')
      end
  end.

(** From [bundle_text = build_bundle_text(...)] after the loop to
    [return 0]. *)
Definition finish (os : services) (files : list string) (rel_root : string)
    (m : machine) (bundle : option string) : result Z * machine * option string :=
  let v := vars m in
  let bundle_text := build_bundle_text (now_isoformat os) rel_root files (contents v) ∅ in
  match write_bundle os bundle_text bundle with
  | (Raise e, bundle') => (Raise e, m, bundle')
  | (Ok _, bundle') =>
      let '(r, m') := finish_report files (done v) m in
      (r, m', bundle')
  end.

(* ---- notions for the statements ---- *)

(** What the direct read gives for a path: its text, or the reason why
    not. *)
Definition read_text (os : services) (rel_root p : string) : option string :=
  match auto_read_file os rel_root p with Ok (Some c, _) => Some c | _ => None end.

Definition read_refusal (os : services) (rel_root p : string) : option string :=
  match auto_read_file os rel_root p with Ok (None, why) => Some why | _ => None end.

(** The paths whose flags are set, in inventory order. *)
Definition flagged (files : list string) (done : list bool) : list string :=
  fst <$> List.filter (fun pd : string * bool => pd.2) (zip files done).

(* ===================================================================== *)
(** ** [atomic_write_text], step by step *)
(* ===================================================================== *)

(** The calls that [atomic_write_text] makes, in the order of the source:
    [open(tmp, "w")], [f.write], [f.flush], [os.fsync], the [close] at the
    end of the [with] block, and [os.replace]. *)
Inductive syscall :=
  | SysOpen
  | SysWrite
  | SysFlush
  | SysFsync
  | SysClose
  | SysReplace.

(** What the operating system does for each call: [result_of] tells whether
    it returns or raises; [moved_by] tells how many characters of the
    buffered text [write] moves to the file whatever its result, and how
    many [flush] and [close] move before they raise (when they return, all
    of it is moved). *)
Record disk_services := {
  getpid : Z;
  result_of : syscall -> outcome unit;
  moved_by : syscall -> nat;
}.

(** The text under each path and, for the file that is open, the text
    that [write] has taken and that has not reached the file yet. *)
Record filesystem := {
  on_disk : gmap string string;
  buffered : string;
}.

Definition fs_prog (A : Type) : Type := filesystem -> result A * filesystem.

Definition fs_bind : MBind fs_prog := fun A B f c fs =>
  match c fs with
  | (Ok a, fs') => f a fs'
  | (Raise e, fs') => (Raise e, fs')
  end.
Global Existing Instance fs_bind.

(** [f"{path}.tmp.{os.getpid()}"] *)
Definition tmp_name (path : string) (pid : Z) : string :=
  path +:+ ".tmp." +:+ str_of_int pid.

(** [s[n:]] for [n >= 0] *)
Fixpoint from_index (n : nat) (s : string) : string :=
  match n, s with
  | S k, String _ r => from_index k r
  | _, _ => s
  end.

(** The first [n] characters of the buffered text go to the end of the
    file under [p]. *)
Definition move (n : nat) (p : string) (fs : filesystem) : filesystem :=
  {| on_disk := <[p := default EmptyString (on_disk fs !! p) +:+ prefix n (buffered fs)]>
                  (on_disk fs);
     buffered := from_index n (buffered fs) |}.

(** [open(p, "w", ...)]: the file is created or emptied, unless the call
    raises. *)
Definition sys_open (os : disk_services) (p : string) : fs_prog unit := fun fs =>
  match result_of os SysOpen with
  | Raises n => (Raise (Exception n), fs)
  | Returns _ => (Ok tt, {| on_disk := <[p := EmptyString]> (on_disk fs);
                             buffered := EmptyString |})
  end.

(** [f.write(data)]: the text joins the buffer, and some of the buffer may
    go to the file. *)
Definition sys_write (os : disk_services) (p data : string) : fs_prog unit := fun fs =>
  (call (result_of os SysWrite),
   move (moved_by os SysWrite) p
     {| on_disk := on_disk fs; buffered := buffered fs +:+ data |}).

(** [f.flush()]: the whole buffer goes to the file, or a part of it when
    the call raises. *)
Definition sys_flush (os : disk_services) (p : string) : fs_prog unit := fun fs =>
  match result_of os SysFlush with
  | Raises n => (Raise (Exception n), move (moved_by os SysFlush) p fs)
  | Returns _ => (Ok tt, move (String.length (buffered fs)) p fs)
  end.

(** [os.fsync(f.fileno())] changes no text. *)
Definition sys_fsync (os : disk_services) : fs_prog unit := fun fs =>
  (call (result_of os SysFsync), fs).

(** [f.close()] flushes what is left. *)
Definition sys_close (os : disk_services) (p : string) : fs_prog unit := fun fs =>
  match result_of os SysClose with
  | Raises n => (Raise (Exception n), move (moved_by os SysClose) p fs)
  | Returns _ => (Ok tt, move (String.length (buffered fs)) p fs)
  end.

(** [os.replace(src, dst)]: one rename, or nothing. *)
Definition sys_replace (os : disk_services) (src dst : string) : fs_prog unit := fun fs =>
  match on_disk fs !! src with
  | None => (Raise (Exception "FileNotFoundError"), fs)
  | Some text =>
      match result_of os SysReplace with
      | Raises n => (Raise (Exception n), fs)
      | Returns _ => (Ok tt, {| on_disk := <[dst := text]> (delete src (on_disk fs));
                                 buffered := buffered fs |})
      end
  end.

(** [with open(...) as f: body]: the file is closed however the block
    ends; if [close] raises, that exception is the one passed on. *)
Definition with_open (opening body closing : fs_prog unit) : fs_prog unit := fun fs =>
  match opening fs with
  | (Raise e, fs1) => (Raise e, fs1)
  | (Ok _, fs1) =>
      match body fs1 with
      | (Ok _, fs2) => closing fs2
      | (Raise e, fs2) =>
          match closing fs2 with
          | (Ok _, fs3) => (Raise e, fs3)
          | (Raise e', fs3) => (Raise e', fs3)
          end
      end
  end.

Definition atomic_write_text (os : disk_services) (path data : string) : fs_prog unit :=
  let tmp := tmp_name path (getpid os) in
  with_open (sys_open os tmp)
    (sys_write os tmp data;; sys_flush os tmp;; sys_fsync os)
    (sys_close os tmp);;
  sys_replace os tmp path.

(** [atomic_write_json] with [json.dumps] as [dumps] *)
Definition atomic_write_json {A} (dumps : A -> string) (os : disk_services)
    (path : string) (obj : A) : fs_prog unit :=
  atomic_write_text os path (dumps obj).

(** A disk on which every call returns, and one that is full once [write]
    has moved three characters to the file. *)
Definition sound_disk : disk_services :=
  {| getpid := 4711; result_of := fun _ => Returns tt; moved_by := fun _ => 3%nat |}.

Definition full_disk : disk_services :=
  {| getpid := 4711;
     result_of := fun s => match s with
                           | SysFlush | SysClose => Raises "OSError"
                           | _ => Returns tt
                           end;
     moved_by := fun s => match s with SysWrite => 3%nat | _ => 0%nat end |}.

(* ===================================================================== *)
(** ** The text of the screen *)
(* ===================================================================== *)






(* ===================================================================== *)
(** ** [main] *)
(* ===================================================================== *)

(** What [main] prints when the scan finds nothing; [repr_paths] is
    Python's [repr] of a list of strings.  The value is the exit status. *)
Definition no_files_report (repr_paths : list string -> string)
    (scan_dirs_abs : list string) : prog Z :=
  print (color "No files found to scan.");;
  print (color "Check:" +:+ " "
         +:+ "are the paths correct? is the extension in ALLOWED_EXTS?");;
  print (color "Scan roots:" +:+ " " +:+ repr_paths scan_dirs_abs);;
  mret 1.

(** [main], with the loop run for at most [fuel] passes: the exit status
    or the exception that leaves [main], the machine and what [bundle.txt]
    holds; [None] when the loop is still running after [fuel] passes. *)
Definition main (fuel : nat) (os : services) (fs : scan_services)
    (repr_paths : list string -> string) (argv : list string)
    (m : machine) (bundle : option string)
  : option (result Z * machine * option string) :=
  match choose_mode_and_dirs argv m with
  | (Raise e, m1) => Some (Raise e, m1, bundle)
  | (Ok (mode, scan_dirs_raw), m1) =>
      let scan_dirs_abs := normalize_base_dirs fs scan_dirs_raw in
      let rel_root := compute_rel_root fs scan_dirs_abs in
      let files := generate_files fs scan_dirs_abs in
      match files with
      | [] =>
          let '(r, m2) := no_files_report repr_paths scan_dirs_abs m1 in
          Some (r, m2, bundle)
      | _ :: _ =>
          if String.eqb mode MODE_AUTO
          then Some (auto_mode os files rel_root m1 bundle)
          else
            match interactive_start mode files scan_dirs_abs rel_root m1 with
            | (Raise e, m2) => Some (Raise e, m2, bundle)
            | (Ok _, m2) =>
                match passes os files scan_dirs_abs rel_root fuel m2 with
                | Running _ => None
                | Crashed e m3 => Some (Raise e, m3, bundle)
                | Finishing m3 => Some (finish os files rel_root m3 bundle)
                end
            end
      end
  end.

(* ---- notions for the statements ---- *)

(** The inventory that [main] scans for the paths it was given. *)
Definition inventory_of (fs : scan_services) (scan_dirs_raw : list string) : list string :=
  generate_files fs (normalize_base_dirs fs scan_dirs_raw).

Definition root_of (fs : scan_services) (scan_dirs_raw : list string) : string :=
  compute_rel_root fs (normalize_base_dirs fs scan_dirs_raw).

(** A scan that finds nothing. *)
Definition empty_scan : scan_services :=
  {| getcwd := "/home";
     abspath := fun p => p;
     lookup_path := fun _ => None;
     commonpath := fun _ => Raises "ValueError";
     relpath := fun p _ => p |}.

(* ===================================================================== *)
(** ** Theorems *)
(* ===================================================================== *)

(** *** Manual capture *)

(** Unfolding the two monads. *)
Ltac run :=
  repeat (progress (unfold mbind, mret, prog_bind, prog_ret, result_bind, result_ret,
                    print, emit, lift, raise, get_vars, set_vars, get_checkpoint;
                    simpl)).

Lemma capture_loop_spec path step pre : forall lines count post out,
  Forall (fun l => l <> EmptyString /\ strip l <> SECTION_END_MARKER) pre ->
  (post = [] \/ exists t rest, post = Keys t :: rest /\
                 (t = EmptyString \/ strip t = SECTION_END_MARKER)) ->
  exists out',
    capture_loop path step lines count ((Keys <$> pre) ++ post) out
    = (Ok (lines ++ pre), tail post, out').
Proof.
  induction pre as [|l pre IH]; intros lines count post out Hpre Hpost.
  - rewrite app_nil_r. simpl.
    destruct Hpost as [-> | (t & rest & -> & Ht)]; simpl; [eauto|].
    destruct (String.eqb t EmptyString) eqn:E; [eauto|].
    destruct Ht as [-> | Ht]; [discriminate|].
    rewrite Ht. simpl. eauto.
  - apply Forall_cons in Hpre as [[Hne Hmk] Hpre]. simpl.
    apply String.eqb_neq in Hne, Hmk. rewrite Hne, Hmk.
    replace (lines ++ l :: pre) with ((lines ++ [l]) ++ pre)
      by (by rewrite <- app_assoc).
    apply IH; auto.
Qed.

Lemma str_app_cons x (a b : string) : String x a +:+ b = String x (a +:+ b).
Proof. reflexivity. Qed.

Lemma str_app_nil_l (b : string) : EmptyString +:+ b = b.
Proof. reflexivity. Qed.

Lemma str_app_assoc (a b c : string) : (a +:+ b) +:+ c = a +:+ (b +:+ c).
Proof. induction a as [|x a IH]; [done|]. by rewrite !str_app_cons, IH. Qed.

Lemma str_app_nil_r (a : string) : a +:+ EmptyString = a.
Proof. induction a as [|x a IH]; [done|]. by rewrite str_app_cons, IH. Qed.

Lemma join_app a b : join (a ++ b) = join a +:+ join b.
Proof.
  induction a as [|x a IH]; simpl; [done|].
  by rewrite IH, <- str_app_assoc.
Qed.

Lemma capture_section_split path index total m pre post :
  stdin m = (Keys <$> pre) ++ post ->
  Forall (fun l => l <> EmptyString /\ strip l <> SECTION_END_MARKER) pre ->
  (post = [] \/ exists t rest, post = Keys t :: rest /\
                 (t = EmptyString \/ strip t = SECTION_END_MARKER)) ->
  exists out,
    capture_section path index total m
    = (Ok (join pre),
       {| vars := vars m; stdin := tail post; checkpoint := checkpoint m; stdout := out |}).
Proof.
  intros Hin Hpre Hpost. unfold capture_section, capture_lines. run.
  rewrite Hin.
  edestruct (capture_loop_spec path 50 pre [] 0 post) as [out' ->]; eauto.
Qed.

(** Every sequence of lines splits at its first terminator, if it has one. *)
Lemma lines_split (ls : list string) :
  exists pre post,
    ls = pre ++ post /\
    Forall (fun l => l <> EmptyString /\ strip l <> SECTION_END_MARKER) pre /\
    (post = [] \/ exists t rest, post = t :: rest /\
                   (t = EmptyString \/ strip t = SECTION_END_MARKER)).
Proof.
  induction ls as [|l ls (pre & post & -> & Hpre & Hpost)].
  - exists [], []. split; [done|]. split; [apply Forall_nil_2|by left].
  - destruct (decide (l = EmptyString)) as [He|He].
    { exists [], (l :: pre ++ post). split; [done|]. split; [apply Forall_nil_2|].
      right. exists l, (pre ++ post). by split; [|left]. }
    destruct (decide (strip l = SECTION_END_MARKER)) as [Hm|Hm].
    { exists [], (l :: pre ++ post). split; [done|]. split; [apply Forall_nil_2|].
      right. exists l, (pre ++ post). by split; [|right]. }
    exists (l :: pre), post. split; [done|]. split; [|done].
    apply Forall_cons. by split.
Qed.

(** Claim C9 (manual capture).  On every console that delivers the lines
    [ls], [capture_section] returns normally.  Split [ls] at its first
    terminator, a line that trims to [SECTION_END_MARKER] or the empty
    end-of-file indication: [pre] are the lines before it and [post] starts
    with it, or is empty when [ls] has no terminator (the stream runs out).
    The result is the concatenation of the lines of [pre] exactly as read,
    with their terminators; the terminator is consumed and is not part of
    the result, and the lines after it stay on the console. *)
Theorem capture_section_spec path index total m ls :
  stdin m = Keys <$> ls ->
  exists pre post out,
    ls = pre ++ post /\
    Forall (fun l => l <> EmptyString /\ strip l <> SECTION_END_MARKER) pre /\
    (post = [] \/ exists t rest, post = t :: rest /\
                   (t = EmptyString \/ strip t = SECTION_END_MARKER)) /\
    capture_section path index total m
    = (Ok (join pre),
       {| vars := vars m; stdin := Keys <$> tail post; checkpoint := checkpoint m;
          stdout := out |}).
Proof.
  intros Hin. destruct (lines_split ls) as (pre & post & -> & Hpre & Hpost).
  destruct (capture_section_split path index total m pre (Keys <$> post)) as [out Hout].
  - by rewrite Hin, fmap_app.
  - exact Hpre.
  - destruct Hpost as [-> | (t & rest & -> & Ht)]; [by left|].
    right. by exists t, (Keys <$> rest).
  - exists pre, post, out. split; [done|]. split; [done|]. split; [done|].
    rewrite Hout. by destruct post.
Qed.

(** *** Selection of the next pending entry *)

Lemma range_nil a b : b <= a -> range a b = [].
Proof. intros H. unfold range. by replace (Z.to_nat (b - a)) with 0%nat by lia. Qed.

Lemma range_cons a b : a < b -> range a b = a :: range (a + 1) b.
Proof.
  intros H. unfold range.
  replace (Z.to_nat (b - a)) with (S (Z.to_nat (b - (a + 1)))) by lia.
  simpl. f_equal; [lia|].
  rewrite <- fmap_S_seq, <- list_fmap_compose.
  apply list_fmap_ext. intros _ k _. simpl. lia.
Qed.

Lemma index_lookup {A} (xs : list A) i x :
  0 <= i -> xs !! Z.to_nat i = Some x -> index xs i = Ok x.
Proof.
  intros Hi Hx. unfold index.
  apply lookup_lt_Some in Hx as Hlt.
  replace (i <? 0) with false by lia.
  replace ((0 <=? i) && (i <? Z.of_nat (length xs))) with true by lia.
  by rewrite Hx.
Qed.

Lemma index_in_range {A} (xs : list A) i :
  0 <= i < Z.of_nat (length xs) -> exists x, xs !! Z.to_nat i = Some x /\ index xs i = Ok x.
Proof.
  intros Hi. destruct (lookup_lt_is_Some_2 xs (Z.to_nat i)) as [x Hx]; [lia|].
  exists x. split; [done|]. apply index_lookup; [lia|done].
Qed.

(** One scanning loop over [range a b] inside the list: it returns the first
    pending index of the range, if there is one. *)
Lemma first_undone_range (done : list bool) (n : nat) : forall a b,
  Z.to_nat (b - a) = n -> 0 <= a -> b <= Z.of_nat (length done) ->
  (exists i, first_undone done (range a b) = Ok (Some i) /\ a <= i < b /\
             done !! Z.to_nat i = Some false /\
             forall j, a <= j < i -> done !! Z.to_nat j = Some true)
  \/ (first_undone done (range a b) = Ok None /\
      forall j, a <= j < b -> done !! Z.to_nat j = Some true).
Proof.
  induction n as [|n IH]; intros a b Hn Ha Hb.
  - right. rewrite range_nil by lia. split; [done|]. intros; lia.
  - rewrite range_cons by lia. simpl.
    destruct (index_in_range done a) as (d & Hd & ->); [lia|].
    unfold mbind, result_bind. destruct d; simpl.
    + destruct (IH (a + 1) b) as [(i & Hi & Hr & Hf & Hbefore) | [Hi Hall]]; [lia..| |].
      * left. exists i. repeat split; [done|lia|lia|done|].
        intros j Hj. destruct (decide (j = a)) as [->|]; [done|]. apply Hbefore. lia.
      * right. split; [done|]. intros j Hj.
        destruct (decide (j = a)) as [->|]; [done|]. apply Hall. lia.
    + left. exists a. repeat split; [lia|lia|done|]. intros; lia.
Qed.

Lemma first_pending_unique done start k k' :
  first_pending_at done start k -> first_pending_at done start k' -> k = k'.
Proof.
  intros (Hk & Hf & Hb) (Hk' & Hf' & Hb').
  destruct (Z.lt_trichotomy k k') as [H | [H | H]]; [|done|].
  - specialize (Hb' k). rewrite Hb' in Hf by lia. discriminate.
  - specialize (Hb k'). rewrite Hb in Hf' by lia. discriminate.
Qed.

Lemma next_undone_index_cases (done : list bool) start :
  0 <= start < Z.of_nat (length done) ->
  (exists k, first_pending_at done start k /\
     next_undone_index done start = Ok (Some ((start + k) mod Z.of_nat (length done))))
  \/ (next_undone_index done start = Ok None /\
      forall j, (j < length done)%nat -> done !! j = Some true).
Proof.
  intros Hs. set (n := Z.of_nat (length done)) in *. unfold next_undone_index.
  fold n.
  destruct (first_undone_range done _ start n eq_refl) as
    [(i & -> & Hr & Hf & Hbefore) | [-> Hall]]; [lia..| |]; simpl.
  - left. exists (i - start). split.
    + unfold first_pending_at. fold n. repeat split; [lia|lia| |].
      * replace (start + (i - start)) with i by lia. by rewrite Z.mod_small by lia.
      * intros j Hj. rewrite Z.mod_small by lia. apply Hbefore. lia.
    + replace (start + (i - start)) with i by lia. by rewrite Z.mod_small by lia.
  - destruct (first_undone_range done _ 0 start eq_refl) as
      [(i & -> & Hr & Hf & Hbefore) | [-> Hall2]]; [lia..| |].
    + left. exists (n - start + i).
      assert (Hmod : (start + (n - start + i)) mod n = i).
      { replace (start + (n - start + i)) with (i + 1 * n) by lia.
        rewrite Z.mod_add by lia. apply Z.mod_small. lia. }
      split; [|by rewrite Hmod].
      unfold first_pending_at. fold n. rewrite Hmod. repeat split; [lia|lia|done|].
      intros j Hj. destruct (decide (start + j < n)).
      * rewrite Z.mod_small by lia. apply Hall. lia.
      * replace (start + j) with ((start + j - n) + 1 * n) by lia.
        rewrite Z.mod_add by lia. rewrite Z.mod_small by lia. apply Hbefore. lia.
    + right. split; [done|]. intros j Hj.
      destruct (decide (Z.of_nat j < start)).
      * rewrite <- (Nat2Z.id j). apply Hall2. lia.
      * rewrite <- (Nat2Z.id j). apply Hall. lia.
Qed.

(** *** Reading the console *)

Lemma bind_ok {A B} (c : prog A) (f : A -> prog B) m a m' :
  c m = (Ok a, m') -> (c ≫= f) m = f a m'.
Proof. intros H. unfold mbind, prog_bind. by rewrite H. Qed.

Lemma bind_raise {A B} (c : prog A) (f : A -> prog B) m e m' :
  c m = (Raise e, m') -> (c ≫= f) m = (Raise e, m').
Proof. intros H. unfold mbind, prog_bind. by rewrite H. Qed.

Lemma input_line prompt m line rest :
  stdin m = Keys line :: rest -> line <> EmptyString ->
  input prompt m = (Ok (chomp line), consumed (wrote m [Prompt prompt]) rest).
Proof.
  intros Hin Hne. unfold input, readline. run. rewrite Hin.
  destruct line; [done|]. reflexivity.
Qed.

Lemma input_eof prompt m :
  stdin m = [] ->
  input prompt m = (Raise EOFError, wrote m [Prompt prompt]).
Proof. intros Hin. unfold input, readline, wrote. run. by rewrite !Hin. Qed.

Lemma read_cmd_line m line rest :
  stdin m = Keys line :: rest -> line <> EmptyString ->
  read_cmd m = (Ok (strip (chomp line)), consumed (wrote m [Prompt "> "]) rest).
Proof.
  intros Hin Hne. unfold read_cmd, try_except_EOFError.
  erewrite bind_ok by (by apply input_line). reflexivity.
Qed.

Lemma ask_yes_no_line prompt m line rest :
  stdin m = Keys line :: rest -> line <> EmptyString ->
  ask_yes_no prompt true m
  = (Ok (str_in (lower (strip (chomp line))) ["y"; "yes"]),
     consumed (wrote m [Prompt prompt]) rest).
Proof.
  intros Hin Hne. unfold ask_yes_no, try_except_EOFError.
  erewrite bind_ok by (by apply input_line).
  destruct (str_in (lower (strip (chomp line))) ["y"; "yes"]); [done|].
  by destruct (str_in _ ["n"; "no"]).
Qed.

Lemma ask_yes_no_eof prompt m :
  stdin m = [] ->
  ask_yes_no prompt true m = (Ok false, wrote m [Prompt prompt]).
Proof.
  intros Hin. unfold ask_yes_no, try_except_EOFError.
  erewrite bind_raise by (by apply input_eof). reflexivity.
Qed.

Lemma advance_start_range v :
  done v <> [] -> 0 <= advance_start v < Z.of_nat (length (done v)).
Proof.
  intros Hne. unfold advance_start.
  assert (0 < Z.of_nat (length (done v))) by (destruct (done v); [done|simpl; lia]).
  destruct (0 <=? cursor v); [|lia]. by apply Z.mod_pos_bound.
Qed.

Lemma resolve_command_advance files m :
  done (vars m) <> [] ->
  length (done (vars m)) = length files ->
  let v := vars m in
  let n := Z.of_nat (length (done v)) in
  (forall k, first_pending_at (done v) (advance_start v) k ->
     resolve_command files EmptyString m
     = (Ok (Some (None, (advance_start v + k) mod n)), m))
  /\ ((forall j, (j < length (done v))%nat -> done v !! j = Some true) ->
      resolve_command files EmptyString m
      = (Ok None, wrote m [Print EmptyString;
           Print "All files are done. If you're finished, press q to quit."])).
Proof.
  intros Hne Hlen v n.
  pose proof (advance_start_range v Hne) as Hstart.
  assert (Hpos : 0 < n) by (unfold n; lia).
  assert (Hn : (n =? 0) = false) by lia.
  assert (Hpre : forall r,
    next_undone_index (done v) (advance_start v) = Ok r ->
    resolve_command files EmptyString m
    = match r with
      | None => (Ok None, wrote m [Print EmptyString;
           Print "All files are done. If you're finished, press q to quit."])
      | Some i => if (i <? 0) || (Z.of_nat (length files) <=? i)
                  then (Ok None, wrote m [Print EmptyString; Print "Index out of range."])
                  else (Ok (Some (None, i)), m)
      end).
  { intros r Hr. unfold resolve_command. run. fold v. fold n.
    unfold advance_start in Hr. fold n in Hr.
    destruct (0 <=? cursor v); run.
    - rewrite Hn. run. rewrite Hr. destruct r as [i|]; run.
      + destruct ((i <? 0) || (Z.of_nat (length files) <=? i)); run; [|by destruct m].
        unfold wrote. by rewrite <- app_assoc.
      + unfold wrote. by rewrite <- app_assoc.
    - rewrite Hr. destruct r as [i|]; run.
      + destruct ((i <? 0) || (Z.of_nat (length files) <=? i)); run; [|by destruct m].
        unfold wrote. by rewrite <- app_assoc.
      + unfold wrote. by rewrite <- app_assoc. }
  destruct (next_undone_index_cases (done v) (advance_start v) Hstart)
    as [(k0 & Hk0 & Hr) | [Hr Hall]].
  - split.
    + intros k Hk. rewrite (first_pending_unique _ _ _ _ Hk Hk0).
      rewrite (Hpre _ Hr). fold n.
      assert (0 <= (advance_start v + k0) mod n < n) by (apply Z.mod_pos_bound; lia).
      replace (Z.of_nat (length files)) with n by (unfold n, v; lia).
      set (x := (advance_start v + k0) mod n) in *.
      by replace ((x <? 0) || (n <=? x)) with false by lia.
    + intros Hall. destruct Hk0 as (Hk & Hf & _). fold n in Hf.
      assert (0 <= (advance_start v + k0) mod n < n) by (apply Z.mod_pos_bound; lia).
      set (x := (advance_start v + k0) mod n) in *.
      rewrite Hall in Hf; [discriminate|]. unfold n in *. lia.
  - split.
    + intros k (Hk & Hf & _). fold n in Hf, Hk.
      assert (0 <= (advance_start v + k) mod n < n) by (apply Z.mod_pos_bound; lia).
      set (x := (advance_start v + k) mod n) in *.
      rewrite Hall in Hf; [discriminate|]. unfold n in *. lia.
    + intros _. by rewrite (Hpre _ Hr).
Qed.

Lemma iteration_read os files dirs root m line rest :
  stdin m = Keys line :: rest -> line <> EmptyString ->
  iteration os files dirs root m
  = (let cmd := strip (chomp line) in
     let v := vars m in
     if String.eqb (lower cmd) "q" then
       match remaining files (done v) with
       | [] => mret Break
       | ps =>
           print EmptyString;;
           print (color "You still have files with no content:");;
           print_items ps;;
           ok ← ask_yes_no (color "Quit anyway? (y/N) > ") true;
           if (ok : bool) then mret Break
           else print (color "Aborted. Keep going.");; mret Continue
       end
     else if String.eqb (lower cmd) "r" then
       set_show_remaining_only (negb (show_remaining_only v));;
       save_state os files dirs root;;
       mret Continue
     else if String.eqb (lower cmd) "m" then
       set_mode (cycle_mode (mode v));;
       save_state os files dirs root;;
       mret Continue
     else if String.eqb (lower cmd) "a" then
       set_next_action_override (Some "a");; mret Continue
     else if String.eqb (lower cmd) "p" then
       set_next_action_override (Some "p");; mret Continue
     else
       resolve_command files cmd ≫= on_entry os files dirs root) (prompted m rest).
Proof.
  intros Hin Hne. unfold iteration.
  assert (Hrc : read_cmd (wrote m [Screen]) = (Ok (strip (chomp line)), prompted m rest)).
  { erewrite read_cmd_line; [|exact Hin|done].
    unfold consumed, wrote, prompted. simpl. by rewrite <- app_assoc. }
  unfold print_screen. unfold mbind at 1. unfold prog_bind at 1.
  change (emit Screen m) with (Ok tt, wrote m [Screen]). cbv beta iota.
  erewrite bind_ok by exact Hrc.
  reflexivity.
Qed.

Lemma confirm_overwrite_pending path idx m :
  0 <= idx -> done (vars m) !! Z.to_nat idx = Some false ->
  confirm_overwrite path idx m = (Ok true, m).
Proof.
  intros Hi Hd. unfold confirm_overwrite. run.
  rewrite (index_lookup _ _ _ Hi Hd). reflexivity.
Qed.

(** Claim C6 (advance).  On empty input, with a non-empty inventory and as
    many flags as files, scanning starts at [(cursor + 1) mod n], or at [0]
    when the cursor is negative (unset).  If the first pending flag in
    circular order from there is [k] steps on, the pass goes on to acquire
    entry [(start + k) mod n] with no action forced; if no flag is pending,
    the pass ends with [continue], having printed the completion message and
    changed neither the variables nor the checkpoint. *)
Theorem advance_selects_next_pending os files scan_dirs_abs rel_root m line rest :
  stdin m = Keys line :: rest -> line <> EmptyString ->
  strip (chomp line) = EmptyString ->
  files <> [] -> length (done (vars m)) = length files ->
  let v := vars m in
  let n := Z.of_nat (length (done v)) in
  let start := if 0 <=? cursor v then (cursor v + 1) mod n else 0 in
  (forall k, first_pending_at (done v) start k ->
     exists path, files !! Z.to_nat ((start + k) mod n) = Some path /\
       iteration os files scan_dirs_abs rel_root m
       = acquire os files scan_dirs_abs rel_root None ((start + k) mod n) path
           (prompted m rest))
  /\ ((forall j, (j < length (done v))%nat -> done v !! j = Some true) ->
      iteration os files scan_dirs_abs rel_root m
      = (Ok Continue,
         {| vars := v; stdin := rest; checkpoint := checkpoint m;
            stdout := stdout m ++ [Screen; Prompt "> "; Print EmptyString;
              Print "All files are done. If you're finished, press q to quit."] |})).
Proof.
  intros Hin Hne Hcmd Hfiles Hlen v n start.
  assert (Hd : done (vars (prompted m rest)) <> []).
  { simpl. intros E. rewrite E in Hlen. by destruct files. }
  destruct (resolve_command_advance files (prompted m rest) Hd Hlen) as [Hsel Hnone].
  rewrite (iteration_read _ _ _ _ _ _ _ Hin Hne). rewrite Hcmd.
  cbv zeta. change (lower EmptyString) with EmptyString. cbv iota beta.
  change (String.eqb "" "q") with false. change (String.eqb "" "r") with false.
  change (String.eqb "" "m") with false. change (String.eqb "" "a") with false.
  change (String.eqb "" "p") with false. cbv iota.
  split.
  - intros k Hk. specialize (Hsel k Hk). simpl in Hsel. fold v n in Hsel.
    change (advance_start v) with start in Hsel.
    assert (Hr : 0 <= (start + k) mod n < n).
    { apply Z.mod_pos_bound. unfold n. simpl in Hd. fold v in Hd.
      destruct (done v); [done|simpl; lia]. }
    destruct (index_in_range files ((start + k) mod n)) as (path & Hp & Hidx);
      [rewrite <- Hlen; exact Hr|].
    exists path. split; [done|].
    erewrite bind_ok by exact Hsel. unfold on_entry.
    unfold lift. unfold mbind at 1. unfold prog_bind at 1. rewrite Hidx. cbv iota beta.
    rewrite (bind_ok _ _ _ true (prompted m rest)); [reflexivity|].
    apply confirm_overwrite_pending; [lia|]. by destruct Hk as (_ & Hf & _).
  - intros Hall. specialize (Hnone Hall).
    erewrite bind_ok by exact Hnone. unfold on_entry, wrote, prompted. simpl.
    by rewrite <- app_assoc.
Qed.

(** *** Direct read *)

Lemma should_skip_total os abs_fp :
  exists skip why, _should_skip_autoread os abs_fp = Ok (skip, why)
                   /\ (skip = true -> why <> EmptyString).
Proof.
  unfold _should_skip_autoread.
  destruct (str_in _ AUTO_SKIP_NAMES); [by eexists _, _|].
  destruct (str_in _ AUTO_SKIP_EXTS); [by eexists _, _|].
  destruct (getsize os abs_fp) as [sz|n]; simpl.
  - destruct (AUTO_MAX_BYTES <? sz); simpl; by eexists _, _.
  - by eexists _, _.
Qed.

Lemma should_skip_pass os abs_fp :
  str_in (PosixPath.basename abs_fp) AUTO_SKIP_NAMES = false ->
  str_in (skip_ext_of (PosixPath.basename abs_fp)) AUTO_SKIP_EXTS = false ->
  ((exists sz, getsize os abs_fp = Returns sz /\ sz <= AUTO_MAX_BYTES)
   \/ exists n, getsize os abs_fp = Raises n) ->
  _should_skip_autoread os abs_fp = Ok (false, EmptyString).
Proof.
  intros Hn He Hs. unfold _should_skip_autoread. unfold skip_ext_of in He.
  rewrite Hn, He. destruct Hs as [(sz & -> & Hsz) | (n & ->)]; simpl; [|done].
  by replace (AUTO_MAX_BYTES <? sz) with false by lia.
Qed.

Lemma decode_first_total os data encs :
  exists content why, decode_first os data encs = Ok (content, why) /\ why <> EmptyString.
Proof.
  induction encs as [|enc encs IH]; simpl; [by eexists _, _|].
  destruct (decode os enc data); simpl; [by eexists _, _|done].
Qed.

Lemma decode_first_hit os data before enc after text :
  Forall (fun e => exists n, decode os e data = Raises n) before ->
  decode os enc data = Returns text ->
  decode_first os data (before ++ enc :: after) = Ok (Some text, "ok(" +:+ enc +:+ ")").
Proof.
  intros Hb He. induction Hb as [|e before [n Hn] _ IH]; simpl.
  - by rewrite He.
  - by rewrite Hn.
Qed.

Lemma decode_first_miss os data encs :
  Forall (fun e => exists n, decode os e data = Raises n) encs ->
  decode_first os data encs = Ok (None, "decode-failed").
Proof.
  intros Hb. induction Hb as [|e encs [n Hn] _ IH]; simpl; [done|]. by rewrite Hn.
Qed.

Lemma auto_read_passed os rel_root rel_posix_path :
  let abs_fp := PosixPath.join rel_root (_from_posix rel_posix_path) in
  passes_checks os abs_fp ->
  auto_read_file os rel_root rel_posix_path
  = match read_binary os abs_fp with
    | Raises n => Ok (None, "read-failed(" +:+ n +:+ ")")
    | Returns data =>
        if has_null data then Ok (None, "binary-detected(NULL)")
        else decode_first os data AUTO_ENCODINGS
    end.
Proof.
  intros abs_fp (Hex & Hn & He & Hs). unfold auto_read_file. fold abs_fp.
  rewrite Hex. simpl. rewrite (should_skip_pass _ _ Hn He Hs). simpl.
  by destruct (read_binary os abs_fp).
Qed.

Lemma auto_read_file_total os rel_root rel_posix_path :
  exists content why,
    auto_read_file os rel_root rel_posix_path = Ok (content, why) /\ why <> EmptyString.
Proof.
  unfold auto_read_file. generalize AUTO_ENCODINGS as encs. intros encs.
  destruct (path_exists os _); simpl; [|by eexists _, _].
  destruct (should_skip_total os (PosixPath.join rel_root (_from_posix rel_posix_path)))
    as (skip & why & -> & Hwhy). simpl.
  destruct skip; [eexists _, _; split; [done|by apply Hwhy]|].
  destruct (read_binary os _) as [data|n]; simpl; [|by eexists _, _].
  destruct (has_null data); [by eexists _, _|].
  apply decode_first_total.
Qed.

(** Claim C5 (direct read: order of the checks and reasons).  A missing
    file gives ["not-found"]; then an excluded name gives ["skip-name(..)"];
    then an excluded extension gives ["skip-ext(..)"]; then a size over the
    ceiling gives ["too-large(..)"]; a file that passes these checks is read,
    a null byte gives ["binary-detected(NULL)"], otherwise the first encoding
    of [AUTO_ENCODINGS] that decodes gives the content, and if none does the
    reason is ["decode-failed"].  Whatever is returned carries a non-empty
    reason, and the reasons of the different kinds of failure are pairwise
    distinct. *)
Theorem direct_read_check_order os rel_root rel_posix_path :
  let abs_fp := PosixPath.join rel_root (_from_posix rel_posix_path) in
  let name := PosixPath.basename abs_fp in
  let ext := skip_ext_of name in
  let result := auto_read_file os rel_root rel_posix_path in
  (path_exists os abs_fp = false -> result = Ok (None, "not-found"))
  /\ (path_exists os abs_fp = true -> str_in name AUTO_SKIP_NAMES = true ->
      result = Ok (None, "skip-name(" +:+ name +:+ ")"))
  /\ (path_exists os abs_fp = true -> str_in name AUTO_SKIP_NAMES = false ->
      str_in ext AUTO_SKIP_EXTS = true ->
      result = Ok (None, "skip-ext(." +:+ ext +:+ ")"))
  /\ (forall sz, path_exists os abs_fp = true -> str_in name AUTO_SKIP_NAMES = false ->
      str_in ext AUTO_SKIP_EXTS = false ->
      getsize os abs_fp = Returns sz -> AUTO_MAX_BYTES < sz ->
      result = Ok (None, "too-large(" +:+ str_of_int sz +:+ " bytes)"))
  /\ (forall data, passes_checks os abs_fp -> read_binary os abs_fp = Returns data ->
      Byte.x00 ∈ data ->
      result = Ok (None, "binary-detected(NULL)"))
  /\ (forall data before enc after text, passes_checks os abs_fp ->
      read_binary os abs_fp = Returns data -> Byte.x00 ∉ data ->
      AUTO_ENCODINGS = before ++ enc :: after ->
      Forall (fun e => exists n, decode os e data = Raises n) before ->
      decode os enc data = Returns text ->
      result = Ok (Some text, "ok(" +:+ enc +:+ ")"))
  /\ (forall data, passes_checks os abs_fp -> read_binary os abs_fp = Returns data ->
      Byte.x00 ∉ data ->
      Forall (fun e => exists n, decode os e data = Raises n) AUTO_ENCODINGS ->
      result = Ok (None, "decode-failed"))
  /\ (forall content why, result = Ok (content, why) -> why <> EmptyString)
  /\ (forall name ext sz exn_name, NoDup (failure_reasons name ext sz exn_name)).
Proof.
  intros abs_fp name ext result.
  assert (Hnull : forall data, has_null data = true <-> Byte.x00 ∈ data).
  { intros data. unfold has_null. rewrite existsb_exists. split.
    - intros (b & Hin & Hb). apply Byte.byte_dec_bl in Hb. subst.
      by apply list_elem_of_In.
    - intros Hin. exists Byte.x00. split; [by apply list_elem_of_In|done]. }
  repeat split.
  - intros Hex. unfold result, auto_read_file. fold abs_fp. by rewrite Hex.
  - intros Hex Hn. unfold result, auto_read_file, _should_skip_autoread.
    fold abs_fp. fold name. by rewrite Hex, Hn.
  - intros Hex Hn He. unfold result, auto_read_file, _should_skip_autoread.
    fold abs_fp. fold name. unfold ext, skip_ext_of in He. rewrite Hex, Hn, He. done.
  - intros sz Hex Hn He Hsz Hbig. unfold result, auto_read_file, _should_skip_autoread.
    fold abs_fp. fold name. unfold ext, skip_ext_of in He. rewrite Hex, Hn, He, Hsz. simpl.
    by replace (AUTO_MAX_BYTES <? sz) with true by lia.
  - intros data Hp Hr Hz. unfold result. rewrite (auto_read_passed _ _ _ Hp). fold abs_fp.
    rewrite Hr. apply Hnull in Hz. by rewrite Hz.
  - intros data before enc after text Hp Hr Hz Hencs Hb He. unfold result.
    rewrite (auto_read_passed _ _ _ Hp). fold abs_fp. rewrite Hr.
    destruct (has_null data) eqn:E; [by apply Hnull in E|].
    rewrite Hencs. by apply decode_first_hit.
  - intros data Hp Hr Hz Hb. unfold result.
    rewrite (auto_read_passed _ _ _ Hp). fold abs_fp. rewrite Hr.
    destruct (has_null data) eqn:E; [by apply Hnull in E|].
    by apply decode_first_miss.
  - intros content why Hres.
    destruct (auto_read_file_total os rel_root rel_posix_path) as (c & w & Hcw & Hw).
    unfold result in Hres. rewrite Hcw in Hres. by injection Hres as <- <-.
  - intros n e sz x. unfold failure_reasons.
    repeat (apply NoDup_cons; split; [rewrite ?elem_of_cons, elem_of_nil; lazy; intuition discriminate|]).
    apply NoDup_nil_2.
Qed.

(** *** Bundle assembly *)

Lemma item_le_total : Total item_le.
Proof.
  intros [p1 w1] [p2 w2]. unfold item_le, item_leb. simpl.
  rewrite (String.compare_antisym p2 p1).
  destruct (String.compare p1 p2) eqn:E; simpl; auto.
  destruct (String.leb_total w1 w2) as [-> | ->]; auto.
Qed.

Lemma item_le_fst a b : item_le a b -> String.le a.1 b.1.
Proof.
  unfold item_le, item_leb, String.le, String.leb.
  by destruct (String.compare a.1 b.1).
Qed.

Lemma sorted_items_sorted skipped : Sorted String.le (sorted_items skipped).*1.
Proof.
  unfold sorted_items. apply (Sorted_fmap _ item_le); [apply item_le_fst|].
  apply (@Sorted_merge_sort _ item_le _ item_le_total).
Qed.

Lemma sorted_items_perm skipped : sorted_items skipped ≡ₚ map_to_list skipped.
Proof. apply merge_sort_Permutation. Qed.

Lemma sorted_items_nil skipped : sorted_items skipped = [] <-> skipped = ∅.
Proof.
  rewrite <- map_to_list_empty_iff. split; intros H.
  - apply Permutation_nil_r. by rewrite <- H, sorted_items_perm.
  - apply Permutation_nil_r. by rewrite sorted_items_perm, H.
Qed.

Lemma join_concat (ls : list (list string)) : join (concat ls) = join (join <$> ls).
Proof.
  induction ls as [|l ls IH]; simpl; [done|]. by rewrite join_app, IH.
Qed.

Lemma join_cons x l : join (x :: l) = x +:+ join l.
Proof. reflexivity. Qed.

Lemma acquired_cons contents p files :
  acquired contents (p :: files)
  = match contents !! p with
    | Some body => (p, body) :: acquired contents files
    | None => acquired contents files
    end.
Proof. unfold acquired. simpl. by destruct (contents !! p). Qed.

Lemma file_parts_group contents p body :
  contents !! p = Some body -> join (file_parts contents p) = group_text (p, body).
Proof.
  intros H. unfold file_parts, group_text, emitted_body, SECTION_GAP. rewrite H.
  cbn [fst snd].
  destruct (truthy_str body && negb (endswith body nl));
    rewrite !join_app, !join_cons; cbn [join app];
    rewrite ?str_app_assoc, ?str_app_nil_r, ?str_app_nil_l; reflexivity.
Qed.

Lemma file_parts_join contents files :
  join (join <$> (file_parts contents <$> files)) = join (group_text <$> acquired contents files).
Proof.
  induction files as [|p files IH]; [done|].
  rewrite !fmap_cons, join_cons, IH, acquired_cons.
  destruct (contents !! p) as [body|] eqn:E.
  - by rewrite fmap_cons, join_cons, (file_parts_group _ _ _ E).
  - unfold file_parts. by rewrite E.
Qed.

Lemma acquired_paths contents files :
  (acquired contents files).*1 = List.filter (fun p => bool_decide (is_Some (contents !! p))) files.
Proof.
  induction files as [|p files IH]; [done|].
  rewrite acquired_cons. cbn [List.filter].
  destruct (contents !! p) as [body|] eqn:E.
  - rewrite bool_decide_true by eauto. rewrite fmap_cons. by rewrite IH.
  - rewrite bool_decide_false by (by intros [? ?]). exact IH.
Qed.

Lemma endswith_refl s : endswith s s = true.
Proof. destruct s; simpl; [done|]. by rewrite Ascii.eqb_refl, String.eqb_refl. Qed.

Lemma endswith_app a b : endswith (a +:+ b) b = true.
Proof.
  induction a as [|c a IH]; [apply endswith_refl|].
  rewrite str_app_cons. cbn [endswith].
  destruct (String.eqb (String c (a +:+ b)) b); [done|exact IH].
Qed.

Lemma emitted_body_terminated body :
  body <> EmptyString -> endswith (emitted_body body) nl = true.
Proof.
  intros Hne. unfold emitted_body.
  destruct body as [|c r]; [done|]. cbn [truthy_str andb].
  destruct (endswith (String c r) nl) eqn:E; cbn [negb]; [done|].
  apply endswith_app.
Qed.

Lemma build_bundle_text_eq now rel_root files contents skipped :
  build_bundle_text now rel_root files contents skipped
  = bundle_head now rel_root (sorted_items skipped)
    +:+ join (group_text <$> acquired contents files).
Proof.
  unfold build_bundle_text, bundle_head.
  rewrite join_app, join_concat, file_parts_join.
  f_equal.
  destruct (bool_decide (skipped = ∅)) eqn:E.
  - apply bool_decide_eq_true in E. apply sorted_items_nil in E as ->.
    rewrite !join_app, !join_cons. cbn [join].
    rewrite ?str_app_assoc, ?str_app_nil_r, ?str_app_nil_l. reflexivity.
  - apply bool_decide_eq_false in E.
    destruct (sorted_items skipped) as [|it its] eqn:Es.
    { by apply sorted_items_nil in Es. }
    rewrite !join_app, !join_cons. cbn [join].
    rewrite ?str_app_assoc, ?str_app_nil_r, ?str_app_nil_l. reflexivity.
Qed.

(** Claim C4, as amended (bundle assembly).  The document is the head
    followed by one group per path of the inventory that has content, in
    inventory order, paths without content being left out; a group is the
    begin marker line, the emitted content, the end marker line and a blank
    line.  The emitted content of a non-empty body ends with a newline (the
    body itself if it ends with one, else the body and a newline); an empty
    body is emitted as nothing.  The skip items are the entries of [skipped]
    sorted by path. *)
Theorem bundle_groups_in_inventory_order now rel_root files contents skipped :
  build_bundle_text now rel_root files contents skipped
  = bundle_head now rel_root (sorted_items skipped)
    +:+ join (group_text <$> acquired contents files)
  /\ (acquired contents files).*1
     = List.filter (fun p => bool_decide (is_Some (contents !! p))) files
  /\ (forall p body, (p, body) ∈ acquired contents files -> contents !! p = Some body)
  /\ (forall body, body <> EmptyString -> endswith (emitted_body body) nl = true)
  /\ (forall body, endswith body nl = true -> emitted_body body = body)
  /\ (forall body, body <> EmptyString -> endswith body nl = false ->
        emitted_body body = body +:+ nl)
  /\ emitted_body EmptyString = EmptyString
  /\ Sorted String.le (sorted_items skipped).*1
  /\ sorted_items skipped ≡ₚ map_to_list skipped.
Proof.
  split; [apply build_bundle_text_eq|].
  split; [apply acquired_paths|].
  split.
  { intros p body. unfold acquired. rewrite list_elem_of_omap.
    intros (q & _ & Hq). destruct (contents !! q) eqn:E; simpl in Hq; [|done].
    by injection Hq as <- <-. }
  split; [apply emitted_body_terminated|].
  split.
  { intros body H. unfold emitted_body. rewrite H. by rewrite andb_false_r. }
  split.
  { intros body Hne H. unfold emitted_body. rewrite H. by destruct body. }
  split; [done|].
  split; [apply sorted_items_sorted|apply sorted_items_perm].
Qed.

(** Claim C4 as stated fails: for an acquired empty file no newline is
    appended, so the document differs from the one in which every content
    is made to end with a line terminator. *)
Lemma bundle_empty_content_not_terminated :
  build_bundle_text "T" "/r" ["a.py"] {[ "a.py" := EmptyString ]} ∅
  <> spec_bundle_text "T" "/r" ["a.py"] {[ "a.py" := EmptyString ]} ∅.
Proof. vm_compute. discriminate. Qed.

Lemma bundle_groups_witness :
  build_bundle_text "T" "/r" ["a.py"; "b.sql"]
    {[ "a.py" := "X" +:+ nl; "b.sql" := "Y" ]} ∅
  = bundle_head "T" "/r" []
    +:+ join (group_text <$> [("a.py", "X" +:+ nl); ("b.sql", "Y")])
  /\ endswith (emitted_body "Y") nl = true.
Proof.
  split.
  - exact (proj1 (bundle_groups_in_inventory_order "T" "/r" ["a.py"; "b.sql"]
                    {[ "a.py" := "X" +:+ nl; "b.sql" := "Y" ]} ∅)).
  - apply (proj1 (proj2 (proj2 (proj2 (bundle_groups_in_inventory_order "T" "/r" ["a.py"; "b.sql"]
                    {[ "a.py" := "X" +:+ nl; "b.sql" := "Y" ]} ∅))))).
    discriminate.
Defined.

(** *** Checkpoint: saving and loading *)

Lemma all_eq_str_iff l l' : all_eq_str (JStr <$> l) l' = true <-> l = l'.
Proof.
  revert l'. induction l as [|s l IH]; intros [|s' l']; simpl; try done.
  rewrite andb_true_iff, IH, String.eqb_eq. split; [intros [-> ->]|intros [= -> ->]]; done.
Qed.

Lemma eq_strs_iff l l' : eq_strs (JList (JStr <$> l)) l' = true <-> l = l'.
Proof. apply all_eq_str_iff. Qed.

Section record_fields.
Variables (now : string) (files dirs : list string) (root : string)
  (done : list bool) (contents : gmap string string) (cursor : Z)
  (filter_pref : bool) (mode : string).

Let record := state_record now files dirs root done contents cursor filter_pref mode.

Ltac record_field :=
  intros; unfold record, state_record, Json.get; cbn [list_to_map foldr];
  rewrite ?lookup_insert_ne by done; rewrite lookup_insert_eq; reflexivity.

Lemma get_scan_dirs_abs d : Json.get record "scan_dirs_abs" d = Ok (JList (JStr <$> dirs)).
Proof. record_field. Qed.
Lemma get_rel_root d : Json.get record "rel_root" d = Ok (JStr root).
Proof. record_field. Qed.
Lemma get_files d : Json.get record "files" d = Ok (JList (JStr <$> files)).
Proof. record_field. Qed.
Lemma get_done d : Json.get record "done" d = Ok (JList (JBool <$> done)).
Proof. record_field. Qed.
Lemma get_cursor d : Json.get record "cursor" d = Ok (JInt cursor).
Proof. record_field. Qed.
Lemma get_show_remaining_only d :
  Json.get record "show_remaining_only" d = Ok (JBool filter_pref).
Proof. record_field. Qed.
Lemma get_mode d : Json.get record "mode" d = Ok (JStr mode).
Proof. record_field. Qed.
Lemma get_contents d : Json.get record "contents" d = Ok (JDict (JStr <$> contents)).
Proof. record_field. Qed.
End record_fields.

Lemma truthy_bools (done : list bool) : truthy <$> (JBool <$> done) = done.
Proof. induction done as [|b l IH]; [done|]. rewrite !fmap_cons. by rewrite IH. Qed.

Lemma contents_restored (contents : gmap string string) (files : list string) :
  (forall p, is_Some (contents !! p) -> p ∈ files) ->
  omap as_str (filter (fun kv : string * json => kv.1 ∈ files) (JStr <$> contents)) = contents.
Proof.
  intros Hkeys. apply map_eq. intros p.
  rewrite lookup_omap, map_lookup_filter, lookup_fmap.
  destruct (contents !! p) as [body|] eqn:E; simpl; [|done].
  rewrite option_guard_True by (apply Hkeys; eauto). done.
Qed.

Lemma load_saved_mismatch now files dirs root done contents cursor filter_pref mode
    files' dirs' root' :
  files' <> files \/ dirs' <> dirs \/ root' <> root ->
  load_state (Parsed (state_record now files dirs root done contents cursor filter_pref mode))
    files' dirs' root' = Ok None.
Proof.
  intros Hne. unfold load_state, load_state_checked.
  rewrite get_scan_dirs_abs. cbn [mbind result_bind].
  destruct (eq_strs (JList (JStr <$> dirs)) dirs') eqn:Ed; [|done].
  apply eq_strs_iff in Ed as <-. cbn [negb].
  rewrite get_rel_root. cbn [mbind result_bind eq_str].
  destruct (String.eqb root root') eqn:Er; [|done].
  apply String.eqb_eq in Er as <-. cbn [negb].
  rewrite get_files. cbn [mbind result_bind].
  destruct (eq_strs (JList (JStr <$> files)) files') eqn:Ef; [|done].
  apply eq_strs_iff in Ef as <-. by destruct Hne as [? | [? | ?]].
Qed.

Lemma load_saved_match now files dirs root done contents cursor filter_pref mode :
  length done = length files ->
  (forall p, is_Some (contents !! p) -> p ∈ files) ->
  -1 <= cursor < Z.of_nat (length files) ->
  mode ∈ MODES ->
  load_state (Parsed (state_record now files dirs root done contents cursor filter_pref mode))
    files dirs root
  = Ok (Some {| l_done := done; l_contents := contents; l_cursor := cursor;
                l_show_remaining_only := filter_pref; l_mode := mode |}).
Proof.
  intros Hlen Hkeys Hcur Hmode. unfold load_state, load_state_checked.
  rewrite get_scan_dirs_abs. cbn [mbind result_bind].
  rewrite (proj2 (eq_strs_iff dirs dirs) eq_refl). cbn [negb].
  rewrite get_rel_root. cbn [mbind result_bind eq_str]. rewrite String.eqb_refl. cbn [negb].
  rewrite get_files. cbn [mbind result_bind].
  rewrite (proj2 (eq_strs_iff files files) eq_refl). cbn [negb].
  rewrite get_done, get_contents, get_cursor, get_show_remaining_only, get_mode.
  cbn [mbind result_bind as_int as_bool as_str try_except].
  rewrite length_fmap, Hlen, Nat.eqb_refl. cbn [negb].
  rewrite truthy_bools, contents_restored by done.
  replace (str_in mode MODES) with true.
  2:{ symmetry. unfold str_in. apply existsb_exists. exists mode.
      split; [by apply list_elem_of_In|apply String.eqb_refl]. }
  replace (Z.max (-1) (Z.min cursor (Z.of_nat (length files) - 1))) with cursor by lia.
  reflexivity.
Qed.

Lemma load_state_never_raises file files dirs root :
  exists r, load_state file files dirs root = Ok r.
Proof.
  destruct file as [|n|state]; simpl; eauto.
  destruct (load_state_checked state files dirs root) as [r|[n|]] eqn:E; simpl; eauto.
  exfalso. destruct state; try discriminate.
  unfold load_state_checked in E. cbn [Json.get mbind result_bind] in E.
  repeat match type of E with
         | (if ?b then _ else _) = _ => destruct b; [discriminate|]
         | (if ?b then _ else _) = _ => destruct b; [|discriminate]
         | match ?x with _ => _ end = _ => destruct x; try discriminate
         end.
Qed.

Lemma load_state_object m files dirs root :
  keys_match m files dirs root ->
  load_state (Parsed (JDict m)) files dirs root
  = match m !! "done", m !! "contents" with
    | Some (JList ds), Some (JDict cs) =>
        if (length ds =? length files)%nat
        then Ok (Some {| l_done := truthy <$> ds;
                         l_contents := omap as_str (filter (fun kv => kv.1 ∈ files) cs);
                         l_cursor := cursor_of m files;
                         l_show_remaining_only := filter_of m;
                         l_mode := mode_of m |})
        else Ok None
    | _, _ => Ok None
    end.
Proof.
  intros ((xd & Hd & Ed) & (xr & Hr & Er) & (xf & Hf & Ef)).
  unfold load_state, load_state_checked, cursor_of, filter_of, mode_of.
  cbn [Json.get mbind result_bind]. rewrite Hd, Hr, Hf, Ed, Er, Ef. cbn [negb].
  destruct (m !! "done") as [[| | | | |ds|]|]; try reflexivity.
  destruct (length ds =? length files)%nat; cbn [negb]; [|by destruct (m !! "contents") as [[]|]].
  destruct (m !! "contents") as [[| | | | | |cs]|]; try reflexivity.
  cbn [try_except]. do 3 f_equal.
  - by destruct (m !! "cursor").
  - by destruct (m !! "show_remaining_only").
  - by destruct (m !! "mode") as [[]|].
Qed.

Lemma load_state_mismatch m files dirs root :
  (forall x, m !! "scan_dirs_abs" = Some x -> eq_strs x dirs = false) \/
  (forall x, m !! "rel_root" = Some x -> eq_str x root = false) \/
  (forall x, m !! "files" = Some x -> eq_strs x files = false) ->
  load_state (Parsed (JDict m)) files dirs root = Ok None.
Proof.
  intros H. unfold load_state, load_state_checked. cbn [Json.get mbind result_bind].
  destruct (m !! "scan_dirs_abs") as [xd|] eqn:Hd.
  2:{ reflexivity. }
  destruct (eq_strs xd dirs) eqn:Ed; [|reflexivity]. cbn [negb].
  destruct (m !! "rel_root") as [xr|] eqn:Hr; [|reflexivity].
  destruct (eq_str xr root) eqn:Er; [|reflexivity]. cbn [negb].
  destruct (m !! "files") as [xf|] eqn:Hf; [|by destruct files].
  destruct (eq_strs xf files) eqn:Ef; [|reflexivity].
  destruct H as [H | [H | H]].
  - by rewrite (H _ eq_refl) in Ed.
  - by rewrite (H _ eq_refl) in Er.
  - by rewrite (H _ eq_refl) in Ef.
Qed.

Lemma save_state_ok os files dirs root m m' :
  save_state os files dirs root m = (Ok tt, m') ->
  m' = {| vars := vars m; stdin := stdin m;
          checkpoint := Parsed (state_record (now_isoformat os) files dirs root
                                  (done (vars m)) (contents (vars m)) (cursor (vars m))
                                  (show_remaining_only (vars m)) (mode (vars m)));
          stdout := stdout m |}.
Proof.
  unfold save_state. destruct (write_text os STATE_FILE); [|discriminate].
  by intros [= <-].
Qed.

(** Claim C2 (resume round trip).  After a successful [save_state] of a
    session state that is well formed for the inventory (as many flags as
    files, contents only for inventory paths, cursor between -1 and the last
    index, a mode of [MODES]), [load_state] with the same inventory, scan
    roots and root returns exactly the saved flags, contents, cursor, filter
    preference and mode; with a different inventory, scan roots or root it
    returns [None]. *)
Theorem resume_round_trip os files scan_dirs_abs rel_root m m' :
  save_state os files scan_dirs_abs rel_root m = (Ok tt, m') ->
  length (done (vars m)) = length files ->
  (forall p, is_Some (contents (vars m) !! p) -> p ∈ files) ->
  -1 <= cursor (vars m) < Z.of_nat (length files) ->
  mode (vars m) ∈ MODES ->
  load_state (checkpoint m') files scan_dirs_abs rel_root
  = Ok (Some {| l_done := done (vars m); l_contents := contents (vars m);
                l_cursor := cursor (vars m);
                l_show_remaining_only := show_remaining_only (vars m);
                l_mode := mode (vars m) |})
  /\ forall files' scan_dirs_abs' rel_root',
       files' <> files \/ scan_dirs_abs' <> scan_dirs_abs \/ rel_root' <> rel_root ->
       load_state (checkpoint m') files' scan_dirs_abs' rel_root' = Ok None.
Proof.
  intros Hsave Hlen Hkeys Hcur Hmode. apply save_state_ok in Hsave as ->. simpl. split.
  - by apply load_saved_match.
  - intros files' dirs' root' Hne. by apply load_saved_mismatch.
Qed.

Lemma resume_round_trip_witness :
  load_state (checkpoint (snd (save_state sample_os ["a.py"; "b.py"] ["/r"] "/r" (sample_machine []))))
    ["a.py"; "b.py"] ["/r"] "/r"
  = Ok (Some {| l_done := [true; false]; l_contents := {[ "a.py" := "X" +:+ nl ]};
                l_cursor := 0; l_show_remaining_only := true; l_mode := MODE_PASTE |})
  /\ load_state (checkpoint (snd (save_state sample_os ["a.py"; "b.py"] ["/r"] "/r" (sample_machine []))))
       ["a.py"] ["/r"] "/r" = Ok None.
Proof.
  assert (Hk : forall p, is_Some (contents sample_vars !! p) -> p ∈ ["a.py"; "b.py"]).
  { intros p [x Hx].
    change (contents sample_vars) with ({[ "a.py" := "X" +:+ nl ]} : gmap string string) in Hx.
    apply lookup_singleton_Some in Hx as [<- _]. apply list_elem_of_here. }
  destruct (resume_round_trip sample_os ["a.py"; "b.py"] ["/r"] "/r" (sample_machine [])
              (snd (save_state sample_os ["a.py"; "b.py"] ["/r"] "/r" (sample_machine [])))
              eq_refl eq_refl Hk) as [H1 H2].
  - simpl. lia.
  - unfold MODES. simpl. apply list_elem_of_further, list_elem_of_here.
  - split; [exact H1|]. apply H2. left. discriminate.
Defined.

Lemma keys_match_or_not m files dirs root :
  keys_match m files dirs root
  \/ ((forall x, m !! "scan_dirs_abs" = Some x -> eq_strs x dirs = false) \/
      (forall x, m !! "rel_root" = Some x -> eq_str x root = false) \/
      (forall x, m !! "files" = Some x -> eq_strs x files = false)).
Proof.
  unfold keys_match.
  destruct (m !! "scan_dirs_abs") as [xd|] eqn:Hd; [|right; left; by intros].
  destruct (eq_strs xd dirs) eqn:Ed; [|right; left; by intros ? [= <-]].
  destruct (m !! "rel_root") as [xr|] eqn:Hr; [|right; right; left; by intros].
  destruct (eq_str xr root) eqn:Er; [|right; right; left; by intros ? [= <-]].
  destruct (m !! "files") as [xf|] eqn:Hf; [|right; right; right; by intros].
  destruct (eq_strs xf files) eqn:Ef; [|right; right; right; by intros ? [= <-]].
  left. eauto 10.
Qed.

(** Claim C3, as amended (fail-soft load).  [load_state] never raises.  It
    returns [None] when the checkpoint is absent, cannot be read or parsed,
    or is not an object, when the object is for another inventory, scan
    roots or root, when its done field is not a list as long as the
    inventory and when its contents field is not an object.  Otherwise it
    returns a state: the done entries by their truth value, the contents
    that are strings for inventory paths, and cursor, filter and mode read
    with defaults: the filter is the stored boolean, else false; the mode is
    the stored string if it is one of the three modes, else hybrid; the
    cursor is the stored integer, where a JSON boolean counts as the integer
    1 or 0 ([bool] is a subclass of [int]), else -1, and is then clamped
    between -1 and the last index. *)
Theorem load_state_fail_soft file files scan_dirs_abs rel_root :
  (exists r, load_state file files scan_dirs_abs rel_root = Ok r)
  /\ (file = Absent \/ (exists n, file = Unreadable n)
      \/ (exists state, file = Parsed state /\ forall m, state <> JDict m) ->
      load_state file files scan_dirs_abs rel_root = Ok None)
  /\ (forall m, file = Parsed (JDict m) ->
      ~ keys_match m files scan_dirs_abs rel_root
      \/ (forall ds, m !! "done" = Some (JList ds) -> length ds <> length files)
      \/ (forall cs, m !! "contents" <> Some (JDict cs)) ->
      load_state file files scan_dirs_abs rel_root = Ok None)
  /\ (forall m ds cs, file = Parsed (JDict m) ->
      keys_match m files scan_dirs_abs rel_root ->
      m !! "done" = Some (JList ds) -> length ds = length files ->
      m !! "contents" = Some (JDict cs) ->
      load_state file files scan_dirs_abs rel_root
      = Ok (Some {| l_done := truthy <$> ds;
                    l_contents := omap as_str (filter (fun kv => kv.1 ∈ files) cs);
                    l_cursor := cursor_of m files;
                    l_show_remaining_only := filter_of m;
                    l_mode := mode_of m |}))
  /\ (forall m,
      cursor_of m files
      = Z.max (-1)
          (Z.min match m !! "cursor" with
                 | Some (JInt c) => c
                 | Some (JBool b) => if b then 1 else 0
                 | _ => -1
                 end
                 (Z.of_nat (length files) - 1))
      /\ filter_of m
         = match m !! "show_remaining_only" with Some (JBool b) => b | _ => false end
      /\ mode_of m
         = match m !! "mode" with
           | Some (JStr s) => if str_in s MODES then s else MODE_HYBRID
           | _ => MODE_HYBRID
           end).
Proof.
  split; [apply load_state_never_raises|]. split; [|split; [|split]].
  4:{ intros m. unfold cursor_of, filter_of. split; [|split; [|reflexivity]].
      - by destruct (m !! "cursor") as [[]|].
      - by destruct (m !! "show_remaining_only") as [[]|]. }
  - intros [-> | [[n ->] | (state & -> & Hno)]]; [done|done|].
    destruct state; try done. by destruct (Hno m).
  - intros m -> H.
    destruct (keys_match_or_not m files scan_dirs_abs rel_root) as [Hk|Hk];
      [|by apply load_state_mismatch].
    rewrite (load_state_object _ _ _ _ Hk).
    destruct H as [H | [H | H]]; [done| |].
    + destruct (m !! "done") as [[| | | | |ds|]|]; try done.
      specialize (H ds eq_refl). apply Nat.eqb_neq in H. rewrite H.
      by destruct (m !! "contents") as [[]|].
    + destruct (m !! "done") as [[| | | | |ds|]|]; try done.
      destruct (m !! "contents") as [[| | | | | |cs]|]; try done. by destruct (H cs).
  - intros m ds cs -> Hk Hd Hlen Hc.
    rewrite (load_state_object _ _ _ _ Hk), Hd, Hc.
    apply Nat.eqb_eq in Hlen. by rewrite Hlen.
Qed.

(** A cursor stored as a JSON boolean is not replaced by -1: it is read as
    the integer 1. *)
Example boolean_cursor_is_an_integer :
  load_state
    (Parsed (JDict (list_to_map
       [("scan_dirs_abs", JList [JStr "/r"]); ("rel_root", JStr "/r");
        ("files", JList [JStr "a.py"; JStr "b.py"]);
        ("done", JList [JBool true; JBool false]); ("cursor", JBool true);
        ("contents", JDict {[ "a.py" := JStr "X" ]})])))
    ["a.py"; "b.py"] ["/r"] "/r"
  = Ok (Some {| l_done := [true; false]; l_contents := {[ "a.py" := "X" ]};
                l_cursor := 1; l_show_remaining_only := false; l_mode := MODE_HYBRID |}).
Proof. vm_compute. reflexivity. Qed.

(** Claim C3 as stated fails: a record whose mode is not one of the three
    tokens is not treated as absent; it is loaded with the mode defaulted. *)
Lemma unknown_mode_is_defaulted :
  ~ (forall state files scan_dirs_abs rel_root,
       record_typed state files = false ->
       load_state (Parsed state) files scan_dirs_abs rel_root = Ok None).
Proof.
  intros H.
  specialize (H (state_record "t" ["a.py"] ["/r"] "/r" [true] {[ "a.py" := "X" ]} 0 false "turbo")
                ["a.py"] ["/r"] "/r").
  vm_compute in H. specialize (H eq_refl). discriminate.
Qed.

Lemma load_state_fail_soft_witness :
  load_state (Parsed (JList [])) ["a.py"] ["/r"] "/r" = Ok None
  /\ load_state (Parsed (JDict {[ "done" := JInt 1 ]})) ["a.py"] ["/r"] "/r" = Ok None.
Proof.
  split.
  - apply (proj1 (proj2 (load_state_fail_soft (Parsed (JList [])) ["a.py"] ["/r"] "/r"))).
    right. right. exists (JList []). split; [reflexivity|discriminate].
  - apply (proj1 (proj2 (proj2 (load_state_fail_soft (Parsed (JDict {[ "done" := JInt 1 ]}))
                                   ["a.py"] ["/r"] "/r")))
             {[ "done" := JInt 1 ]} eq_refl).
    right. left. intros ds. rewrite lookup_singleton_eq. discriminate.
Defined.

(** *** Programs that only use the console *)

Lemma console_only_bind {A B} (c : prog A) (f : A -> prog B) :
  console_only c -> (forall a, console_only (f a)) -> console_only (c ≫= f).
Proof.
  intros Hc Hf m. unfold mbind, prog_bind. specialize (Hc m).
  destruct (c m) as [[a|e] m']; simpl in *; [|done].
  destruct Hc as [Hc1 Hc2]. destruct (Hf a m') as [H1 H2]. split; congruence.
Qed.

Lemma console_only_ret {A} (a : A) : console_only (mret a).
Proof. by intros m. Qed.

Lemma console_only_emit o : console_only (emit o).
Proof. by intros m. Qed.

Lemma console_only_print s : console_only (print s).
Proof. by intros m. Qed.

Lemma console_only_raise {A} e : console_only (@raise A e).
Proof. by intros m. Qed.

Lemma console_only_lift {A} (r : result A) : console_only (lift r).
Proof. by intros m. Qed.

Lemma console_only_readline : console_only readline.
Proof. intros m. unfold readline. by destruct (stdin m) as [|[]]. Qed.

Lemma console_only_input prompt : console_only (input prompt).
Proof.
  unfold input. apply console_only_bind; [apply console_only_emit|intros _].
  apply console_only_bind; [apply console_only_readline|intros line].
  destruct line; [apply console_only_raise|apply console_only_ret].
Qed.

Lemma console_only_try {A} (body handler : prog A) :
  console_only body -> console_only handler -> console_only (try_except_EOFError body handler).
Proof.
  intros Hb Hh m. unfold try_except_EOFError. specialize (Hb m).
  destruct (body m) as [[a|e] m']; simpl in *; [done|].
  destruct (is_EOFError e); [|done].
  destruct Hb as [Hb1 Hb2]. destruct (Hh m') as [H1 H2]. split; congruence.
Qed.

Lemma console_only_read_cmd : console_only read_cmd.
Proof.
  apply console_only_try; [|apply console_only_ret].
  apply console_only_bind; [apply console_only_input|intros; apply console_only_ret].
Qed.

Lemma console_only_ask_yes_no prompt d : console_only (ask_yes_no prompt d).
Proof.
  apply console_only_try; [|apply console_only_ret].
  apply console_only_bind; [apply console_only_input|intros s].
  cbv zeta. repeat case_match; apply console_only_ret.
Qed.

Lemma console_only_capture_lines path step : console_only (capture_lines path step).
Proof. intros m. unfold capture_lines. by destruct (capture_loop _ _ _ _ _ _) as [[r rest] out]. Qed.

Lemma console_only_capture_section path index total :
  console_only (capture_section path index total).
Proof.
  unfold capture_section.
  repeat (apply console_only_bind; [apply console_only_print|intros _]).
  apply console_only_bind; [apply console_only_capture_lines|intros; apply console_only_ret].
Qed.

Lemma console_only_print_items ps : console_only (print_items ps).
Proof.
  induction ps as [|p ps IH]; simpl; [apply console_only_ret|].
  apply console_only_bind; [apply console_only_print|by intros _].
Qed.

(** *** Fallback after a failed direct read *)

Lemma ask_yes_no_answer prompt m line rest :
  stdin m = Keys line :: rest ->
  ask_yes_no prompt true m
  = (Ok (str_in (lower (strip (chomp line))) ["y"; "yes"]),
     consumed (wrote m [Prompt prompt]) rest).
Proof.
  intros Hin. destruct (decide (line = EmptyString)) as [->|Hne].
  - unfold ask_yes_no, try_except_EOFError, input, readline. run. by rewrite Hin.
  - by apply ask_yes_no_line.
Qed.

Lemma acquire_eq os files dirs root action idx path m :
  acquire os files dirs root action idx path m
  = (if String.eqb (decide_action action (vars m)) "a"
     then auto_branch os files dirs root idx path
     else paste_branch os files dirs root idx path) (with_vars m (cleared (vars m))).
Proof. reflexivity. Qed.

Lemma auto_branch_failed os files dirs root idx path why m :
  auto_read_file os root path = Ok (None, why) ->
  auto_branch os files dirs root idx path m
  = (if String.eqb (mode (vars m)) MODE_HYBRID then
       ok ← ask_yes_no (color "Switch to PASTE mode for this file? (y/N) > ") true;
       if (ok : bool) then
         content ← capture_section path idx (Z.of_nat (length files));
         store path idx content;;
         print (color (nl +:+ "[" +:+ path +:+ "] AUTO-READ complete."));;
         autosave os files dirs root;;
         mret Continue
       else
         print (color "Skipped. Move on to something else.");;
         mret Continue
     else mret Continue)
    (wrote m [Print EmptyString;
              Print ("[" +:+ path +:+ "] AUTO-READ failed/skipped: " +:+ why)]).
Proof.
  intros Hread. unfold auto_branch. run. rewrite Hread. run.
  set (m1 := {| vars := vars m; stdin := stdin m; checkpoint := checkpoint m;
                stdout := (stdout m ++ [Print ""]) ++ _ |}).
  assert (Hm1 : m1 = wrote m [Print EmptyString;
              Print ("[" +:+ path +:+ "] AUTO-READ failed/skipped: " +:+ why)]).
  { unfold m1, wrote. by rewrite <- app_assoc. }
  rewrite <- Hm1. clearbody m1.
  destruct (String.eqb (mode (vars m)) MODE_HYBRID); [|reflexivity].
  destruct (ask_yes_no _ true m1) as [[[|]|e] m2]; [|reflexivity..].
  destruct (capture_section path idx _ m2) as [[c|e] m3]; reflexivity.
Qed.

(** Claim C1 (fallback policy).  When the action of the step is the direct
    read and [auto_read_file] returns no content: in mode auto the pass ends
    with [continue] after the failure message, nothing is read from the
    console and no fallback is offered, and flags, contents, cursor, filter,
    mode and checkpoint are as before (the override, consumed when the entry
    was selected, is cleared); in mode hybrid the yes/no question is asked,
    and on any answer but y/yes, or at end of input, the pass ends the same
    way with the session state and checkpoint as before, while on y/yes
    the manual capture for this entry runs and its result is stored. *)
Theorem fallback_policy os files scan_dirs_abs rel_root action idx path why m :
  decide_action action (vars m) = "a" ->
  auto_read_file os rel_root path = Ok (None, why) ->
  let failed := [Print EmptyString;
                 Print ("[" +:+ path +:+ "] AUTO-READ failed/skipped: " +:+ why)] in
  let offer := Prompt "Switch to PASTE mode for this file? (y/N) > " in
  (mode (vars m) = MODE_AUTO ->
     acquire os files scan_dirs_abs rel_root action idx path m
     = (Ok Continue,
        {| vars := cleared (vars m); stdin := stdin m; checkpoint := checkpoint m;
           stdout := stdout m ++ failed |}))
  /\ (mode (vars m) = MODE_HYBRID ->
      (stdin m = [] ->
         acquire os files scan_dirs_abs rel_root action idx path m
         = (Ok Continue,
            {| vars := cleared (vars m); stdin := []; checkpoint := checkpoint m;
               stdout := stdout m ++ failed
                         ++ [offer; Print "Skipped. Move on to something else."] |}))
      /\ (forall line rest, stdin m = Keys line :: rest ->
            str_in (lower (strip (chomp line))) ["y"; "yes"] = false ->
            acquire os files scan_dirs_abs rel_root action idx path m
            = (Ok Continue,
               {| vars := cleared (vars m); stdin := rest; checkpoint := checkpoint m;
                  stdout := stdout m ++ failed
                            ++ [offer; Print "Skipped. Move on to something else."] |}))
      /\ (forall line rest, stdin m = Keys line :: rest ->
            str_in (lower (strip (chomp line))) ["y"; "yes"] = true ->
            acquire os files scan_dirs_abs rel_root action idx path m
            = (content ← capture_section path idx (Z.of_nat (length files));
               store path idx content;;
               print (color (nl +:+ "[" +:+ path +:+ "] AUTO-READ complete."));;
               autosave os files scan_dirs_abs rel_root;;
               mret Continue)
              {| vars := cleared (vars m); stdin := rest; checkpoint := checkpoint m;
                 stdout := stdout m ++ failed ++ [offer] |})).
Proof.
  intros Hact Hread failed offer.
  rewrite acquire_eq, Hact. change (String.eqb "a" "a") with true. cbv iota.
  rewrite (auto_branch_failed _ _ _ _ _ _ _ _ Hread).
  change (mode (vars (with_vars m (cleared (vars m))))) with (mode (vars m)).
  split.
  { intros ->. reflexivity. }
  intros ->. change (String.eqb MODE_HYBRID MODE_HYBRID) with true. cbv iota.
  split; [|split].
  - intros Hin.
    erewrite bind_ok by (by apply ask_yes_no_eof).
    unfold wrote, with_vars. run. by rewrite Hin, <- !app_assoc.
  - intros line rest Hin Hno.
    erewrite bind_ok by (by apply ask_yes_no_answer). rewrite Hno.
    unfold wrote, with_vars, consumed. run. by rewrite <- !app_assoc.
  - intros line rest Hin Hyes.
    erewrite bind_ok by (by apply ask_yes_no_answer). rewrite Hyes.
    unfold wrote, with_vars, consumed. cbn [vars stdin checkpoint stdout].
    by rewrite <- !app_assoc.
Qed.

(** *** The one-shot override *)




Lemma save_state_vars os files dirs root m :
  vars (snd (save_state os files dirs root m)) = vars m.
Proof. unfold save_state. by destruct (write_text os STATE_FILE). Qed.









(** The override that survived a refused overwrite serves the entry
    selected after it: in mode hybrid, where [b.py] would be read from the
    disk, the command [1] acquires it by manual capture. *)
Example override_serves_the_second_entry_selected :
  let m := with_vars (sample_machine [Keys ("0" +:+ nl); Keys ("n" +:+ nl);
                                      Keys ("1" +:+ nl); Keys ("pasted" +:+ nl);
                                      Keys ("\END" +:+ nl)])
             {| done := [true; false]; contents := {[ "a.py" := "X" +:+ nl ]}; cursor := 0;
                show_remaining_only := false; mode := MODE_HYBRID;
                next_action_override := Some "p" |} in
  let m1 := machine_of (loop_pass sample_os sample_files ["/r"] "/r" m) in
  let m2 := machine_of (loop_pass sample_os sample_files ["/r"] "/r" m1) in
  next_action_override (vars m1) = Some "p"
  /\ contents (vars m1) = contents (vars m)
  /\ contents (vars m2) !! "b.py" = Some ("pasted" +:+ nl)
  /\ next_action_override (vars m2) = None.
Proof. vm_compute. repeat split. Qed.

(** *** The session invariant *)

Lemma keeps_bind_ok I {A B} (c : prog A) (f : A -> prog B) :
  keeps I c ->
  (forall m a m', I m -> c m = (Ok a, m') -> I (snd (f a m'))) ->
  keeps I (c ≫= f).
Proof.
  intros Hc Hf m Hm. unfold mbind, prog_bind. specialize (Hc m Hm).
  destruct (c m) as [[a|e] m'] eqn:E; simpl in *; [|done]. by eapply Hf.
Qed.

Lemma keeps_bind I {A B} (c : prog A) (f : A -> prog B) :
  keeps I c -> (forall a, keeps I (f a)) -> keeps I (c ≫= f).
Proof.
  intros Hc Hf. apply keeps_bind_ok; [done|]. intros m a m' Hm E.
  apply Hf. specialize (Hc m Hm). by rewrite E in Hc.
Qed.

Lemma console_keeps files {A} (c : prog A) : console_only c -> keeps (inv files) c.
Proof. intros H m [H1 H2]. destruct (H m) as [Hv Hc]. unfold inv. by rewrite Hv, Hc. Qed.

Lemma fresh_vars_ok mode files : mode ∈ MODES -> session_ok files (fresh_vars mode files).
Proof.
  intros Hm. unfold session_ok, fresh_vars, acquired_iff_content. simpl.
  split; [apply length_replicate|]. split; [|split; [|split; [lia|done]]].
  - intros i p Hp. split.
    + intros [x Hx]. by rewrite lookup_empty in Hx.
    + intros H. by apply lookup_replicate in H as [? _].
  - intros p [x Hx]. by rewrite lookup_empty in Hx.
Qed.

Lemma stored_ok files v path idx content :
  NoDup files -> session_ok files v ->
  0 <= idx -> files !! Z.to_nat idx = Some path ->
  session_ok files (stored v path idx content).
Proof.
  intros Hnd (Hlen & Hiff & Hkeys & Hcur & Hmode) Hidx Hpath.
  pose proof (lookup_lt_Some _ _ _ Hpath) as Hlt.
  unfold session_ok, stored, acquired_iff_content. simpl.
  split; [by rewrite length_insert|]. split; [|split; [|split; [lia|done]]].
  - intros i p Hp. destruct (decide (i = Z.to_nat idx)) as [->|Hne].
    + rewrite Hpath in Hp. injection Hp as <-.
      rewrite lookup_insert_eq, list_lookup_insert_eq by lia. split; eauto.
    + assert (p <> path) by (intros ->; apply Hne; eapply NoDup_lookup; eauto).
      rewrite lookup_insert_ne, list_lookup_insert_ne by done. by apply Hiff.
  - intros p [x Hx]. destruct (decide (p = path)) as [->|Hne].
    + by eapply list_elem_of_lookup_2.
    + rewrite lookup_insert_ne in Hx by done. apply Hkeys. eauto.
Qed.

Lemma store_eq path idx content m :
  0 <= idx < Z.of_nat (length (done (vars m))) ->
  store path idx content m = (Ok tt, with_vars m (stored (vars m) path idx content)).
Proof.
  intros Hidx. unfold store, setitem. run.
  replace ((0 <=? idx) && (idx <? Z.of_nat (length (done (vars m))))) with true by lia.
  reflexivity.
Qed.

Lemma vars_only_keeps files (f : locals -> locals) :
  (forall v, session_ok files v -> session_ok files (f v)) ->
  keeps (inv files) (fun m => (Ok tt, with_vars m (f (vars m)))).
Proof. intros Hf m [H1 H2]. split; [by apply Hf|done]. Qed.

Lemma save_state_keeps os files dirs root : keeps (inv files) (save_state os files dirs root).
Proof.
  intros m [H1 H2]. unfold save_state. destruct (write_text os STATE_FILE); [|done].
  split; [done|]. simpl. by exists (now_isoformat os), files, dirs, root, (vars m).
Qed.

Lemma autosave_keeps os files dirs root : keeps (inv files) (autosave os files dirs root).
Proof.
  apply keeps_bind; [apply save_state_keeps|intros _].
  apply console_keeps, console_only_print.
Qed.

Lemma on_interrupt_keeps os files dirs root :
  keeps (inv files) (on_interrupt os files dirs root).
Proof.
  unfold on_interrupt.
  apply keeps_bind; [apply console_keeps, console_only_print|intros _].
  apply keeps_bind; [apply console_keeps, console_only_print|intros _].
  apply save_state_keeps.
Qed.

Lemma stored_keeps os files dirs root path idx content msg :
  NoDup files -> 0 <= idx -> files !! Z.to_nat idx = Some path ->
  keeps (inv files)
    (store path idx content;; print msg;; autosave os files dirs root;; mret Continue).
Proof.
  intros Hnd Hidx Hpath.
  apply keeps_bind.
  - intros m [H1 H2]. rewrite store_eq.
    + split; [by apply stored_ok|done].
    + destruct H1 as [-> _]. apply lookup_lt_Some in Hpath. lia.
  - intros _. apply keeps_bind; [apply console_keeps, console_only_print|intros _].
    apply keeps_bind; [apply autosave_keeps|intros _].
    apply console_keeps, console_only_ret.
Qed.

Lemma paste_branch_keeps os files dirs root idx path :
  NoDup files -> 0 <= idx -> files !! Z.to_nat idx = Some path ->
  keeps (inv files) (paste_branch os files dirs root idx path).
Proof.
  intros Hnd Hidx Hpath. unfold paste_branch.
  apply keeps_bind; [apply console_keeps, console_only_capture_section|intros content].
  by apply stored_keeps.
Qed.

Lemma auto_branch_keeps os files dirs root idx path :
  NoDup files -> 0 <= idx -> files !! Z.to_nat idx = Some path ->
  keeps (inv files) (auto_branch os files dirs root idx path).
Proof.
  intros Hnd Hidx Hpath. unfold auto_branch.
  apply keeps_bind; [by intros m|intros v].
  apply keeps_bind; [apply console_keeps, console_only_lift|intros [content why]].
  apply keeps_bind.
  - apply console_keeps. destruct content; [apply console_only_ret|].
    apply console_only_bind; [apply console_only_print|intros _].
    apply console_only_bind; [apply console_only_print|intros _].
    destruct (String.eqb (mode v) MODE_HYBRID); [|apply console_only_ret].
    apply console_only_bind; [apply console_only_ask_yes_no|intros [|]].
    + apply console_only_bind; [apply console_only_capture_section|intros; apply console_only_ret].
    + apply console_only_bind; [apply console_only_print|intros; apply console_only_ret].
  - intros [content'|]; [by apply stored_keeps|].
    apply console_keeps, console_only_ret.
Qed.

Lemma cleared_ok files v : session_ok files v -> session_ok files (cleared v).
Proof. done. Qed.

Lemma acquire_keeps os files dirs root action idx path :
  NoDup files -> 0 <= idx -> files !! Z.to_nat idx = Some path ->
  keeps (inv files) (acquire os files dirs root action idx path).
Proof.
  intros Hnd Hidx Hpath m Hm. rewrite acquire_eq.
  assert (Hm' : inv files (with_vars m (cleared (vars m)))) by (by destruct Hm).
  destruct (String.eqb _ "a").
  - by apply auto_branch_keeps.
  - by apply paste_branch_keeps.
Qed.

Lemma console_only_resolve_command files cmd : console_only (resolve_command files cmd).
Proof.
  unfold resolve_command.
  apply console_only_bind; [by intros m|intros v].
  assert (Hplain : console_only
    (if String.eqb cmd EmptyString then
      start ← (if 0 <=? cursor v
               then if Z.of_nat (length (done v)) =? 0 then raise ZeroDivisionError
                    else mret ((cursor v + 1) mod Z.of_nat (length (done v)))
               else mret 0);
      idx ← lift (next_undone_index (done v) start);
      match idx with
      | None =>
          print EmptyString;;
          print (color "All files are done. If you're finished, press q to quit.");;
          mret None
      | Some i => mret (Some (None, i))
      end
    else if negb (isdigit cmd) then
      print EmptyString;;
      print (color "Valid inputs: Enter / number / a / p / m / r / q only.");;
      mret None
    else
      idx ← lift (int cmd);
      mret (Some (@None string, idx)))).
  { destruct (String.eqb cmd EmptyString).
    - apply console_only_bind.
      + repeat case_match; first [apply console_only_raise|apply console_only_ret].
      + intros start. apply console_only_bind; [apply console_only_lift|intros [i|]].
        * apply console_only_ret.
        * repeat (apply console_only_bind; [apply console_only_print|intros _]).
          apply console_only_ret.
    - destruct (negb (isdigit cmd)).
      + repeat (apply console_only_bind; [apply console_only_print|intros _]).
        apply console_only_ret.
      + apply console_only_bind; [apply console_only_lift|intros; apply console_only_ret]. }
  apply console_only_bind.
  - destruct (split cmd) as [|p0 [|p1 [|]]]; try exact Hplain.
    destruct (str_in (lower p0) ["a"; "p"] && isdigit p1); [|exact Hplain].
    apply console_only_bind; [apply console_only_lift|intros; apply console_only_ret].
  - intros [[action idx]|]; [|apply console_only_ret].
    destruct ((idx <? 0) || (Z.of_nat (length files) <=? idx)); [|apply console_only_ret].
    repeat (apply console_only_bind; [apply console_only_print|intros _]).
    apply console_only_ret.
Qed.

Lemma resolve_command_range files cmd m action idx m' :
  resolve_command files cmd m = (Ok (Some (action, idx)), m') ->
  0 <= idx < Z.of_nat (length files).
Proof.
  unfold resolve_command. unfold mbind at 1. unfold prog_bind at 1.
  cbn [get_vars]. unfold mbind at 1. unfold prog_bind at 1.
  match goal with |- context [match ?c m with _ => _ end] => destruct (c m) as [[picked|e] m1] end;
    [|discriminate].
  destruct picked as [[a i]|]; [|discriminate].
  destruct ((i <? 0) || (Z.of_nat (length files) <=? i)) eqn:E.
  - run. discriminate.
  - intros [= <- <- <-]. lia.
Qed.

Lemma console_only_confirm_overwrite path idx : console_only (confirm_overwrite path idx).
Proof.
  unfold confirm_overwrite.
  apply console_only_bind; [by intros m|intros v].
  apply console_only_bind; [apply console_only_lift|intros [|]]; [|apply console_only_ret].
  apply console_only_bind; [apply console_only_ask_yes_no|intros [|]]; [apply console_only_ret|].
  apply console_only_bind; [apply console_only_print|intros; apply console_only_ret].
Qed.

Lemma index_ok_lookup {A} (xs : list A) i x :
  0 <= i -> index xs i = Ok x -> xs !! Z.to_nat i = Some x.
Proof.
  intros Hi. unfold index. replace (i <? 0) with false by lia.
  destruct ((0 <=? i) && (i <? Z.of_nat (length xs))); [|discriminate].
  destruct (xs !! Z.to_nat i); [by intros [= ->]|discriminate].
Qed.

Lemma on_entry_keeps os files dirs root action idx :
  NoDup files -> 0 <= idx ->
  keeps (inv files) (on_entry os files dirs root (Some (action, idx))).
Proof.
  intros Hnd Hidx. unfold on_entry.
  apply keeps_bind_ok; [apply console_keeps, console_only_lift|].
  intros m path m' Hm [= Hpath <-].
  apply index_ok_lookup in Hpath; [|done].
  revert m Hm. apply keeps_bind; [apply console_keeps, console_only_confirm_overwrite|].
  intros [|]; [by apply acquire_keeps|apply console_keeps, console_only_ret].
Qed.

Lemma cycle_mode_in_MODES mode : cycle_mode mode ∈ MODES.
Proof.
  unfold cycle_mode.
  set (k := Z.to_nat _). clearbody k. unfold MODES.
  destruct k as [|[|[|k]]]; simpl.
  - apply list_elem_of_here.
  - apply list_elem_of_further, list_elem_of_here.
  - do 2 apply list_elem_of_further. apply list_elem_of_here.
  - destruct k; apply list_elem_of_here.
Qed.

Lemma set_show_remaining_only_keeps files b : keeps (inv files) (set_show_remaining_only b).
Proof. intros m [H1 H2]. split; [exact H1|exact H2]. Qed.

Lemma set_next_action_override_keeps files x : keeps (inv files) (set_next_action_override x).
Proof. intros m [H1 H2]. split; [exact H1|exact H2]. Qed.

Lemma set_mode_keeps files x : x ∈ MODES -> keeps (inv files) (set_mode x).
Proof.
  intros Hx m [(H1 & H2 & H3 & H4 & H5) Hc]. split; [|exact Hc].
  split; [exact H1|]. split; [exact H2|]. split; [exact H3|]. split; [exact H4|exact Hx].
Qed.

Lemma iteration_keeps os files dirs root :
  NoDup files -> keeps (inv files) (iteration os files dirs root).
Proof.
  intros Hnd. unfold iteration.
  apply keeps_bind; [apply console_keeps, console_only_emit|intros _].
  apply keeps_bind; [apply console_keeps, console_only_read_cmd|intros cmd].
  apply keeps_bind; [by intros m|intros v].
  destruct (String.eqb (lower cmd) "q").
  { apply console_keeps. destruct (remaining files (done v)) as [|p ps]; [apply console_only_ret|].
    repeat (apply console_only_bind; [apply console_only_print|intros _]).
    apply console_only_bind; [apply console_only_print_items|intros _].
    apply console_only_bind; [apply console_only_ask_yes_no|intros [|]]; [apply console_only_ret|].
    apply console_only_bind; [apply console_only_print|intros; apply console_only_ret]. }
  destruct (String.eqb (lower cmd) "r").
  { apply keeps_bind; [apply set_show_remaining_only_keeps|intros _].
    apply keeps_bind; [apply save_state_keeps|intros _].
    apply console_keeps, console_only_ret. }
  destruct (String.eqb (lower cmd) "m").
  { apply keeps_bind; [apply set_mode_keeps, cycle_mode_in_MODES|intros _].
    apply keeps_bind; [apply save_state_keeps|intros _].
    apply console_keeps, console_only_ret. }
  destruct (String.eqb (lower cmd) "a").
  { apply keeps_bind; [apply set_next_action_override_keeps|intros _].
    apply console_keeps, console_only_ret. }
  destruct (String.eqb (lower cmd) "p").
  { apply keeps_bind; [apply set_next_action_override_keeps|intros _].
    apply console_keeps, console_only_ret. }
  apply keeps_bind_ok; [apply console_keeps, console_only_resolve_command|].
  intros m [[action idx]|] m' Hm Hres.
  - apply resolve_command_range in Hres as Hr.
    apply on_entry_keeps; [done|lia|].
    pose proof (console_keeps files _ (console_only_resolve_command files cmd) m Hm) as H.
    by rewrite Hres in H.
  - pose proof (console_keeps files _ (console_only_resolve_command files cmd) m Hm) as H.
    by rewrite Hres in H.
Qed.

Lemma loop_pass_keeps os files dirs root m :
  NoDup files -> inv files m -> inv files (machine_of (loop_pass os files dirs root m)).
Proof.
  intros Hnd Hm. unfold loop_pass.
  pose proof (iteration_keeps os files dirs root Hnd m Hm) as H.
  destruct (iteration os files dirs root m) as [[[|]|[n|]] m']; simpl in *; try done.
  pose proof (on_interrupt_keeps os files dirs root m' H) as H'.
  by destruct (on_interrupt os files dirs root m') as [[?|?] m''].
Qed.

Lemma load_state_ok file files dirs root l :
  checkpoint_ok file ->
  load_state file files dirs root = Ok (Some l) ->
  length (l_done l) = length files /\
  (forall i p, files !! i = Some p ->
     (is_Some (l_contents l !! p) <-> l_done l !! i = Some true)) /\
  (forall p, is_Some (l_contents l !! p) -> p ∈ files) /\
  -1 <= l_cursor l < Z.of_nat (length files).
Proof.
  intros Hck Hload. destruct file as [|n|state]; [discriminate..|].
  destruct Hck as (now & files' & dirs' & root' & v & (Hlen & Hiff & Hkeys & Hcur & Hmode) & ->).
  destruct (decide (files = files' /\ dirs = dirs' /\ root = root')) as [(-> & -> & ->)|Hne].
  - rewrite load_saved_match in Hload by done. by injection Hload as <-.
  - rewrite load_saved_mismatch in Hload; [discriminate|].
    destruct (decide (files = files')); [|by left].
    destruct (decide (dirs = dirs')); [|by right; left].
    destruct (decide (root = root')); [|by right; right]. by destruct Hne.
Qed.

Lemma interactive_start_keeps mode files dirs root m0 m :
  mode ∈ MODES -> checkpoint_ok (checkpoint m0) ->
  interactive_start mode files dirs root m0 = (Ok tt, m) ->
  inv files m.
Proof.
  intros Hmode Hck. unfold interactive_start. run.
  destruct (load_state (checkpoint m0) files dirs root) as [[l|]|e] eqn:Hload;
    run; [| |discriminate].
  - intros [= <-]. split; [|done]. simpl.
    destruct (load_state_ok _ _ _ _ _ Hck Hload) as (H1 & H2 & H3 & H4).
    split; [exact H1|]. split; [exact H2|]. split; [exact H3|]. split; [exact H4|exact Hmode].
  - intros [= <-]. split; [|done]. simpl. by apply fresh_vars_ok.
Qed.

Lemma transition_ok c c' : transition c c' -> config_ok c -> config_ok c'.
Proof.
  intros Ht Hc. destruct Ht as
    [file mode files dirs root v0 inp m Hne Hnd Hmode Hstart
    |os files dirs root m m' Hpass
    |os files dirs root m s Hpass Hs
    |files dirs root m]; simpl in *.
  - split; [done|]. eapply interactive_start_keeps; [| |exact Hstart]; [|exact Hc].
    unfold MODES. destruct Hmode as [-> | ->];
      [apply list_elem_of_here|apply list_elem_of_further, list_elem_of_here].
  - destruct Hc as [Hnd Hm]. split; [done|].
    pose proof (loop_pass_keeps os files dirs root m Hnd Hm) as H. by rewrite Hpass in H.
  - destruct Hc as [Hnd Hm].
    pose proof (loop_pass_keeps os files dirs root m Hnd Hm) as H. rewrite Hpass in H.
    by destruct H.
  - by destruct Hc as [_ [_ H]].
Qed.

Lemma rtc_transition_ok c0 c : rtc transition c0 c -> config_ok c0 -> config_ok c.
Proof.
  induction 1 as [c|c1 c2 c3 Ht _ IH]; [done|].
  intros Hc. apply IH. by eapply transition_ok.
Qed.

Lemma reachable_ok c : reachable c -> config_ok c.
Proof.
  intros (c0 & Hblank & Hrtc). eapply rtc_transition_ok; [exact Hrtc|].
  by destruct Hblank as [-> | [n ->]].
Qed.

Lemma count_flags_paths (P : string -> Prop) `{!forall p, Decision (P p)} files :
  forall flags : list bool,
  length flags = length files ->
  (forall i p, files !! i = Some p -> (P p <-> flags !! i = Some true)) ->
  length (filter P files) = length (List.filter (fun x : bool => x) flags).
Proof.
  induction files as [|p files IH]; intros [|d flags] Hlen Hiff; try done.
  rewrite filter_cons. simpl.
  assert (Htl : length (filter P files) = length (List.filter (fun x : bool => x) flags)).
  { apply IH; [simpl in Hlen; lia|]. intros i q Hq. apply (Hiff (S i) q Hq). }
  pose proof (Hiff 0%nat p eq_refl) as H0. simpl in H0.
  destruct (decide (P p)) as [Hp|Hp], d; simpl; try lia.
  - apply H0 in Hp. discriminate.
  - destruct Hp. by apply H0.
Qed.

Lemma done_count_size files v :
  NoDup files -> session_ok files v ->
  done_count (done v) = Z.of_nat (size (contents v)).
Proof.
  intros Hnd (Hlen & Hiff & Hkeys & _). unfold done_count. f_equal.
  rewrite <- (count_flags_paths (fun p => is_Some (contents v !! p)) files) by done.
  rewrite <- (size_dom (D := gset string) (contents v)).
  rewrite <- (size_list_to_set (C := gset string)) by (by apply NoDup_filter).
  f_equal. apply set_eq. intros p.
  rewrite elem_of_list_to_set, list_elem_of_filter, elem_of_dom.
  specialize (Hkeys p). tauto.
Qed.

(** Claim C8, as amended (acquired iff content).  In every session the
    program can be in, starting from a disk without a readable checkpoint
    and over any number of runs (fresh start, acquisitions, mode and filter
    toggles, interrupts, and the load of a checkpoint that an earlier run
    saved), a path of the inventory has stored content exactly when its flag
    is set, and the number of set flags is the number of paths with content.
    The load of a record that the program did not write is not covered: it
    does not compare flags with contents. *)
Theorem acquired_iff_content_invariant files scan_dirs_abs rel_root m :
  reachable (Session files scan_dirs_abs rel_root m) ->
  (forall i p, files !! i = Some p ->
     (is_Some (contents (vars m) !! p) <-> done (vars m) !! i = Some true))
  /\ done_count (done (vars m)) = Z.of_nat (size (contents (vars m))).
Proof.
  intros Hr. apply reachable_ok in Hr as [Hnd [Hok _]]. split.
  - by destruct Hok as (_ & Hiff & _).
  - by eapply done_count_size.
Qed.

Lemma acquired_iff_content_witness :
  (is_Some (contents (vars sample_after_one_pass) !! "a.py")
   <-> done (vars sample_after_one_pass) !! 0%nat = Some true)
  /\ done_count (done (vars sample_after_one_pass))
     = Z.of_nat (size (contents (vars sample_after_one_pass))).
Proof.
  assert (Hr : reachable (Session sample_files ["/r"] "/r" sample_after_one_pass)).
  { exists (Idle Absent). split; [by left|].
    eapply rtc_l.
    { apply (t_launch Absent MODE_HYBRID sample_files ["/r"] "/r" sample_vars
               [Keys nl; Keys nl; Keys ("n" +:+ nl)] sample_started).
      - discriminate.
      - unfold sample_files. apply NoDup_cons. split.
        + rewrite list_elem_of_singleton. discriminate.
        + apply NoDup_singleton.
      - by left.
      - vm_compute. reflexivity. }
    eapply rtc_l; [|apply rtc_refl].
    apply (t_pass sample_os). vm_compute. reflexivity. }
  destruct (acquired_iff_content_invariant sample_files ["/r"] "/r" sample_after_one_pass Hr)
    as [Hiff Hcount].
  split; [exact (Hiff 0%nat "a.py" eq_refl)|exact Hcount].
Defined.

(** Claim C8 as stated fails for state load: a record with every field of
    its type, for this inventory, scan roots and root, but with a set flag
    for [a.py] and content for [b.py] only, is loaded as it is; the session
    starts with a flag set and no content for its path, and with content for
    a path whose flag is not set. *)
Lemma loaded_record_breaks_invariant :
  ~ (forall mode files scan_dirs_abs rel_root state m0 m,
       checkpoint m0 = Parsed state -> record_typed state files = true ->
       interactive_start mode files scan_dirs_abs rel_root m0 = (Ok tt, m) ->
       forall i p, files !! i = Some p ->
         (is_Some (contents (vars m) !! p) <-> done (vars m) !! i = Some true)).
Proof.
  intros H.
  specialize (H MODE_HYBRID sample_files ["/r"] "/r"
                (state_record "t" sample_files ["/r"] "/r" [true; false]
                   {[ "b.py" := "Y" ]} 0 false MODE_HYBRID)
                {| vars := sample_vars; stdin := [];
                   checkpoint := Parsed (state_record "t" sample_files ["/r"] "/r"
                                           [true; false] {[ "b.py" := "Y" ]} 0 false
                                           MODE_HYBRID);
                   stdout := [] |}
                _ eq_refl eq_refl eq_refl 0%nat "a.py" eq_refl).
  destruct H as [_ H]. destruct (H eq_refl) as [c Hc]. vm_compute in Hc. discriminate.
Qed.


Lemma capture_section_witness :
  exists pre post out,
    ["hello" +:+ nl; "  \END " +:+ nl; "next" +:+ nl] = pre ++ post /\
    Forall (fun l => l <> EmptyString /\ strip l <> SECTION_END_MARKER) pre /\
    (post = [] \/ exists t rest, post = t :: rest /\
                   (t = EmptyString \/ strip t = SECTION_END_MARKER)) /\
    capture_section "b.py" 1 2 sample_paste
    = (Ok (join pre),
       {| vars := sample_vars; stdin := Keys <$> tail post; checkpoint := Absent;
          stdout := out |}).
Proof.
  exact (capture_section_spec "b.py" 1 2 sample_paste
           ["hello" +:+ nl; "  \END " +:+ nl; "next" +:+ nl] eq_refl).
Defined.

Lemma advance_selects_witness :
  exists path, sample_files !! Z.to_nat 0 = Some path /\
    iteration sample_os sample_files ["/r"] "/r" sample_started
    = acquire sample_os sample_files ["/r"] "/r" None 0 path
        (prompted sample_started [Keys nl; Keys ("n" +:+ nl)]).
Proof.
  apply (proj1 (advance_selects_next_pending sample_os sample_files ["/r"] "/r" sample_started
                  nl [Keys nl; Keys ("n" +:+ nl)] eq_refl ltac:(discriminate) eq_refl
                  ltac:(discriminate) eq_refl) 0).
  change (first_pending_at [false; false] 0 0). unfold first_pending_at. simpl.
  split; [lia|]. split; [reflexivity|]. intros j Hj. lia.
Defined.


Lemma direct_read_check_order_witness :
  auto_read_file sample_os "/r" "b.py" = Ok (None, "not-found")
  /\ auto_read_file locked_os "/r" ".env" = Ok (None, "skip-name(.env)")
  /\ auto_read_file locked_os "/r" "server.PEM" = Ok (None, "skip-ext(.pem)").
Proof.
  split; [|split].
  - apply (proj1 (direct_read_check_order sample_os "/r" "b.py")). reflexivity.
  - apply (proj1 (proj2 (direct_read_check_order locked_os "/r" ".env"))); reflexivity.
  - apply (proj1 (proj2 (proj2 (direct_read_check_order locked_os "/r" "server.PEM"))));
      reflexivity.
Defined.

Lemma fallback_policy_witness :
  acquire sample_os sample_files ["/r"] "/r" None 1 "b.py" sample_auto
  = (Ok Continue,
     {| vars := cleared (vars sample_auto); stdin := [Keys ("y" +:+ nl)];
        checkpoint := Absent;
        stdout := [Print EmptyString; Print "[b.py] AUTO-READ failed/skipped: not-found"] |})
  /\ acquire sample_os sample_files ["/r"] "/r" None 1 "b.py" sample_hybrid
     = (Ok Continue,
        {| vars := cleared (vars sample_hybrid); stdin := [Keys nl];
           checkpoint := Absent;
           stdout := [Print EmptyString; Print "[b.py] AUTO-READ failed/skipped: not-found";
                      Prompt "Switch to PASTE mode for this file? (y/N) > ";
                      Print "Skipped. Move on to something else."] |}).
Proof.
  split.
  - apply (proj1 (fallback_policy sample_os sample_files ["/r"] "/r" None 1 "b.py" "not-found"
                    sample_auto eq_refl eq_refl)).
    reflexivity.
  - apply (proj1 (proj2 (proj2 (fallback_policy sample_os sample_files ["/r"] "/r" None 1
                                  "b.py" "not-found" sample_hybrid eq_refl eq_refl) eq_refl))
             ("no" +:+ nl) [Keys nl]); reflexivity.
Defined.


(** *** Examples *)

Example next_undone_index_wraps :
  next_undone_index [false; true; true] 1 = Ok (Some 0)
  /\ next_undone_index [true; true; false; false] 3 = Ok (Some 3)
  /\ next_undone_index [true; true] 1 = Ok None.
Proof. repeat split. Qed.

Example cycle_mode_cycle :
  cycle_mode MODE_HYBRID = MODE_PASTE /\ cycle_mode MODE_PASTE = MODE_AUTO
  /\ cycle_mode MODE_AUTO = MODE_HYBRID.
Proof. repeat split. Qed.

Example read_null_byte :
  auto_read_file binary_os "/r" "a.py" = Ok (None, "binary-detected(NULL)").
Proof. reflexivity. Qed.

Example read_decodes_text :
  auto_read_file sample_os "/r" "a.py" = Ok (Some ("X" +:+ nl), "ok(utf-8)").
Proof. reflexivity. Qed.

Example read_too_large :
  auto_read_file
    {| path_exists := fun _ => true; getsize := fun _ => Returns 5242881;
       read_binary := fun _ => Returns []; decode := fun _ _ => Returns EmptyString;
       write_text := fun _ => Returns tt; now_isoformat := EmptyString |}
    "/r" "big.sql"
  = Ok (None, "too-large(5242881 bytes)").
Proof. vm_compute. reflexivity. Qed.

Example bundle_two_files :
  build_bundle_text "T" "/r" ["a.py"; "b.sql"]
    {[ "a.py" := "X" +:+ nl; "b.sql" := "Y" ]} ∅
  = join ((fun line => line +:+ nl) <$>
      ["=== BUNDLE GENERATED: T ===";
       "=== REL_ROOT: /r ===";
       "";
       "=== FILE: a.py ===";
       "X";
       "=== END FILE: a.py ===";
       "";
       "=== FILE: b.sql ===";
       "Y";
       "=== END FILE: b.sql ===";
       ""]).
Proof. vm_compute. reflexivity. Qed.

Example bundle_with_skip_block :
  build_bundle_text "T" "/r" ["a.py"; "b.sql"; "c.js"]
    {[ "b.sql" := EmptyString ]} {[ "c.js" := "not-found"; "a.py" := "decode-failed" ]}
  = join ((fun line => line +:+ nl) <$>
      ["=== BUNDLE GENERATED: T ===";
       "=== REL_ROOT: /r ===";
       "=== SKIPPED (auto-read) ===";
       "- a.py :: decode-failed";
       "- c.js :: not-found";
       "";
       "";
       "=== FILE: b.sql ===";
       "=== END FILE: b.sql ===";
       ""]).
Proof. vm_compute. reflexivity. Qed.

Example capture_until_marker :
  fst (capture_section "b.py" 1 2 sample_paste) = Ok ("hello" +:+ nl)
  /\ stdin (snd (capture_section "b.py" 1 2 sample_paste)) = [Keys ("next" +:+ nl)].
Proof. split; vm_compute; reflexivity. Qed.

Example capture_until_end_of_input :
  fst (capture_section "b.py" 1 2 (sample_machine [Keys ("one" +:+ nl); Keys "two"]))
  = Ok ("one" +:+ nl +:+ "two").
Proof. vm_compute. reflexivity. Qed.

(** [load_state] does not compare the flags it loads with the contents it
    keeps: a record that [save_state] cannot have written may load into a
    state with a set flag and no content.  (A session of the run relation
    never meets such a record.) *)
Remark load_state_foreign_record :
  exists l, load_state (Parsed foreign_record) ["a.py"] ["/r"] "/r" = Ok (Some l)
            /\ l_done l = [true] /\ l_contents l = ∅.
Proof. eexists. split; [vm_compute; reflexivity|]. split; reflexivity. Qed.

(* ===================================================================== *)
(** ** Further properties *)
(* ===================================================================== *)

(** *** A program logic for the loop body *)

Lemma triple_bind {A B} P (c : prog A) Q (f : A -> prog B) R E :
  triple P c Q E -> (forall a, triple (Q a) (f a) R E) -> triple P (c ≫= f) R E.
Proof.
  intros Hc Hf m Hm. unfold mbind, prog_bind. specialize (Hc m Hm).
  destruct (c m) as [[a|e] m']; [|exact Hc]. by apply Hf.
Qed.

Lemma triple_conseq {A} (P P' : machine -> Prop) (c : prog A)
    (Q Q' : A -> machine -> Prop) (E E' : exn -> machine -> Prop) :
  (forall m, P' m -> P m) -> (forall a m, Q a m -> Q' a m) ->
  (forall e m, E e m -> E' e m) ->
  triple P c Q E -> triple P' c Q' E'.
Proof.
  intros HP HQ HE Hc m Hm. specialize (Hc m (HP m Hm)).
  destruct (c m) as [[a|e] m']; auto.
Qed.

Lemma triple_ret {A} (P : machine -> Prop) (a : A) (Q : A -> machine -> Prop) E :
  (forall m, P m -> Q a m) -> triple P (mret a) Q E.
Proof. intros H m Hm. by apply H. Qed.

Lemma triple_get_vars (P : machine -> Prop) E :
  triple P get_vars (fun v m => P m /\ v = vars m) E.
Proof. by intros m Hm. Qed.

Lemma triple_lift {A} (P : machine -> Prop) (r : result A) :
  triple P (lift r) (fun a m => P m /\ r = Ok a) (fun e m => P m /\ r = Raise e).
Proof. intros m Hm. unfold lift. by destruct r. Qed.

Lemma triple_console {A} (P : machine -> Prop) (K : exn -> Prop) (c : prog A) :
  console_only c -> raises_only K c -> on_state P ->
  triple P c (fun _ => P) (fun e m => P m /\ K e).
Proof.
  intros Hc Hk HP m Hm. destruct (Hc m) as [Hv Hf]. specialize (Hk m).
  destruct (c m) as [[a|e] m']; simpl in *.
  - by apply (HP m).
  - split; [by apply (HP m)|]. by eapply Hk.
Qed.

Lemma raises_only_bind {A B} K (c : prog A) (f : A -> prog B) :
  raises_only K c -> (forall a, raises_only K (f a)) -> raises_only K (c ≫= f).
Proof.
  intros Hc Hf m e m'. unfold mbind, prog_bind.
  destruct (c m) as [[a|e'] m1] eqn:Ec.
  - apply Hf.
  - intros [= <- <-]. by eapply Hc.
Qed.

Lemma raises_only_ret {A} K (a : A) : raises_only K (mret a).
Proof. by intros m e m'. Qed.

Lemma raises_only_print K s : raises_only K (print s).
Proof. by intros m e m'. Qed.

Lemma raises_only_emit K o : raises_only K (emit o).
Proof. by intros m e m'. Qed.

Lemma raises_only_weaken {A} (K K' : exn -> Prop) (c : prog A) :
  (forall e, K e -> K' e) -> raises_only K c -> raises_only K' c.
Proof. intros H Hc m e m' Hr. eapply H, Hc, Hr. Qed.

Lemma raises_only_readline : raises_only (fun e => e = KeyboardInterrupt) readline.
Proof.
  intros m e m'. unfold readline. destruct (stdin m) as [|[line|] rest]; try done.
  by intros [= <- <-].
Qed.

Lemma raises_only_input prompt :
  raises_only (fun e => e = EOFError \/ e = KeyboardInterrupt) (input prompt).
Proof.
  unfold input. apply raises_only_bind; [apply raises_only_emit|intros _].
  apply raises_only_bind.
  - eapply raises_only_weaken; [|apply raises_only_readline]. by right.
  - intros line m e m'. destruct line; [|done]. intros [= <- <-]. by left.
Qed.

Lemma raises_only_try {A} (K : exn -> Prop) (body handler : prog A) :
  raises_only (fun e => e = EOFError \/ K e) body -> raises_only K handler ->
  (forall e, K e -> is_EOFError e = false) ->
  raises_only K (try_except_EOFError body handler).
Proof.
  intros Hb Hh Hk m e m'. unfold try_except_EOFError.
  destruct (body m) as [[a|e'] m1] eqn:Eb; [done|].
  destruct (is_EOFError e') eqn:Ee.
  - apply Hh.
  - intros [= <- <-]. destruct (Hb _ _ _ Eb) as [-> | H]; [done|exact H].
Qed.

Lemma raises_only_read_cmd : raises_only (fun e => e = KeyboardInterrupt) read_cmd.
Proof.
  apply raises_only_try; [|apply raises_only_ret|by intros e ->].
  apply raises_only_bind; [apply raises_only_input|intros; apply raises_only_ret].
Qed.

Lemma raises_only_ask_yes_no prompt d :
  raises_only (fun e => e = KeyboardInterrupt) (ask_yes_no prompt d).
Proof.
  apply raises_only_try; [|apply raises_only_ret|by intros e ->].
  apply raises_only_bind; [apply raises_only_input|intros s].
  cbv zeta. repeat case_match; apply raises_only_ret.
Qed.

Lemma capture_loop_raises path step inp : forall lines count out e rest out',
  capture_loop path step lines count inp out = (Raise e, rest, out') ->
  e = KeyboardInterrupt.
Proof.
  induction inp as [|[line|] inp IH]; intros lines count out e rest out'; simpl.
  - done.
  - repeat case_match; try done; apply IH.
  - by intros [= <- <- <-].
Qed.

Lemma raises_only_capture_section path index total :
  raises_only (fun e => e = KeyboardInterrupt) (capture_section path index total).
Proof.
  unfold capture_section.
  repeat (apply raises_only_bind; [apply raises_only_print|intros _]).
  apply raises_only_bind; [|intros; apply raises_only_ret].
  intros m e m'. unfold capture_lines.
  destruct (capture_loop _ _ _ _ _ _) as [[r rest] out] eqn:El.
  intros [= -> <-]. by eapply capture_loop_raises.
Qed.

Lemma raises_only_print_items K ps : raises_only K (print_items ps).
Proof.
  induction ps as [|p ps IH]; simpl; [apply raises_only_ret|].
  apply raises_only_bind; [apply raises_only_print|by intros _].
Qed.

(** *** One pass, whatever the command *)

Lemma index_raises {A} (xs : list A) i e : index xs i = Raise e -> e = IndexError.
Proof. unfold index. repeat case_match; congruence. Qed.

Lemma first_undone_raises done e : forall idxs, first_undone done idxs = Raise e -> e = IndexError.
Proof.
  induction idxs as [|i idxs IH]; simpl; [done|].
  destruct (index done i) as [d|e0] eqn:Ei; simpl.
  - destruct d; simpl; [exact IH|done].
  - intros [= <-]. by eapply index_raises.
Qed.

Lemma next_undone_index_raises done start e :
  next_undone_index done start = Raise e -> e = IndexError.
Proof.
  unfold next_undone_index.
  destruct (first_undone done (range start _)) as [[i|]|e0] eqn:E1; simpl; [done| |].
  - apply first_undone_raises.
  - intros [= <-]. by eapply first_undone_raises.
Qed.

Lemma int_raises s e : int s = Raise e -> e = ValueError.
Proof. unfold int. destruct s; [congruence|]. case_match; congruence. Qed.

Section pass.
Variables (os : services) (files scan_dirs_abs : list string) (rel_root : string).
Variable m0 : machine.

Let kept := untouched m0.
Let PassOk {A} : A -> machine -> Prop := fun _ => pass_ok os files scan_dirs_abs rel_root m0.
Let PassExn := pass_exn os files m0.

Lemma kept_on_state : on_state kept.
Proof. intros m m' Hv Hc [H1 H2]. unfold kept, untouched. by rewrite Hv, Hc. Qed.

Lemma kept_interrupt e m : kept m /\ e = KeyboardInterrupt -> PassExn e m.
Proof. intros [[H1 H2] ->]. split; [done|]. by left. Qed.

(** Console work from an unchanged state. *)
Lemma triple_kept_console {A} (c : prog A) :
  console_only c -> raises_only (fun e => e = KeyboardInterrupt) c ->
  triple kept c (fun _ => kept) PassExn.
Proof.
  intros Hc Hk.
  apply (triple_conseq kept kept c (fun _ => kept) (fun _ => kept)
           (fun e m => kept m /\ e = KeyboardInterrupt) PassExn);
    [done|done|apply kept_interrupt|].
  apply triple_console; [done|done|apply kept_on_state].
Qed.

Lemma triple_save_state :
  triple (fun m => checkpoint m = checkpoint m0)
         (save_state os files scan_dirs_abs rel_root)
         (fun _ m => write_text os STATE_FILE = Returns tt
                     /\ synced os files scan_dirs_abs rel_root m)
         PassExn.
Proof.
  intros m Hm. unfold save_state.
  destruct (write_text os STATE_FILE) as [[]|n] eqn:Ew.
  - split; [done|]. reflexivity.
  - split; [done|]. right. right. left. by exists n.
Qed.

Lemma synced_on_state : on_state (fun m => write_text os STATE_FILE = Returns tt
                                          /\ synced os files scan_dirs_abs rel_root m).
Proof. intros m m' Hv Hc [H1 H2]. split; [done|]. unfold synced. by rewrite Hv, Hc. Qed.

(** The tail of a mutating branch: save, say so, continue. *)
Lemma triple_autosave_continue :
  triple (fun m => checkpoint m = checkpoint m0)
         (autosave os files scan_dirs_abs rel_root;; mret Continue)
         PassOk PassExn.
Proof.
  unfold autosave.
  eapply triple_bind; [|intros ?; apply triple_ret; intros m H; right; exact H].
  eapply triple_bind; [apply triple_save_state|intros ?].
  intros m Hm. exact (synced_on_state m _ eq_refl eq_refl Hm).
Qed.

Lemma triple_save_continue :
  triple (fun m => checkpoint m = checkpoint m0)
         (save_state os files scan_dirs_abs rel_root;; mret Continue)
         PassOk PassExn.
Proof.
  eapply triple_bind; [apply triple_save_state|intros ?].
  apply triple_ret. intros m H. by right.
Qed.

Lemma triple_store path idx content :
  0 <= idx < Z.of_nat (length files) ->
  triple kept (store path idx content)
         (fun _ m => checkpoint m = checkpoint m0) PassExn.
Proof.
  intros Hidx m [Hs Hc]. unfold store. run.
  destruct (setitem (done (vars m)) idx true) as [d|e] eqn:Es; simpl; [done|].
  split; [done|]. right. right. right. unfold setitem in Es.
  injection Hs as Hd _ _ _ _. rewrite Hd in Es.
  destruct ((0 <=? idx) && (idx <? Z.of_nat (length (done (vars m0))))) eqn:Eb; [done|].
  injection Es as <-. split; [|by left]. intros [_ Hlen]. lia.
Qed.

Lemma triple_stored path idx content msg :
  0 <= idx < Z.of_nat (length files) ->
  triple kept
    (store path idx content;; print msg;; autosave os files scan_dirs_abs rel_root;;
     mret Continue)
    PassOk PassExn.
Proof.
  intros Hidx.
  eapply triple_bind; [by apply triple_store|intros ?].
  eapply triple_bind; [|intros ?; apply triple_autosave_continue].
  intros m Hm. exact Hm.
Qed.

Lemma triple_paste_branch idx path :
  0 <= idx < Z.of_nat (length files) ->
  triple kept (paste_branch os files scan_dirs_abs rel_root idx path) PassOk PassExn.
Proof.
  intros Hidx. unfold paste_branch.
  eapply triple_bind.
  - apply triple_kept_console;
      [apply console_only_capture_section|apply raises_only_capture_section].
  - intros content. by apply triple_stored.
Qed.

Lemma triple_auto_branch idx path :
  0 <= idx < Z.of_nat (length files) ->
  triple kept (auto_branch os files scan_dirs_abs rel_root idx path) PassOk PassExn.
Proof.
  intros Hidx. unfold auto_branch.
  eapply triple_bind; [apply triple_get_vars|intros v].
  eapply triple_bind with (Q := fun _ => kept).
  { intros m [Hm _]. unfold lift.
    destruct (auto_read_file_total os rel_root path) as (c & w & -> & _). exact Hm. }
  intros [content why].
  eapply triple_bind with (Q := fun _ => kept).
  - destruct content as [c|]; [by apply triple_ret|].
    apply triple_kept_console.
    + apply console_only_bind; [apply console_only_print|intros ?].
      apply console_only_bind; [apply console_only_print|intros ?].
      destruct (String.eqb (mode v) MODE_HYBRID); [|apply console_only_ret].
      apply console_only_bind; [apply console_only_ask_yes_no|intros [|]].
      * apply console_only_bind; [apply console_only_capture_section|intros; apply console_only_ret].
      * apply console_only_bind; [apply console_only_print|intros; apply console_only_ret].
    + apply raises_only_bind; [apply raises_only_print|intros ?].
      apply raises_only_bind; [apply raises_only_print|intros ?].
      destruct (String.eqb (mode v) MODE_HYBRID); [|apply raises_only_ret].
      apply raises_only_bind; [apply raises_only_ask_yes_no|intros [|]].
      * apply raises_only_bind; [apply raises_only_capture_section|intros; apply raises_only_ret].
      * apply raises_only_bind; [apply raises_only_print|intros; apply raises_only_ret].
  - intros [content'|]; [by apply triple_stored|].
    apply triple_ret. intros m Hm. by left.
Qed.

Lemma triple_acquire action idx path :
  0 <= idx < Z.of_nat (length files) ->
  triple kept (acquire os files scan_dirs_abs rel_root action idx path) PassOk PassExn.
Proof.
  intros Hidx m Hm. rewrite acquire_eq.
  assert (Hm' : kept (with_vars m (cleared (vars m)))) by (by destruct Hm).
  destruct (String.eqb _ "a").
  - by apply triple_auto_branch.
  - by apply triple_paste_branch.
Qed.

Lemma triple_confirm_overwrite path idx :
  0 <= idx < Z.of_nat (length files) ->
  triple kept (confirm_overwrite path idx) (fun _ => kept) PassExn.
Proof.
  intros Hidx. unfold confirm_overwrite.
  eapply triple_bind; [apply triple_get_vars|intros v].
  eapply triple_bind with (Q := fun _ => kept).
  { intros m [[Hs Hc] ->]. unfold lift.
    destruct (index (done (vars m)) idx) as [d|e] eqn:Ei; [done|].
    split; [done|]. right. right. right.
    split; [|left; by eapply index_raises].
    intros [_ Hlen]. injection Hs as Hd _ _ _ _. rewrite Hd in Ei.
    destruct (index_in_range (done (vars m0)) idx) as (x & _ & Hx); [lia|].
    rewrite Hx in Ei. discriminate. }
  intros [|]; [|by apply triple_ret].
  eapply triple_bind.
  - apply triple_kept_console; [apply console_only_ask_yes_no|apply raises_only_ask_yes_no].
  - intros [|]; [by apply triple_ret|].
    eapply triple_bind;
      [apply triple_kept_console; [apply console_only_print|apply raises_only_print]|].
    intros ?. by apply triple_ret.
Qed.

Lemma triple_on_entry picked :
  (forall action idx, picked = Some (action, idx) -> 0 <= idx < Z.of_nat (length files)) ->
  triple kept (on_entry os files scan_dirs_abs rel_root picked) PassOk PassExn.
Proof.
  intros Hr. destruct picked as [[action idx]|]; simpl.
  2:{ apply triple_ret. intros m Hm. by left. }
  specialize (Hr action idx eq_refl).
  eapply triple_bind with (Q := fun _ => kept).
  { intros m Hm. unfold lift.
    destruct (index_in_range files idx Hr) as (p & _ & ->). exact Hm. }
  intros path.
  eapply triple_bind; [by apply triple_confirm_overwrite|].
  intros [|]; [by apply triple_acquire|].
  apply triple_ret. intros m Hm. by left.
Qed.

(** What [int] and the scan may raise while a command is resolved. *)
Lemma resolve_command_raises cmd m e m' :
  resolve_command files cmd m = (Raise e, m') ->
  e = ValueError \/ (~ shaped files (vars m) /\ (e = IndexError \/ e = ZeroDivisionError)).
Proof.
  unfold resolve_command. unfold mbind at 1. unfold prog_bind at 1. cbn [get_vars].
  set (plain := if String.eqb cmd EmptyString then _ else _).
  assert (Hplain : forall r m1, plain m = (r, m1) ->
            forall e, r = Raise e ->
              e = ValueError \/ (~ shaped files (vars m) /\ (e = IndexError \/ e = ZeroDivisionError))).
  { unfold plain. intros r m1. destruct (String.eqb cmd EmptyString).
    - destruct (0 <=? cursor (vars m)) eqn:Ec.
      + destruct (Z.of_nat (length (done (vars m))) =? 0) eqn:En.
        * run. intros [= <- <-] e' [= <-]. right. split; [|by right].
          intros [Hne Hlen]. destruct files; [done|]. simpl in Hlen. lia.
        * run.
          destruct (next_undone_index_cases (done (vars m))
                      ((cursor (vars m) + 1) mod Z.of_nat (length (done (vars m)))))
            as [(k & _ & ->) | [-> _]]; [apply Z.mod_pos_bound; lia| |].
          -- run. by intros [= <- <-].
          -- run. by intros [= <- <-].
      + run. destruct (next_undone_index (done (vars m)) 0) as [[i|]|e0] eqn:En; run.
        * by intros [= <- <-].
        * by intros [= <- <-].
        * intros [= <- <-] e' [= <-]. right.
          split; [|left; by eapply next_undone_index_raises].
          intros [Hne Hlen].
          destruct (next_undone_index_cases (done (vars m)) 0)
            as [(k & _ & Hk) | [Hk _]]; [|congruence..].
          destruct files; [done|]. simpl in Hlen. lia.
    - destruct (negb (isdigit cmd)); run; [by intros [= <- <-]|].
      destruct (int cmd) as [i|e0] eqn:Ei; intros [= <- <-] e' [= <-].
      left. by eapply int_raises. }
  unfold mbind at 1. unfold prog_bind at 1.
  assert (Hpick : forall r m1,
    match split cmd with
    | [p0; p1] =>
        if str_in (lower p0) ["a"; "p"] && isdigit p1
        then idx ← lift (int p1); mret (Some (Some (lower p0), idx))
        else plain
    | _ => plain
    end m = (r, m1) -> forall e, r = Raise e ->
              e = ValueError \/ (~ shaped files (vars m) /\ (e = IndexError \/ e = ZeroDivisionError))).
  { intros r m1. destruct (split cmd) as [|p0 [|p1 [|]]]; try apply Hplain.
    destruct (str_in (lower p0) ["a"; "p"] && isdigit p1); [|apply Hplain].
    run. destruct (int p1) as [i|e0] eqn:Ei; intros [= <- <-] e' [= <-].
    left. by eapply int_raises. }
  match goal with |- context [match ?c m with _ => _ end] =>
    destruct (c m) as [[picked|e1] m1] eqn:Ep end.
  - destruct picked as [[a i]|]; [|done].
    destruct ((i <? 0) || (Z.of_nat (length files) <=? i)); run; discriminate.
  - intros [= <- <-]. by eapply Hpick.
Qed.

Lemma triple_resolve_command cmd :
  triple kept (resolve_command files cmd)
    (fun picked m => kept m /\
       forall action idx, picked = Some (action, idx) -> 0 <= idx < Z.of_nat (length files))
    PassExn.
Proof.
  intros m Hm.
  pose proof (console_only_resolve_command files cmd m) as [Hv Hc].
  destruct (resolve_command files cmd m) as [[picked|e] m'] eqn:Er; simpl in *.
  - split; [by apply (kept_on_state m)|].
    intros action idx ->. by eapply resolve_command_range.
  - pose proof (kept_on_state m m' Hv Hc Hm) as [Hs' Hc'].
    split; [done|].
    destruct (resolve_command_raises _ _ _ _ Er) as [-> | [Hn Hk]]; [by right; left|].
    right. right. right. split; [|done]. intros [Hne Hlen]. apply Hn. split; [done|].
    destruct Hm as [Hs _]. injection Hs as -> _ _ _ _. done.
Qed.

Lemma triple_iteration :
  triple (fun m => m = m0) (iteration os files scan_dirs_abs rel_root) PassOk PassExn.
Proof.
  unfold iteration.
  assert (H0 : forall m, m = m0 -> kept m) by (by intros m ->).
  eapply triple_conseq with (P := kept) (Q := PassOk) (E := PassExn); [exact H0|done|done|].
  clear H0.
  eapply triple_bind;
    [apply triple_kept_console; [apply console_only_emit|apply raises_only_emit]|intros ?].
  eapply triple_bind;
    [apply triple_kept_console; [apply console_only_read_cmd|apply raises_only_read_cmd]
    |intros cmd].
  eapply triple_bind; [apply triple_get_vars|intros v].
  destruct (String.eqb (lower cmd) "q").
  { eapply triple_conseq with (P := kept) (Q := fun _ => kept) (E := PassExn);
      [by intros m [H _]|by intros c m H; left|done|].
    apply triple_kept_console.
    - destruct (remaining files (done v)) as [|p ps]; [apply console_only_ret|].
      repeat (apply console_only_bind; [apply console_only_print|intros ?]).
      apply console_only_bind; [apply console_only_print_items|intros ?].
      apply console_only_bind; [apply console_only_ask_yes_no|intros [|]];
        [apply console_only_ret|].
      apply console_only_bind; [apply console_only_print|intros; apply console_only_ret].
    - destruct (remaining files (done v)) as [|p ps]; [apply raises_only_ret|].
      repeat (apply raises_only_bind; [apply raises_only_print|intros ?]).
      apply raises_only_bind; [apply raises_only_print_items|intros ?].
      apply raises_only_bind; [apply raises_only_ask_yes_no|intros [|]];
        [apply raises_only_ret|].
      apply raises_only_bind; [apply raises_only_print|intros; apply raises_only_ret]. }
  destruct (String.eqb (lower cmd) "r").
  { eapply triple_bind; [|intros ?; apply triple_save_continue].
    intros m [[_ Hc] _]. exact Hc. }
  destruct (String.eqb (lower cmd) "m").
  { eapply triple_bind; [|intros ?; apply triple_save_continue].
    intros m [[_ Hc] _]. exact Hc. }
  destruct (String.eqb (lower cmd) "a").
  { intros m [Hm _]. by left. }
  destruct (String.eqb (lower cmd) "p").
  { intros m [Hm _]. by left. }
  eapply triple_bind.
  - eapply triple_conseq with (P := kept); [by intros m [H _]|done|done|].
    apply triple_resolve_command.
  - intros picked m [Hm Hr]. by apply triple_on_entry.
Qed.

End pass.

(** *** What a pass leaves behind *)

Lemma iteration_outcome os files dirs root m :
  match iteration os files dirs root m with
  | (Ok _, m') => pass_ok os files dirs root m m'
  | (Raise e, m') => pass_exn os files m e m'
  end.
Proof. exact (triple_iteration os files dirs root m m eq_refl). Qed.

Lemma on_interrupt_eq os files dirs root m :
  on_interrupt os files dirs root m
  = save_state os files dirs root
      (wrote (wrote m [Print EmptyString])
             [Print (color "KeyboardInterrupt detected. Saving state and exiting.")]).
Proof. reflexivity. Qed.

Lemma interrupted_pass os files dirs root m m1 :
  iteration os files dirs root m = (Raise KeyboardInterrupt, m1) ->
  session_state (vars m1) = session_state (vars m) /\ checkpoint m1 = checkpoint m.
Proof.
  intros Hi. pose proof (iteration_outcome os files dirs root m) as H. rewrite Hi in H.
  destruct H as [Hc [[_ Hs]|[[He _]|[(n & _ & He)|[_ [He|He]]]]]]; done.
Qed.

Lemma pass_outcome os files dirs root m :
  match loop_pass os files dirs root m with
  | Running m' | Finishing m' =>
      untouched m m'
      \/ (write_text os STATE_FILE = Returns tt /\ synced os files dirs root m')
  | Crashed _ m' => checkpoint m' = checkpoint m
  end.
Proof.
  unfold loop_pass.
  pose proof (iteration_outcome os files dirs root m) as H.
  destruct (iteration os files dirs root m) as [[[|]|[n|]] m1] eqn:Hi; try exact H.
  - by destruct H.
  - apply interrupted_pass in Hi as [Hs Hc]. rewrite on_interrupt_eq.
    unfold save_state. destruct (write_text os STATE_FILE) as [[]|n] eqn:Ew; simpl.
    + right. split; [done|]. reflexivity.
    + done.
Qed.


(** X2 (interrupt).  When Ctrl-C ends a pass, the variables are those of the
    start of the pass (a paste under way is dropped); the handler then saves
    them and the loop is left, or, if the state file cannot be written, the
    program stops on that error with the old checkpoint in place. *)
Theorem interrupt_saves_pass_start os files dirs root m m1 :
  iteration os files dirs root m = (Raise KeyboardInterrupt, m1) ->
  session_state (vars m1) = session_state (vars m) /\
  match write_text os STATE_FILE with
  | Returns _ =>
      exists m2, loop_pass os files dirs root m = Finishing m2
                 /\ session_state (vars m2) = session_state (vars m)
                 /\ synced os files dirs root m2
  | Raises n =>
      exists m2, loop_pass os files dirs root m = Crashed (Exception n) m2
                 /\ session_state (vars m2) = session_state (vars m)
                 /\ checkpoint m2 = checkpoint m
  end.
Proof.
  intros Hi. destruct (interrupted_pass _ _ _ _ _ _ Hi) as [Hs Hc]. split; [done|].
  unfold loop_pass. rewrite Hi, on_interrupt_eq. unfold save_state.
  destruct (write_text os STATE_FILE) as [[]|n]; simpl; eexists; (split; [reflexivity|]);
    simpl; split; done.
Qed.

Lemma interrupt_saves_pass_start_witness :
  session_state (vars (snd (iteration sample_os sample_files ["/r"] "/r"
                              (half_done [Keys nl; Keys ("half a file" +:+ nl); Interrupt]))))
  = session_state (vars (half_done []))
  /\ exists m2,
       loop_pass sample_os sample_files ["/r"] "/r"
         (half_done [Keys nl; Keys ("half a file" +:+ nl); Interrupt]) = Finishing m2
       /\ session_state (vars m2) = session_state (vars (half_done []))
       /\ synced sample_os sample_files ["/r"] "/r" m2.
Proof.
  apply (interrupt_saves_pass_start sample_os sample_files ["/r"] "/r"
           (half_done [Keys nl; Keys ("half a file" +:+ nl); Interrupt])
           (snd (iteration sample_os sample_files ["/r"] "/r"
                   (half_done [Keys nl; Keys ("half a file" +:+ nl); Interrupt])))).
  vm_compute. reflexivity.
Defined.



(** *** Nothing collected is lost *)

Lemma progressed_refl v : progressed v v.
Proof. by split. Qed.

Lemma progressed_stored v0 v path idx content :
  progressed v0 v -> progressed v0 (stored v path idx content).
Proof.
  intros (Hl & Hd & Hc). unfold progressed, stored. simpl.
  split; [by rewrite length_insert|]. split.
  - intros i Hi. specialize (Hd i Hi).
    destruct (decide (i = Z.to_nat idx)) as [->|Hne].
    + rewrite list_lookup_insert_eq; [done|]. by eapply lookup_lt_Some.
    + by rewrite list_lookup_insert_ne.
  - intros p Hp. specialize (Hc p Hp).
    destruct (decide (p = path)) as [->|Hne].
    + rewrite lookup_insert_eq. eauto.
    + by rewrite lookup_insert_ne.
Qed.

Section progress.
Variables (os : services) (files scan_dirs_abs : list string) (rel_root : string).
Variable v0 : locals.

Let I (m : machine) : Prop := progressed v0 (vars m).

Lemma console_progress {A} (c : prog A) : console_only c -> keeps I c.
Proof. intros H m Hm. destruct (H m) as [Hv _]. unfold I. by rewrite Hv. Qed.

Lemma save_state_progress : keeps I (save_state os files scan_dirs_abs rel_root).
Proof. intros m Hm. unfold I. by rewrite save_state_vars. Qed.

Lemma autosave_progress : keeps I (autosave os files scan_dirs_abs rel_root).
Proof.
  apply keeps_bind; [apply save_state_progress|intros ?].
  apply console_progress, console_only_print.
Qed.

Lemma store_progress path idx content : keeps I (store path idx content).
Proof.
  intros m Hm. unfold store, setitem. run.
  destruct ((0 <=? idx) && (idx <? Z.of_nat (length (done (vars m))))) eqn:Eb; simpl.
  - by apply progressed_stored.
  - destruct Hm as (Hl & Hd & Hc). split; [done|]. split; [done|].
    intros p Hp. specialize (Hc p Hp). simpl.
    destruct (decide (p = path)) as [->|Hne].
    + rewrite lookup_insert_eq. eauto.
    + by rewrite lookup_insert_ne.
Qed.

Lemma stored_progress path idx content msg :
  keeps I (store path idx content;; print msg;;
           autosave os files scan_dirs_abs rel_root;; mret Continue).
Proof.
  apply keeps_bind; [apply store_progress|intros ?].
  apply keeps_bind; [apply console_progress, console_only_print|intros ?].
  apply keeps_bind; [apply autosave_progress|intros ?].
  apply console_progress, console_only_ret.
Qed.

Ltac console_tree :=
  repeat first
    [ apply console_only_ret | apply console_only_print | apply console_only_emit
    | apply console_only_lift | apply console_only_raise | apply console_only_read_cmd
    | apply console_only_ask_yes_no | apply console_only_capture_section
    | apply console_only_print_items | apply console_only_resolve_command
    | apply console_only_confirm_overwrite
    | apply console_only_bind; [|intros ?]
    | match goal with |- console_only (if ?b then _ else _) => destruct b end
    | match goal with |- console_only (match ?x with _ => _ end) => destruct x end ].

Lemma paste_branch_progress idx path :
  keeps I (paste_branch os files scan_dirs_abs rel_root idx path).
Proof.
  unfold paste_branch.
  apply keeps_bind; [apply console_progress; console_tree|intros content].
  apply stored_progress.
Qed.

Lemma auto_branch_progress idx path :
  keeps I (auto_branch os files scan_dirs_abs rel_root idx path).
Proof.
  unfold auto_branch.
  apply keeps_bind; [by intros m|intros v].
  apply keeps_bind; [apply console_progress; console_tree|intros [content why]].
  apply keeps_bind; [apply console_progress; console_tree|].
  intros [content'|]; [apply stored_progress|apply console_progress; console_tree].
Qed.

Lemma acquire_progress action idx path :
  keeps I (acquire os files scan_dirs_abs rel_root action idx path).
Proof.
  intros m Hm. rewrite acquire_eq.
  assert (Hm' : I (with_vars m (cleared (vars m)))) by exact Hm.
  destruct (String.eqb _ "a").
  - by apply auto_branch_progress.
  - by apply paste_branch_progress.
Qed.

Lemma on_entry_progress picked :
  keeps I (on_entry os files scan_dirs_abs rel_root picked).
Proof.
  destruct picked as [[action idx]|]; simpl; [|apply console_progress; console_tree].
  apply keeps_bind; [apply console_progress; console_tree|intros path].
  apply keeps_bind; [apply console_progress; console_tree|intros [|]].
  - apply acquire_progress.
  - apply console_progress; console_tree.
Qed.

Lemma iteration_progress : keeps I (iteration os files scan_dirs_abs rel_root).
Proof.
  unfold iteration.
  apply keeps_bind; [apply console_progress; console_tree|intros ?].
  apply keeps_bind; [apply console_progress; console_tree|intros cmd].
  apply keeps_bind; [by intros m|intros v].
  destruct (String.eqb (lower cmd) "q"); [apply console_progress; console_tree|].
  destruct (String.eqb (lower cmd) "r").
  { apply keeps_bind; [intros m Hm; exact Hm|intros ?].
    apply keeps_bind; [apply save_state_progress|intros ?].
    apply console_progress; console_tree. }
  destruct (String.eqb (lower cmd) "m").
  { apply keeps_bind; [intros m Hm; exact Hm|intros ?].
    apply keeps_bind; [apply save_state_progress|intros ?].
    apply console_progress; console_tree. }
  destruct (String.eqb (lower cmd) "a").
  { apply keeps_bind; [intros m Hm; exact Hm|intros ?].
    apply console_progress; console_tree. }
  destruct (String.eqb (lower cmd) "p").
  { apply keeps_bind; [intros m Hm; exact Hm|intros ?].
    apply console_progress; console_tree. }
  apply keeps_bind; [apply console_progress; console_tree|intros picked].
  apply on_entry_progress.
Qed.

Lemma on_interrupt_progress : keeps I (on_interrupt os files scan_dirs_abs rel_root).
Proof.
  unfold on_interrupt.
  apply keeps_bind; [apply console_progress; console_tree|intros ?].
  apply keeps_bind; [apply console_progress; console_tree|intros ?].
  apply save_state_progress.
Qed.

End progress.

(** X4 (nothing collected is lost).  Whatever way a pass of the loop ends,
    the list of flags keeps its length, every flag that was set is still
    set and every path that had content still has some. *)
Theorem pass_keeps_what_was_collected os files dirs root m :
  progressed (vars m) (vars (machine_of (loop_pass os files dirs root m))).
Proof.
  unfold loop_pass.
  pose proof (iteration_progress os files dirs root (vars m) m (progressed_refl _)) as H.
  destruct (iteration os files dirs root m) as [[[|]|[n|]] m1]; simpl in *; try exact H.
  pose proof (on_interrupt_progress os files dirs root (vars m) m1 H) as H'.
  by destruct (on_interrupt os files dirs root m1) as [[?|?] m2].
Qed.

(** *** End of input, and the quit command *)

Lemma wrote_wrote m a b : wrote (wrote m a) b = wrote m (a ++ b).
Proof. unfold wrote. simpl. by rewrite <-app_assoc. Qed.


Lemma print_items_eq ps : forall m,
  print_items ps m = (Ok tt, wrote m ((fun p => Print (" - " +:+ p)) <$> ps)).
Proof.
  induction ps as [|p ps IH]; intros m; simpl.
  - unfold wrote. by rewrite app_nil_r; destruct m.
  - rewrite (bind_ok _ _ m tt (wrote m [Print (" - " +:+ p)])) by reflexivity.
    by rewrite IH, wrote_wrote.
Qed.

Lemma read_cmd_eof m :
  stdin m = [] -> read_cmd m = (Ok "q", wrote m [Prompt "> "]).
Proof.
  intros Hin. unfold read_cmd, try_except_EOFError.
  rewrite (bind_raise _ _ m EOFError (wrote m [Prompt "> "])) by (by apply input_eof).
  reflexivity.
Qed.

Lemma quit_nothing_pending os files dirs root m cmd m1 :
  read_cmd (wrote m [Screen]) = (Ok cmd, m1) -> lower cmd = "q" ->
  remaining files (done (vars m1)) = [] ->
  iteration os files dirs root m = (Ok Break, m1).
Proof.
  intros Hr Hq Hrem. unfold iteration.
  rewrite (bind_ok print_screen _ m tt (wrote m [Screen])) by reflexivity.
  rewrite (bind_ok read_cmd _ _ cmd m1) by done.
  rewrite (bind_ok get_vars _ m1 (vars m1) m1) by reflexivity.
  by rewrite Hq, String.eqb_refl, Hrem.
Qed.

Lemma quit_pending os files dirs root m cmd m1 ans m3 :
  read_cmd (wrote m [Screen]) = (Ok cmd, m1) -> lower cmd = "q" ->
  remaining files (done (vars m1)) <> [] ->
  ask_yes_no (color "Quit anyway? (y/N) > ") true
    (wrote m1 ([Print EmptyString; Print (color "You still have files with no content:")]
               ++ ((fun p => Print (" - " +:+ p)) <$> remaining files (done (vars m1)))))
  = (Ok ans, m3) ->
  iteration os files dirs root m
  = if ans then (Ok Break, m3)
    else (Ok Continue, wrote m3 [Print (color "Aborted. Keep going.")]).
Proof.
  intros Hr Hq Hrem Hans. unfold iteration.
  rewrite (bind_ok print_screen _ m tt (wrote m [Screen])) by reflexivity.
  rewrite (bind_ok read_cmd _ _ cmd m1) by done.
  rewrite (bind_ok get_vars _ m1 (vars m1) m1) by reflexivity.
  rewrite Hq, String.eqb_refl.
  destruct (remaining files (done (vars m1))) as [|p ps] eqn:Hps; [done|].
  rewrite (bind_ok (print EmptyString) _ m1 tt (wrote m1 [Print EmptyString]))
    by reflexivity.
  rewrite (bind_ok (print _) _ _ tt
             (wrote (wrote m1 [Print EmptyString])
                [Print (color "You still have files with no content:")]))
    by reflexivity.
  rewrite (bind_ok (print_items (p :: ps)) _ _ tt _ (print_items_eq _ _)).
  rewrite !wrote_wrote. simpl app in *.
  rewrite (bind_ok (ask_yes_no _ true) _ _ ans m3 Hans).
  by destruct ans.
Qed.

(** X5 (end of input).  Once the console is at end of file, the loop is
    left at once if no file is pending; if one is, no number of passes
    leaves it: each pass continues with the variables, the checkpoint and
    the console as they were, only more text printed. *)
Theorem eof_with_pending_spins os files dirs root m :
  stdin m = [] ->
  (remaining files (done (vars m)) = [] ->
     loop_pass os files dirs root m = Finishing (wrote m [Screen; Prompt "> "]))
  /\ (remaining files (done (vars m)) <> [] ->
      forall fuel, exists out, passes os files dirs root fuel m = Running (wrote m out)).
Proof.
  intros Hin.
  assert (Hr : forall m, stdin m = [] ->
            read_cmd (wrote m [Screen]) = (Ok "q", wrote m [Screen; Prompt "> "])).
  { intros m' Hin'. rewrite read_cmd_eof by done. by rewrite wrote_wrote. }
  split.
  - intros Hrem. unfold loop_pass.
    by rewrite (quit_nothing_pending os files dirs root m "q" _ (Hr m Hin) eq_refl Hrem).
  - intros Hrem fuel. revert m Hin Hrem.
    induction fuel as [|k IH]; intros m Hin Hrem; simpl.
    + exists []. unfold wrote. rewrite app_nil_r. by destruct m.
    + unfold loop_pass.
      erewrite (quit_pending os files dirs root m "q" _ false) by
        first [by apply Hr | done | by apply ask_yes_no_eof].
      rewrite !wrote_wrote.
      match goal with |- context [passes _ _ _ _ k (wrote m ?o)] =>
        destruct (IH (wrote m o)) as [out Hout]; [exact Hin|exact Hrem|];
        exists (o ++ out); rewrite Hout; by rewrite wrote_wrote end.
Qed.

Lemma eof_with_pending_spins_witness :
  exists out,
    passes sample_os sample_files ["/r"] "/r" 3 (half_done [])
    = Running (wrote (half_done []) out).
Proof.
  apply (proj2 (eof_with_pending_spins sample_os sample_files ["/r"] "/r" (half_done [])
                  eq_refl)).
  vm_compute. discriminate.
Defined.

Lemma wrote_consumed m r o : wrote (consumed m r) o = consumed (wrote m o) r.
Proof. reflexivity. Qed.

Lemma consumed_consumed m r r' : consumed (consumed m r) r' = consumed m r'.
Proof. reflexivity. Qed.

Lemma typed_command m line rest :
  stdin m = Keys line :: rest -> line <> EmptyString ->
  read_cmd (wrote m [Screen])
  = (Ok (strip (chomp line)), consumed (wrote m [Screen; Prompt "> "]) rest).
Proof.
  intros Hin Hne. rewrite (read_cmd_line _ line rest) by done.
  by rewrite wrote_wrote.
Qed.

(** X6 (quit).  The command [q], in either case, leaves the loop at once
    when no file is pending.  With a file pending it asks, and leaves only
    on [y] or [yes]; any other answer, or end of input, continues.  In each
    case the variables and the checkpoint file are as before the pass. *)
Theorem quit_command os files dirs root m line rest :
  stdin m = Keys line :: rest -> lower (strip (chomp line)) = "q" ->
  (remaining files (done (vars m)) = [] ->
     loop_pass os files dirs root m
     = Finishing (consumed (wrote m [Screen; Prompt "> "]) rest))
  /\ (remaining files (done (vars m)) <> [] ->
      (forall ans rest', rest = Keys ans :: rest' ->
         exists out,
           loop_pass os files dirs root m
           = (if str_in (lower (strip (chomp ans))) ["y"; "yes"]
              then Finishing else Running) (consumed (wrote m out) rest'))
      /\ (rest = [] ->
          exists out,
            loop_pass os files dirs root m = Running (consumed (wrote m out) []))).
Proof.
  intros Hin Hq.
  assert (Hne : line <> EmptyString) by (by intros ->).
  pose proof (typed_command m line rest Hin Hne) as Hr.
  split; [|split].
  - intros Hrem. unfold loop_pass.
    by rewrite (quit_nothing_pending os files dirs root m _ _ Hr Hq Hrem).
  - intros ans rest' ->. unfold loop_pass.
    erewrite (quit_pending os files dirs root m _ _ _ _ Hr Hq H) by
      (by apply (ask_yes_no_answer _ _ ans rest')).
    rewrite !wrote_consumed, !wrote_wrote, consumed_consumed.
    destruct (str_in _ _); by eexists.
  - intros ->. unfold loop_pass.
    erewrite (quit_pending os files dirs root m _ _ false _ Hr Hq H) by
      (by apply ask_yes_no_eof).
    rewrite !wrote_consumed, !wrote_wrote. by eexists.
Qed.

Lemma quit_command_witness :
  exists out,
    loop_pass sample_os sample_files ["/r"] "/r"
      (half_done [Keys (" Q " +:+ nl); Keys ("maybe" +:+ nl)])
    = Running (consumed (wrote (half_done [Keys (" Q " +:+ nl); Keys ("maybe" +:+ nl)]) out) []).
Proof.
  refine (proj1 (proj2 (quit_command sample_os sample_files ["/r"] "/r"
                          (half_done [Keys (" Q " +:+ nl); Keys ("maybe" +:+ nl)])
                          (" Q " +:+ nl) [Keys ("maybe" +:+ nl)] eq_refl eq_refl) _)
                 ("maybe" +:+ nl) [] eq_refl).
  vm_compute. discriminate.
Defined.

(** *** Commands that are numbers *)

Lemma digit_char_plain c :
  isdigit_char c = true ->
  isspace c = false /\ lower_char c = c
  /\ (forall r s, String.eqb (String c r) (String "q" s) = false
                  /\ String.eqb (String c r) (String "r" s) = false
                  /\ String.eqb (String c r) (String "m" s) = false
                  /\ String.eqb (String c r) (String "a" s) = false
                  /\ String.eqb (String c r) (String "p" s) = false).
Proof.
  destruct c as [[] [] [] [] [] [] [] []]; vm_compute; intros H; try discriminate H;
    repeat split.
Qed.

Lemma digits_lower s : all_chars isdigit_char s = true -> lower s = s.
Proof.
  induction s as [|c r IH]; simpl; [done|].
  intros [Hc Hr]%andb_prop. rewrite IH by done.
  by destruct (digit_char_plain c Hc) as (_ & -> & _).
Qed.

Lemma digits_split_from s : forall cur,
  all_chars isdigit_char s = true -> cur <> EmptyString \/ s <> EmptyString ->
  split_from cur s = [String.rev_app cur s].
Proof.
  induction s as [|c r IH]; intros cur Hd Hne; simpl.
  - destruct cur; [by destruct Hne|done].
  - simpl in Hd. apply andb_prop in Hd as [Hc Hr].
    destruct (digit_char_plain c Hc) as (-> & _).
    rewrite IH; [done|done|by left].
Qed.

Lemma digits_split s : isdigit s = true -> split s = [s].
Proof.
  intros Hd. unfold split, isdigit in *. destruct s as [|c r]; [done|].
  rewrite digits_split_from; [done|done|by right].
Qed.

Lemma int_isdigit s i : int s = Ok i -> isdigit s = true /\ 0 <= i.
Proof.
  unfold int, isdigit. destruct s as [|c r]; [done|].
  destruct (all_chars decimal_char (String c r)) eqn:Hd; [|done].
  destruct (Z.of_nat (String.length (String c r)) <=? 4300); [|done].
  simpl andb. cbv iota. intros [= <-].
  assert (H : forall s acc, all_chars decimal_char s = true -> 0 <= acc ->
                all_chars isdigit_char s = true /\ 0 <= int_digits acc s).
  { clear. induction s as [|c r IH]; intros acc Hd Hacc; simpl; [done|].
    simpl in Hd. apply andb_prop in Hd as [Hc Hr].
    assert (Hc' : (48 <= code c)%N).
    { unfold decimal_char in Hc. cbv zeta in Hc. apply andb_prop in Hc as [Hc _].
      by apply N.leb_le. }
    destruct (IH (10 * acc + (Z.of_N (code c) - 48)) Hr) as [H1 H2]; [lia|].
    split; [|done]. rewrite H1, andb_true_r. unfold isdigit_char.
    unfold decimal_char in Hc. cbv zeta in *. by rewrite Hc. }
  destruct (H (String c r) 0 Hd) as [H1 H2]; [lia|]. split; [exact H1|exact H2].
Qed.

(** A command that [isdigit] accepts goes to [int] and the range check. *)
Lemma resolve_number files cmd m :
  isdigit cmd = true ->
  resolve_command files cmd m
  = match int cmd with
    | Ok i =>
        if (i <? 0) || (Z.of_nat (length files) <=? i)
        then (Ok None, wrote m [Print EmptyString; Print (color "Index out of range.")])
        else (Ok (Some (None, i)), m)
    | Raise e => (Raise e, m)
    end.
Proof.
  intros Hd. unfold resolve_command. rewrite (digits_split cmd Hd).
  assert (cmd <> EmptyString) by (by intros ->).
  replace (String.eqb cmd EmptyString) with false by (by destruct cmd).
  rewrite Hd. run. destruct (int cmd) as [i|e]; simpl; [|done].
  destruct ((i <? 0) || (Z.of_nat (length files) <=? i)); [|done].
  unfold wrote. simpl. by rewrite <-app_assoc.
Qed.

Lemma number_is_no_letter cmd :
  isdigit cmd = true ->
  String.eqb (lower cmd) "q" = false /\ String.eqb (lower cmd) "r" = false
  /\ String.eqb (lower cmd) "m" = false /\ String.eqb (lower cmd) "a" = false
  /\ String.eqb (lower cmd) "p" = false.
Proof.
  unfold isdigit. destruct cmd as [|c r]; [done|]. intros Hd.
  rewrite digits_lower by done. simpl in Hd. apply andb_prop in Hd as [Hc _].
  destruct (digit_char_plain c Hc) as (_ & _ & H).
  destruct (H r EmptyString) as (? & ? & ? & ? & ?). done.
Qed.

Lemma iteration_number os files dirs root m line rest :
  stdin m = Keys line :: rest -> isdigit (strip (chomp line)) = true ->
  iteration os files dirs root m
  = (resolve_command files (strip (chomp line)) ≫= on_entry os files dirs root)
      (prompted m rest).
Proof.
  intros Hin Hd.
  assert (Hne : line <> EmptyString) by (by intros ->).
  rewrite (iteration_read os files dirs root m line rest Hin Hne). cbv zeta.
  by destruct (number_is_no_letter _ Hd) as (-> & -> & -> & -> & ->).
Qed.

(** X7 (jump).  A command that [int] converts (decimal digits, 4300 of them
    at most) selects the entry with that number, counted from 0 as on the
    screen: the pass goes on with that entry.  A number that is not below
    the number of files is turned down with a message, and the pass ends
    with nothing changed. *)
Theorem number_command os files dirs root m line rest i :
  stdin m = Keys line :: rest -> int (strip (chomp line)) = Ok i ->
  0 <= i /\
  iteration os files dirs root m
  = if Z.of_nat (length files) <=? i
    then (Ok Continue,
          wrote (prompted m rest) [Print EmptyString; Print (color "Index out of range.")])
    else on_entry os files dirs root (Some (None, i)) (prompted m rest).
Proof.
  intros Hin Hi. destruct (int_isdigit _ _ Hi) as [Hd H0]. split; [done|].
  rewrite (iteration_number os files dirs root m line rest Hin Hd).
  unfold mbind, prog_bind. rewrite resolve_number by done. rewrite Hi.
  replace (i <? 0) with false by lia. simpl orb.
  by destruct (Z.of_nat (length files) <=? i).
Qed.

Lemma number_command_witness :
  0 <= 7 /\
  iteration sample_os sample_files ["/r"] "/r" (half_done [Keys ("07" +:+ nl)])
  = (Ok Continue,
     wrote (prompted (half_done [Keys ("07" +:+ nl)]) [])
       [Print EmptyString; Print (color "Index out of range.")]).
Proof.
  apply (number_command sample_os sample_files ["/r"] "/r"
           (half_done [Keys ("07" +:+ nl)]) ("07" +:+ nl) [] 7); reflexivity.
Defined.

(** A command of 4301 digits is no number for [int], whatever its value:
    the pass stops the program with [ValueError]. *)
Example long_number_command_crashes :
  let line := Nat.iter 4300 (String "0") "1" +:+ nl in
  isdigit (strip (chomp line)) = true
  /\ loop_pass sample_os sample_files ["/r"] "/r" (half_done [Keys line])
     = Crashed ValueError (prompted (half_done [Keys line]) []).
Proof. vm_compute. split; reflexivity. Qed.

(** X8 (digits that are no number).  A command that [isdigit] accepts but
    [int] rejects (a superscript two, say) stops the program with
    [ValueError]: nothing catches it, nothing is saved, and the variables
    are as before the pass. *)
Theorem superscript_command_crashes os files dirs root m line rest e :
  stdin m = Keys line :: rest ->
  isdigit (strip (chomp line)) = true -> int (strip (chomp line)) = Raise e ->
  loop_pass os files dirs root m = Crashed ValueError (prompted m rest).
Proof.
  intros Hin Hd Hi. unfold loop_pass.
  rewrite (iteration_number os files dirs root m line rest Hin Hd).
  unfold mbind, prog_bind. rewrite resolve_number by done. rewrite Hi.
  by rewrite (int_raises _ _ Hi).
Qed.

Lemma superscript_command_crashes_witness :
  loop_pass sample_os sample_files ["/r"] "/r"
    (half_done [Keys (String (ascii_of_N 178) nl)])
  = Crashed ValueError (prompted (half_done [Keys (String (ascii_of_N 178) nl)]) []).
Proof.
  apply (superscript_command_crashes sample_os sample_files ["/r"] "/r"
           (half_done [Keys (String (ascii_of_N 178) nl)])
           (String (ascii_of_N 178) nl) [] ValueError); reflexivity.
Defined.

(** *** What a resumed session looks like *)

Lemma mode_of_in_MODES m : mode_of m ∈ MODES.
Proof.
  unfold mode_of. destruct (m !! "mode") as [[| | | |s| |]|]; try apply list_elem_of_here.
  destruct (str_in s MODES) eqn:E; [|apply list_elem_of_here].
  unfold str_in in E. apply existsb_exists in E as (x & Hx & He).
  apply String.eqb_eq in He as ->. by apply list_elem_of_In.
Qed.

Lemma load_state_shape file files dirs root l :
  load_state file files dirs root = Ok (Some l) ->
  length (l_done l) = length files
  /\ (forall p, is_Some (l_contents l !! p) -> p ∈ files)
  /\ -1 <= l_cursor l < Z.max 0 (Z.of_nat (length files))
  /\ l_mode l ∈ MODES.
Proof.
  destruct file as [|n|state]; [discriminate..|].
  destruct state as [| | | | | |m];
    try (unfold load_state, load_state_checked; simpl; discriminate).
  destruct (keys_match_or_not m files dirs root) as [Hk|Hk];
    [|by rewrite load_state_mismatch].
  rewrite (load_state_object _ _ _ _ Hk).
  destruct (m !! "done") as [[| | | | |ds|]|]; try discriminate.
  destruct (m !! "contents") as [[| | | | | |cs]|]; try discriminate.
  destruct (length ds =? length files)%nat eqn:El; [|discriminate].
  intros [= <-]. simpl. apply Nat.eqb_eq in El.
  split; [by rewrite length_fmap|]. split; [|split; [|apply mode_of_in_MODES]].
  - intros p [x Hx]. rewrite lookup_omap in Hx.
    destruct (filter (fun kv : string * json => kv.1 ∈ files) cs !! p) as [y|] eqn:Hy;
      [|done].
    by apply map_lookup_filter_Some in Hy as [_ Hp].
  - unfold cursor_of. lia.
Qed.

(** X9 (start of a session).  Whatever the checkpoint file holds, the
    start of the interactive session does not raise and does not write; it
    enters the loop with one flag per file, content for inventory paths
    only, a cursor from -1 to the last index, the mode just picked and no
    override. *)
Theorem start_gives_well_shaped_session picked files dirs root m :
  exists m',
    interactive_start picked files dirs root m = (Ok tt, m')
    /\ checkpoint m' = checkpoint m
    /\ length (done (vars m')) = length files
    /\ (forall p, is_Some (contents (vars m') !! p) -> p ∈ files)
    /\ -1 <= cursor (vars m') < Z.max 0 (Z.of_nat (length files))
    /\ mode (vars m') = picked
    /\ next_action_override (vars m') = None.
Proof.
  unfold interactive_start. run.
  destruct (load_state_never_raises (checkpoint m) files dirs root) as [[l|] Hl];
    rewrite Hl; run.
  - destruct (load_state_shape _ _ _ _ _ Hl) as (H1 & H2 & H3 & _).
    eexists. split; [reflexivity|]. simpl. done.
  - eexists. split; [reflexivity|]. simpl.
    split; [done|]. split; [apply length_replicate|]. split; [|split; [lia|done]].
    intros p [x Hx]. by rewrite lookup_empty in Hx.
Qed.

(** X10 (mode switch).  [cycle_mode] maps every string to one of the three
    modes and never to its argument; a string that is no mode goes to
    paste, the successor of the first mode; and three switches from a mode
    lead back to it. *)
Theorem cycle_mode_cycles mode :
  cycle_mode mode ∈ MODES
  /\ cycle_mode mode <> mode
  /\ (mode ∉ MODES -> cycle_mode mode = MODE_PASTE)
  /\ (mode ∈ MODES -> cycle_mode (cycle_mode (cycle_mode mode)) = mode).
Proof.
  split; [apply cycle_mode_in_MODES|].
  assert (Hcase : mode = MODE_HYBRID \/ mode = MODE_PASTE \/ mode = MODE_AUTO
                  \/ mode ∉ MODES).
  { destruct (decide (mode ∈ MODES)) as [H|H]; [|tauto].
    unfold MODES in H. apply list_elem_of_In in H. simpl in H.
    destruct H as [H|[H|[H|[]]]]; auto. }
  assert (Hout : mode ∉ MODES -> cycle_mode mode = MODE_PASTE).
  { intros Hn. unfold cycle_mode.
    replace (str_in mode MODES) with false; [done|].
    symmetry. apply not_true_is_false. intros E. apply Hn.
    unfold str_in in E. apply existsb_exists in E as (x & Hx & He).
    apply String.eqb_eq in He as ->. by apply list_elem_of_In. }
  split; [|split; [exact Hout|]].
  - destruct Hcase as [->|[->|[->|Hn]]]; try by vm_compute.
    rewrite (Hout Hn). intros <-. apply Hn. apply list_elem_of_further, list_elem_of_here.
  - intros Hin. destruct Hcase as [->|[->|[->|Hn]]]; done.
Qed.

(** *** Strings *)

Lemma all_chars_app p a b : all_chars p (a +:+ b) = all_chars p a && all_chars p b.
Proof.
  induction a as [|c a IH]; [done|]. rewrite str_app_cons. simpl.
  by rewrite IH, andb_assoc.
Qed.

Lemma all_chars_impl (p q : ascii -> bool) s :
  (forall c, p c = true -> q c = true) -> all_chars p s = true -> all_chars q s = true.
Proof.
  intros Hpq. induction s as [|c s IH]; simpl; [done|].
  intros [Hc Hs]%andb_prop. by rewrite (Hpq c Hc), IH.
Qed.

Lemma chomp_nl s : chomp (s +:+ nl) = s.
Proof.
  induction s as [|c s IH]; [done|]. rewrite str_app_cons.
  change (chomp (String c (s +:+ nl)))
    with (match s +:+ nl with
          | EmptyString => if Ascii.eqb c "010"%char then EmptyString else String c (s +:+ nl)
          | _ => String c (chomp (s +:+ nl))
          end).
  rewrite IH. by destruct s.
Qed.

Lemma lstrip_nonspace s : all_chars nonspace s = true -> lstrip s = s.
Proof.
  destruct s as [|c s]; simpl; [done|]. intros [Hc _]%andb_prop.
  unfold nonspace in Hc. by destruct (isspace c).
Qed.

Lemma rstrip_nonspace s : all_chars nonspace s = true -> rstrip s = s.
Proof.
  induction s as [|c s IH]; simpl; [done|]. intros [Hc Hs]%andb_prop.
  rewrite IH by done. unfold nonspace in Hc. destruct s; [|done]. by destruct (isspace c).
Qed.

Lemma strip_nonspace s : all_chars nonspace s = true -> strip s = s.
Proof. intros H. unfold strip. by rewrite lstrip_nonspace, rstrip_nonspace. Qed.

Lemma lstrip_spaces ws s : all_chars isspace ws = true -> lstrip (ws +:+ s) = lstrip s.
Proof.
  induction ws as [|c ws IH]; [done|]. rewrite str_app_cons. simpl.
  intros [-> Hs]%andb_prop. by apply IH.
Qed.

Lemma rstrip_spaces ws : all_chars isspace ws = true -> rstrip ws = EmptyString.
Proof.
  induction ws as [|c ws IH]; simpl; [done|].
  intros [-> Hs]%andb_prop. by rewrite IH.
Qed.

Lemma rstrip_app_spaces s ws :
  all_chars isspace ws = true -> rstrip (s +:+ ws) = rstrip s.
Proof.
  intros Hws. induction s as [|c s IH].
  - rewrite str_app_nil_l. by apply rstrip_spaces.
  - rewrite str_app_cons. simpl. by rewrite IH.
Qed.

Lemma quote_nonspace q : is_quote q = true -> nonspace q = true.
Proof.
  unfold is_quote. intros [H|H]%orb_prop; apply Ascii.eqb_eq in H as ->; reflexivity.
Qed.

Lemma last_char_snoc s c : last_char (s +:+ String c EmptyString) = Some c.
Proof.
  induction s as [|a s IH]; [done|]. rewrite str_app_cons.
  change (last_char (String a (s +:+ String c EmptyString)))
    with (match s +:+ String c EmptyString with
          | EmptyString => Some a
          | _ => last_char (s +:+ String c EmptyString)
          end).
  rewrite IH. by destruct s.
Qed.

Lemma but_last_snoc s c : but_last (s +:+ String c EmptyString) = s.
Proof.
  induction s as [|a s IH]; [done|]. rewrite str_app_cons.
  change (but_last (String a (s +:+ String c EmptyString)))
    with (match s +:+ String c EmptyString with
          | EmptyString => EmptyString
          | _ => String a (but_last (s +:+ String c EmptyString))
          end).
  rewrite IH. by destruct s.
Qed.

Lemma str_length_app a b : String.length (a +:+ b) = (String.length a + String.length b)%nat.
Proof. induction a as [|c a IH]; [done|]. rewrite str_app_cons. simpl. by rewrite IH. Qed.

Lemma rstrip_ends_nonspace s c :
  nonspace c = true -> rstrip (s +:+ String c EmptyString) = s +:+ String c EmptyString.
Proof.
  intros Hc. induction s as [|a s IH].
  - simpl. unfold nonspace in Hc. by destruct (isspace c).
  - rewrite str_app_cons. simpl. rewrite IH. by destruct s.
Qed.

Lemma unwrap_quoted q s before after :
  is_quote q = true ->
  all_chars isspace before = true -> all_chars isspace after = true ->
  _strip_wrapping_quotes (before +:+ String q (s +:+ String q EmptyString) +:+ after) = s.
Proof.
  intros Hq Hb Ha. unfold _strip_wrapping_quotes.
  assert (Hs : strip (before +:+ String q (s +:+ String q EmptyString) +:+ after)
               = String q (s +:+ String q EmptyString)).
  { unfold strip. rewrite lstrip_spaces by done.
    pose proof (quote_nonspace q Hq) as Hn. unfold nonspace in Hn.
    rewrite str_app_cons. cbn [lstrip]. destruct (isspace q); [done|].
    rewrite <-str_app_cons, rstrip_app_spaces by done.
    change (String q (s +:+ String q EmptyString))
      with ((String q s) +:+ String q EmptyString).
    apply rstrip_ends_nonspace. by apply quote_nonspace. }
  rewrite Hs. cbn [first_char].
  change (String q (s +:+ String q EmptyString)) with ((String q s) +:+ String q EmptyString).
  rewrite last_char_snoc, str_length_app. simpl String.length.
  replace (2 <=? S (String.length s) + 1)%nat with true by (symmetry; apply Nat.leb_le; lia).
  rewrite Ascii.eqb_refl, Hq. simpl. apply but_last_snoc.
Qed.

(** X11 (wrapping quotes).  A text in single or in double quotes, with any
    white space around the quotes, comes back without the white space and
    without that one pair of quotes, and otherwise untouched: white space and
    further quotes inside are kept. *)
Theorem quoted_text_is_unwrapped q s before after :
  is_quote q = true ->
  all_chars isspace before = true -> all_chars isspace after = true ->
  _strip_wrapping_quotes (before +:+ String q (s +:+ String q EmptyString) +:+ after) = s.
Proof. apply unwrap_quoted. Qed.

Lemma quoted_text_is_unwrapped_witness :
  _strip_wrapping_quotes ("  " +:+ String "'" (" a 'b' " +:+ String "'" EmptyString) +:+ " ")
  = " a 'b' ".
Proof.
  apply (quoted_text_is_unwrapped "'" " a 'b' " "  " " "); reflexivity.
Defined.

(** *** The command line *)

Lemma parse_arg_eq mode rest forced a :
  parse_arg (mode, rest, forced) a
  = match flag_mode a with
    | Some x => (x, rest, true)
    | None => (mode, rest ++ [a], forced)
    end.
Proof. unfold parse_arg, flag_mode. by repeat case_match. Qed.

Lemma foldl_parse_arg argv : forall mode rest forced,
  foldl parse_arg (mode, rest, forced) argv
  = (default mode (last (omap flag_mode argv)),
     rest ++ List.filter (fun a => bool_decide (flag_mode a = None)) argv,
     forced || existsb (fun a => bool_decide (is_Some (flag_mode a))) argv).
Proof.
  induction argv as [|a argv IH]; intros mode rest forced.
  - simpl. by rewrite app_nil_r, orb_false_r.
  - change (foldl parse_arg (mode, rest, forced) (a :: argv))
      with (foldl parse_arg (parse_arg (mode, rest, forced) a) argv).
    rewrite parse_arg_eq. destruct (flag_mode a) as [x|] eqn:Ha; rewrite IH; simpl;
      rewrite Ha.
    + rewrite (bool_decide_false (Some x = None)) by done.
      rewrite (bool_decide_true (is_Some (Some x))) by eauto.
      f_equal; [f_equal|by rewrite orb_true_r].
      change (list_omap string string flag_mode argv) with (omap flag_mode argv).
      generalize (omap flag_mode argv) as l. intros l.
      rewrite last_cons. by destruct (last l).
    + rewrite (bool_decide_false (is_Some None)) by (by intros [? ?]).
      rewrite (bool_decide_true (None = None)) by done.
      by rewrite <-app_assoc.
Qed.

Lemma parse_mode_in_MODES argv : (parse_mode_and_dirs argv).1.1 ∈ MODES.
Proof.
  unfold parse_mode_and_dirs. rewrite foldl_parse_arg. simpl.
  destruct (last (omap flag_mode argv)) as [x|] eqn:E; simpl; [|apply list_elem_of_here].
  apply last_Some_elem_of in E. apply list_elem_of_omap in E as (a & _ & Ha).
  unfold flag_mode in Ha. repeat case_match; try discriminate; injection Ha as <-.
  - do 2 apply list_elem_of_further. apply list_elem_of_here.
  - apply list_elem_of_further, list_elem_of_here.
  - apply list_elem_of_here.
Qed.

(** X12 (mode flags).  Of the arguments, the mode flags are taken out and
    the others kept in their order; the mode is that of the last flag, or
    hybrid without one, and so always one of the three modes; and the mode
    counts as given exactly when there is a flag. *)
Theorem parse_mode_and_dirs_spec argv :
  parse_mode_and_dirs argv
  = (default MODE_HYBRID (last (omap flag_mode argv)),
     List.filter (fun a => bool_decide (flag_mode a = None)) argv,
     existsb (fun a => bool_decide (is_Some (flag_mode a))) argv)
  /\ (parse_mode_and_dirs argv).1.1 ∈ MODES.
Proof.
  split; [|apply parse_mode_in_MODES].
  unfold parse_mode_and_dirs. by rewrite foldl_parse_arg.
Qed.

(** *** The mode question *)

Lemma select_mode_loop_bad default bad : forall inp out,
  Forall bad_mode_answer bad ->
  select_mode_loop default ((Keys <$> bad) ++ inp) out
  = select_mode_loop default inp
      (out ++ mjoin ((fun _ => [Prompt (color "Mode > ");
                                Print (color "Only 1/2/3 or Enter.")]) <$> bad)).
Proof.
  induction bad as [|line bad IH]; intros inp out Hbad; simpl.
  - by rewrite app_nil_r.
  - apply Forall_cons in Hbad as [[Hne Hans] Hbad].
    replace (String.eqb line EmptyString) with false
      by (symmetry; by apply String.eqb_neq).
    assert (Hn : forall x, x ∈ [EmptyString; "1"; "2"; "3"] ->
                 String.eqb (strip (chomp line)) x = false).
    { intros x Hx. apply String.eqb_neq. intros E. apply Hans. by rewrite E. }
    rewrite !Hn by (repeat first [apply list_elem_of_here|apply list_elem_of_further]).
    rewrite IH by done. by rewrite <-!app_assoc.
Qed.

Lemma select_mode_before_path_eq default m :
  select_mode_before_path default m
  = select_mode_answers default (wrote m (select_mode_header default)).
Proof.
  unfold select_mode_before_path, select_mode_header. run.
  unfold wrote. simpl. by rewrite <-!app_assoc.
Qed.

(** Capitals: a sharp s becomes two letters, a letter with an accent its
    capital, and digits and signs stay. *)
Example upper_samples :
  upper MODE_HYBRID = "HYBRID"
  /\ upper ("stra" +:+ String (ascii_of_N 223) "e-" +:+ String (ascii_of_N 233) "t" +:+ "2")
     = "STRASSE-" +:+ String (ascii_of_N 201) "T2".
Proof. split; vm_compute; reflexivity. Qed.

(** X13 (mode question).  For a default whose capitals are characters of
    the model (no micro sign and no y with diaeresis in it; a sharp s is
    printed as SS): after the menu, which ends with the default in capitals,
    the mode question is asked again, with a message, for as long as the
    answers are something other than 1, 2, 3 or nothing; the first such
    answer decides (nothing, or the end of input, gives the default) and
    nothing after it is read; Ctrl-C is passed on. *)
Theorem select_mode_takes_first_valid_answer default bad inp m :
  has_upper default = true ->
  Forall bad_mode_answer bad ->
  stdin m = (Keys <$> bad) ++ inp ->
  let out := select_mode_header default
             ++ mjoin ((fun _ => [Prompt (color "Mode > ");
                                  Print (color "Only 1/2/3 or Enter.")]) <$> bad)
             ++ [Prompt (color "Mode > ")] in
  match inp with
  | [] => select_mode_before_path default m = (Ok default, consumed (wrote m out) [])
  | Keys line :: rest =>
      line = EmptyString \/ strip (chomp line) ∈ [EmptyString; "1"; "2"; "3"] ->
      select_mode_before_path default m
      = (Ok (answered_mode default (strip (chomp line))), consumed (wrote m out) rest)
  | Interrupt :: rest =>
      select_mode_before_path default m
      = (Raise KeyboardInterrupt, consumed (wrote m out) rest)
  end.
Proof.
  intros _ Hbad Hin out.
  assert (Heq : forall r rest,
            select_mode_loop default inp
              (stdout m ++ select_mode_header default
               ++ mjoin ((fun _ => [Prompt (color "Mode > ");
                                    Print (color "Only 1/2/3 or Enter.")]) <$> bad))
            = (r, rest, stdout m ++ out) ->
            select_mode_before_path default m = (r, consumed (wrote m out) rest)).
  { intros r rest H. rewrite select_mode_before_path_eq. unfold select_mode_answers.
    simpl stdin. rewrite Hin, select_mode_loop_bad by done.
    simpl stdout. rewrite <-app_assoc, H. reflexivity. }
  assert (Hpo : stdout m ++ out
                = (stdout m ++ select_mode_header default
                   ++ mjoin ((fun _ => [Prompt (color "Mode > ");
                                        Print (color "Only 1/2/3 or Enter.")]) <$> bad))
                  ++ [Prompt (color "Mode > ")]).
  { unfold out. by rewrite <-!app_assoc. }
  rewrite Hpo in Heq. clear Hpo.
  set (pre := stdout m ++ select_mode_header default ++ _) in *. clearbody pre.
  destruct inp as [|[line|] rest].
  - by apply Heq.
  - intros Hline. apply Heq. simpl.
    destruct Hline as [->|Hline]; [done|].
    destruct (String.eqb line EmptyString) eqn:E0.
    { apply String.eqb_eq in E0 as ->. done. }
    apply list_elem_of_In in Hline. simpl in Hline.
    destruct Hline as [H|[H|[H|[H|[]]]]]; rewrite <-H; reflexivity.
  - by apply Heq.
Qed.

Lemma select_mode_takes_first_valid_answer_witness :
  select_mode_before_path MODE_HYBRID
    (half_done [Keys ("4" +:+ nl); Keys ("auto" +:+ nl); Keys (" 3 " +:+ nl); Keys ("2" +:+ nl)])
  = (Ok MODE_AUTO,
     consumed
       (wrote (half_done [Keys ("4" +:+ nl); Keys ("auto" +:+ nl); Keys (" 3 " +:+ nl);
                          Keys ("2" +:+ nl)])
          (select_mode_header MODE_HYBRID
           ++ [Prompt "Mode > "; Print "Only 1/2/3 or Enter.";
               Prompt "Mode > "; Print "Only 1/2/3 or Enter."]
           ++ [Prompt "Mode > "]))
       [Keys ("2" +:+ nl)]).
Proof.
  refine (select_mode_takes_first_valid_answer MODE_HYBRID ["4" +:+ nl; "auto" +:+ nl]
            [Keys (" 3 " +:+ nl); Keys ("2" +:+ nl)]
            (half_done [Keys ("4" +:+ nl); Keys ("auto" +:+ nl); Keys (" 3 " +:+ nl);
                        Keys ("2" +:+ nl)]) eq_refl _ eq_refl _).
  - repeat constructor; vm_compute; try discriminate.
    all: intros H; apply list_elem_of_In in H; simpl in H;
      repeat (destruct H as [H|H]; [discriminate|]); done.
  - right. vm_compute. do 3 apply list_elem_of_further. apply list_elem_of_here.
Defined.

(** *** The path question *)

Lemma plain_char_facts c :
  plain_char c = true ->
  nonspace c = true /\ is_quote c = false /\ Ascii.eqb c ";" = false.
Proof.
  unfold plain_char, nonspace. intros [[H1 H2]%andb_prop H3]%andb_prop.
  by destruct (isspace c), (is_quote c), (Ascii.eqb c ";").
Qed.

Lemma plain_nonspace s : all_chars plain_char s = true -> all_chars nonspace s = true.
Proof. apply all_chars_impl. intros c Hc. by destruct (plain_char_facts c Hc). Qed.

Lemma all_chars_first p s c : all_chars p s = true -> first_char s = Some c -> p c = true.
Proof. destruct s; [done|]. simpl. intros [Hc _]%andb_prop [= <-]. done. Qed.

Lemma all_chars_last p s c : all_chars p s = true -> last_char s = Some c -> p c = true.
Proof.
  induction s as [|a s IH]; [done|]. simpl. intros [Ha Hs]%andb_prop.
  destruct s; [by intros [= <-]|]. by apply IH.
Qed.

(** Without white space around it and without a pair of quotes around it,
    a text is left as it is. *)
Lemma unwrapped_is_kept s :
  all_chars nonspace s = true ->
  (forall a b, first_char s = Some a -> last_char s = Some b ->
     is_quote a = false \/ is_quote b = false) ->
  _strip_wrapping_quotes s = s.
Proof.
  intros Hs Hq. unfold _strip_wrapping_quotes. rewrite strip_nonspace by done.
  destruct (first_char s) as [a|] eqn:Ha; [|done].
  destruct (last_char s) as [b|] eqn:Hb; [|done].
  destruct (Ascii.eqb a b) eqn:Hab; [|by rewrite andb_false_r].
  apply Ascii.eqb_eq in Hab as <-.
  destruct (Hq a a eq_refl eq_refl) as [-> | ->]; by rewrite andb_false_r.
Qed.

Lemma plain_is_kept s : all_chars plain_char s = true -> _strip_wrapping_quotes s = s.
Proof.
  intros Hs. apply unwrapped_is_kept; [by apply plain_nonspace|].
  intros a b Ha _. left. by destruct (plain_char_facts a (all_chars_first _ _ _ Hs Ha)) as (_ & ? & _).
Qed.

Lemma plain_no_semicolon s : all_chars plain_char s = true -> all_chars no_semicolon s = true.
Proof.
  apply all_chars_impl. intros c Hc. unfold no_semicolon.
  by destruct (plain_char_facts c Hc) as (_ & _ & ->).
Qed.

Lemma contains_semicolon_cons c s :
  contains ";" (String c s) = Ascii.eqb c ";" || contains ";" s.
Proof.
  change (contains ";" (String c s))
    with (Ascii.eqb ";" c && true || contains ";" s).
  by rewrite andb_true_r, Ascii.eqb_sym.
Qed.

Lemma contains_semicolon_none s : all_chars no_semicolon s = true -> contains ";" s = false.
Proof.
  induction s as [|c s IH]; [done|]. rewrite contains_semicolon_cons.
  cbn [all_chars]. intros [Hc Hs]%andb_prop.
  unfold no_semicolon in Hc. rewrite IH by done. by destruct (Ascii.eqb c ";").
Qed.

Lemma contains_semicolon_some a b : contains ";" (a +:+ ";" +:+ b) = true.
Proof.
  induction a as [|c a IH]; [done|]. rewrite str_app_cons, contains_semicolon_cons.
  rewrite IH. by rewrite orb_true_r.
Qed.

Lemma split_on_none s : all_chars no_semicolon s = true -> split_on ";" s = [s].
Proof.
  induction s as [|c s IH]; [done|]. simpl. intros [Hc Hs]%andb_prop.
  unfold no_semicolon in Hc. rewrite IH by done. by destruct (Ascii.eqb c ";").
Qed.

Lemma split_on_some a b :
  all_chars no_semicolon a = true ->
  split_on ";" (a +:+ ";" +:+ b) = a :: split_on ";" b.
Proof.
  induction a as [|c a IH]; [done|]. rewrite str_app_cons. simpl.
  intros [Hc Hs]%andb_prop. unfold no_semicolon in Hc. rewrite IH by done.
  by destruct (Ascii.eqb c ";").
Qed.

Lemma split_on_join xs :
  xs <> [] -> Forall (fun x => all_chars no_semicolon x = true) xs ->
  split_on ";" (join_semicolon xs) = xs.
Proof.
  induction xs as [|x xs IH]; [done|]. intros _ [Hx Hxs]%Forall_cons.
  destruct xs as [|y ys]; [by apply split_on_none|].
  change (join_semicolon (x :: y :: ys)) with (x +:+ ";" +:+ join_semicolon (y :: ys)).
  rewrite split_on_some by done. by rewrite IH.
Qed.

Lemma join_semicolon_plain xs :
  Forall plain xs ->
  all_chars (fun c => nonspace c && negb (is_quote c)) (join_semicolon xs) = true.
Proof.
  induction xs as [|x xs IH]; [done|]. intros [[_ Hx] Hxs]%Forall_cons.
  assert (Hx' : all_chars (fun c => nonspace c && negb (is_quote c)) x = true).
  { revert Hx. apply all_chars_impl. intros c Hc.
    by destruct (plain_char_facts c Hc) as (-> & -> & _). }
  destruct xs as [|y ys]; [done|].
  change (join_semicolon (x :: y :: ys)) with (x +:+ ";" +:+ join_semicolon (y :: ys)).
  rewrite !all_chars_app, Hx', IH by done. reflexivity.
Qed.

Lemma scan_dirs_read m line rest :
  stdin m = Keys line :: rest -> line <> EmptyString ->
  get_scan_dirs [] m
  = ((let p := strip (chomp line) in
      if negb (truthy_str p) then mret ["."]
      else
        let p := _strip_wrapping_quotes p in
        if contains ";" p
        then mret (List.filter truthy_str (_strip_wrapping_quotes <$> split_on ";" p))
        else mret [p]) : prog (list string)) (consumed (wrote m [Prompt path_prompt]) rest).
Proof.
  intros Hin Hne. unfold get_scan_dirs.
  rewrite (bind_ok _ _ m (strip (chomp line)) (consumed (wrote m [Prompt path_prompt]) rest));
    [done|].
  unfold try_except_EOFError.
  by rewrite (bind_ok _ _ m (chomp line) (consumed (wrote m [Prompt path_prompt]) rest))
    by (by apply input_line).
Qed.

(** X14 (path question).  With no path on the command line, an empty
    answer or the end of input stands for the current folder; paths without
    white space, quotes or semicolons that are typed with semicolons between
    them come back as typed, in their order. *)
Theorem scan_dirs_from_answer m :
  (stdin m = [] ->
   get_scan_dirs [] m = (Ok ["."], wrote m [Prompt path_prompt]))
  /\ (forall line rest, stdin m = Keys line :: rest -> strip (chomp line) = EmptyString ->
      get_scan_dirs [] m = (Ok ["."], consumed (wrote m [Prompt path_prompt]) rest))
  /\ (forall xs rest, xs <> [] -> Forall plain xs ->
      stdin m = Keys (join_semicolon xs +:+ nl) :: rest ->
      get_scan_dirs [] m = (Ok xs, consumed (wrote m [Prompt path_prompt]) rest)).
Proof.
  split; [|split].
  - intros Hin. unfold get_scan_dirs.
    rewrite (bind_ok _ _ m EmptyString (wrote m [Prompt path_prompt])); [done|].
    unfold try_except_EOFError.
    by rewrite (bind_raise _ _ m EOFError (wrote m [Prompt path_prompt]))
      by (by apply input_eof).
  - intros line rest Hin Hblank.
    destruct (decide (line = EmptyString)) as [->|Hne].
    + unfold get_scan_dirs.
      rewrite (bind_ok _ _ m EmptyString (consumed (wrote m [Prompt path_prompt]) rest));
        [done|].
      unfold try_except_EOFError, input, readline. run. by rewrite Hin.
    + rewrite (scan_dirs_read m line rest Hin Hne). cbv zeta. by rewrite Hblank.
  - intros xs rest Hne Hplain Hin.
    assert (Hj : join_semicolon xs <> EmptyString).
    { destruct xs as [|x [|y ys]]; [done| |].
      - apply Forall_cons in Hplain as [[Hx _] _]. done.
      - apply Forall_cons in Hplain as [[Hx _] _]. simpl. by destruct x. }
    rewrite (scan_dirs_read m _ rest Hin) by (by destruct (join_semicolon xs)).
    cbv zeta. rewrite chomp_nl.
    pose proof (join_semicolon_plain xs Hplain) as Hall.
    assert (Hns : all_chars nonspace (join_semicolon xs) = true).
    { revert Hall. apply all_chars_impl. by intros c [? _]%andb_prop. }
    rewrite strip_nonspace by done.
    replace (truthy_str (join_semicolon xs)) with true
      by (by destruct (join_semicolon xs)).
    assert (Hk : _strip_wrapping_quotes (join_semicolon xs) = join_semicolon xs).
    { apply unwrapped_is_kept; [done|]. intros a b Ha _. left.
      pose proof (all_chars_first _ _ _ Hall Ha) as [_ H]%andb_prop.
      by destruct (is_quote a). }
    simpl negb. cbv iota. rewrite Hk.
    assert (Hsemi : Forall (fun x => all_chars no_semicolon x = true) xs).
    { eapply Forall_impl; [exact Hplain|]. intros x [_ Hx]. by apply plain_no_semicolon. }
    assert (Hkeep : List.filter truthy_str (_strip_wrapping_quotes <$> xs) = xs).
    { clear -Hplain. induction xs as [|x xs IH]; [done|].
      apply Forall_cons in Hplain as [[Hx1 Hx2] Hxs].
      rewrite fmap_cons. cbn [List.filter].
      rewrite plain_is_kept by done. destruct x; [done|]. cbn [truthy_str].
      by rewrite IH. }
    destruct xs as [|x [|y ys]]; [done| |].
    + simpl join_semicolon. apply Forall_cons in Hsemi as [Hx _].
      by rewrite contains_semicolon_none.
    + change (join_semicolon (x :: y :: ys)) with (x +:+ ";" +:+ join_semicolon (y :: ys)).
      rewrite contains_semicolon_some.
      change (x +:+ ";" +:+ join_semicolon (y :: ys)) with (join_semicolon (x :: y :: ys)).
      rewrite split_on_join by done. by rewrite Hkeep.
Qed.

Lemma scan_dirs_from_answer_witness :
  get_scan_dirs [] (half_done [Keys ("/srv/app;lib;../x" +:+ nl); Keys nl])
  = (Ok ["/srv/app"; "lib"; "../x"],
     consumed (wrote (half_done [Keys ("/srv/app;lib;../x" +:+ nl); Keys nl])
                 [Prompt path_prompt]) [Keys nl]).
Proof.
  refine (proj2 (proj2 (scan_dirs_from_answer
                          (half_done [Keys ("/srv/app;lib;../x" +:+ nl); Keys nl])))
            ["/srv/app"; "lib"; "../x"] [Keys nl] _ _ eq_refl).
  - discriminate.
  - repeat constructor; discriminate.
Defined.

(** X15 (quoted list).  When two paths are typed each in double quotes
    with a semicolon between them, only the first and the last quote are
    taken away: the first path keeps a quote at its end and the second one
    at its start. *)
Theorem scan_dirs_quoted_list_keeps_inner_quotes a b m rest :
  plain a -> plain b ->
  stdin m = Keys (dq +:+ a +:+ dq +:+ ";" +:+ dq +:+ b +:+ dq +:+ nl) :: rest ->
  get_scan_dirs [] m
  = (Ok [a +:+ dq; dq +:+ b], consumed (wrote m [Prompt path_prompt]) rest).
Proof.
  intros [Ha0 Ha] [Hb0 Hb] Hin.
  rewrite (scan_dirs_read m _ rest Hin) by done. cbv zeta.
  replace (dq +:+ a +:+ dq +:+ ";" +:+ dq +:+ b +:+ dq +:+ nl)
    with ((dq +:+ a +:+ dq +:+ ";" +:+ dq +:+ b +:+ dq) +:+ nl)
    by (by rewrite <-!str_app_assoc).
  rewrite chomp_nl.
  assert (Hdq : all_chars nonspace dq = true) by reflexivity.
  assert (Hsc : all_chars nonspace ";" = true) by reflexivity.
  pose proof (plain_nonspace a Ha) as Hna. pose proof (plain_nonspace b Hb) as Hnb.
  assert (Hw : dq +:+ a +:+ dq +:+ ";" +:+ dq +:+ b +:+ dq
               = EmptyString +:+ String "034" ((a +:+ dq +:+ ";" +:+ dq +:+ b)
                                                +:+ String "034" EmptyString)
                 +:+ EmptyString).
  { rewrite str_app_nil_r, str_app_nil_l. unfold dq. rewrite str_app_cons, str_app_nil_l.
    by rewrite !str_app_assoc. }
  rewrite strip_nonspace
    by (by rewrite !all_chars_app, Hdq, Hsc, Hna, Hnb).
  replace (truthy_str (dq +:+ a +:+ dq +:+ ";" +:+ dq +:+ b +:+ dq)) with true by done.
  simpl negb. cbv iota.
  rewrite Hw, unwrap_quoted by done.
  rewrite <-(str_app_assoc a dq), contains_semicolon_some.
  assert (Hsa : all_chars no_semicolon (a +:+ dq) = true).
  { rewrite all_chars_app, (plain_no_semicolon a Ha). reflexivity. }
  assert (Hsb : all_chars no_semicolon (dq +:+ b) = true).
  { rewrite all_chars_app, (plain_no_semicolon b Hb). reflexivity. }
  rewrite split_on_some, split_on_none by done.
  rewrite !fmap_cons, fmap_nil.
  assert (Hka : _strip_wrapping_quotes (a +:+ dq) = a +:+ dq).
  { apply unwrapped_is_kept; [by rewrite all_chars_app, Hna|].
    intros x y Hx _. left. destruct a as [|c a]; [done|].
    rewrite str_app_cons in Hx. injection Hx as <-.
    simpl in Ha. apply andb_prop in Ha as [Hc _].
    by destruct (plain_char_facts c Hc) as (_ & ? & _). }
  assert (Hkb : _strip_wrapping_quotes (dq +:+ b) = dq +:+ b).
  { apply unwrapped_is_kept; [by rewrite all_chars_app, Hnb|].
    intros x y _ Hy. right.
    assert (Hl : last_char (dq +:+ b) = last_char b) by (by destruct b).
    rewrite Hl in Hy.
    by destruct (plain_char_facts y (all_chars_last _ _ _ Hb Hy)) as (_ & ? & _). }
  rewrite Hka, Hkb. cbn [List.filter].
  replace (truthy_str (a +:+ dq)) with true by (by destruct a).
  reflexivity.
Qed.

Lemma scan_dirs_quoted_list_keeps_inner_quotes_witness :
  get_scan_dirs []
    (half_done [Keys (dq +:+ "/a" +:+ dq +:+ ";" +:+ dq +:+ "/b" +:+ dq +:+ nl)])
  = (Ok ["/a" +:+ dq; dq +:+ "/b"],
     consumed
       (wrote (half_done [Keys (dq +:+ "/a" +:+ dq +:+ ";" +:+ dq +:+ "/b" +:+ dq +:+ nl)])
          [Prompt path_prompt]) []).
Proof.
  apply (scan_dirs_quoted_list_keeps_inner_quotes "/a" "/b"
           (half_done [Keys (dq +:+ "/a" +:+ dq +:+ ";" +:+ dq +:+ "/b" +:+ dq +:+ nl)]) []).
  - split; [discriminate|reflexivity].
  - split; [discriminate|reflexivity].
  - reflexivity.
Defined.

(** *** Scan roots *)

Lemma uniq_from_spec xs : forall seen,
  NoDup (uniq_from seen xs)
  /\ (forall x, x ∈ uniq_from seen xs <-> x ∈ xs /\ x ∉ seen)
  /\ uniq_from seen xs `sublist_of` xs.
Proof.
  induction xs as [|x xs IH]; intros seen; simpl.
  - split; [constructor|]. split; [|done]. intros x. rewrite elem_of_nil. tauto.
  - destruct (decide (x ∈ seen)) as [Hin|Hout].
    + destruct (IH seen) as (H1 & H2 & H3). split; [done|]. split.
      * intros y. rewrite H2, elem_of_cons. split; [tauto|].
        intros [[->|Hy] Hn]; [done|tauto].
      * by apply sublist_cons.
    + destruct (IH ({[x]} ∪ seen)) as (H1 & H2 & H3). split; [|split].
      * constructor; [|done]. rewrite H2. intros [_ Hn]. apply Hn.
        by apply elem_of_union_l, elem_of_singleton.
      * intros y. rewrite !elem_of_cons, H2. split.
        -- intros [->|[Hy Hn]]; [tauto|]. split; [tauto|].
           intros Hs. by apply Hn, elem_of_union_r.
        -- intros [[->|Hy] Hn]; [tauto|].
           destruct (decide (y = x)) as [->|Hne]; [tauto|]. right. split; [done|].
           rewrite elem_of_union, elem_of_singleton. tauto.
      * by apply sublist_skip.
Qed.

(** Of two paths that [uniq_from] returns, the one returned first stands
    in the input at a place before which the other has not occurred. *)
Lemma uniq_from_order xs : forall seen i j x y,
  (i < j)%nat -> uniq_from seen xs !! i = Some x -> uniq_from seen xs !! j = Some y ->
  exists k, xs !! k = Some x /\ y ∉ take k xs.
Proof.
  induction xs as [|x0 xs IH]; intros seen i j x y Hij Hi Hj; simpl in *; [done|].
  assert (Hrec : forall seen',
            (x0 ∈ seen' ) ->
            forall i' j', (i' < j')%nat ->
            uniq_from seen' xs !! i' = Some x -> uniq_from seen' xs !! j' = Some y ->
            exists k, (x0 :: xs) !! k = Some x /\ y ∉ take k (x0 :: xs)).
  { intros seen' Hx0 i' j' Hij' Hi' Hj'.
    destruct (IH seen' i' j' x y Hij' Hi' Hj') as (k & Hk & Hn).
    exists (S k). split; [done|]. simpl. rewrite not_elem_of_cons. split; [|done].
    intros ->. apply list_elem_of_lookup_2 in Hj'.
    destruct (uniq_from_spec xs seen') as (_ & H2 & _). apply H2 in Hj'. tauto. }
  destruct (decide (x0 ∈ seen)) as [Hin|Hout].
  - by apply (Hrec seen Hin i j).
  - destruct i as [|i].
    + injection Hi as ->. exists 0%nat. split; [done|]. simpl. apply not_elem_of_nil.
    + destruct j as [|j]; [lia|]. simpl in Hi, Hj.
      apply (Hrec ({[x0]} ∪ seen)) with i j; [|lia|done|done].
      by apply elem_of_union_l, elem_of_singleton.
Qed.

(** X16 (scan roots).  No scan root is listed twice: the list of roots
    has no repetition, holds exactly the absolute paths made from the
    entries that are not empty, in the order of the entries, and each root
    stands where it first came: of two roots of the list, the earlier one
    is made from an entry before which the later one has not been made. *)
Theorem normalize_base_dirs_spec os base_dirs :
  NoDup (normalize_base_dirs os base_dirs)
  /\ (forall x, x ∈ normalize_base_dirs os base_dirs
                <-> exists b, b ∈ base_dirs /\ normalize_one os b = Some x)
  /\ normalize_base_dirs os base_dirs `sublist_of` omap (normalize_one os) base_dirs
  /\ (forall i j x y, (i < j)%nat ->
        normalize_base_dirs os base_dirs !! i = Some x ->
        normalize_base_dirs os base_dirs !! j = Some y ->
        exists k, omap (normalize_one os) base_dirs !! k = Some x
                  /\ y ∉ take k (omap (normalize_one os) base_dirs)).
Proof.
  unfold normalize_base_dirs.
  destruct (uniq_from_spec (omap (normalize_one os) base_dirs) ∅) as (H1 & H2 & H3).
  split; [done|]. split; [|split; [done|apply uniq_from_order]].
  intros x. rewrite H2, list_elem_of_omap. split; [tauto|].
  intros H. split; [done|]. apply not_elem_of_empty.
Qed.

(** A root given twice, the second time by a relative path, is listed
    once, where it first came. *)
Example normalize_base_dirs_first_occurrence :
  normalize_base_dirs sample_scan ["/home/a"; "/b"; "a"; ""; "/b"] = ["/home/a"; "/b"].
Proof. vm_compute. reflexivity. Qed.

(** *** The walk *)

Lemma tree_induction (P : tree -> Prop) :
  (forall dirnames filenames,
      Forall (fun x : string * tree => P x.2) dirnames -> P (Folder dirnames filenames)) ->
  forall t, P t.
Proof.
  intros H. fix IH 1. intros [dirnames filenames]. apply H.
  induction dirnames as [|[d sub] rest IHrest]; constructor; [apply IH|exact IHrest].
Qed.

Lemma walk_eq keep top dirnames filenames :
  walk keep top (Folder dirnames filenames)
  = (top, filenames)
    :: (dirnames ≫= fun x : string * tree =>
          if keep x.1 then walk keep (PosixPath.join top x.1) x.2 else []).
Proof.
  simpl. f_equal. induction dirnames as [|[d sub] rest IH]; [done|].
  simpl. by rewrite IH.
Qed.

Lemma walk_visits keep t : forall top cur fns,
  (cur, fns) ∈ walk keep top t <-> visits keep top t cur fns.
Proof.
  induction t as [dirnames filenames IH] using tree_induction. intros top cur fns.
  rewrite walk_eq, elem_of_cons, list_elem_of_bind. split.
  - intros [[= -> ->]|([d sub] & Hin & Hsub)]; [constructor|].
    simpl in Hin. destruct (keep d) eqn:Hk; [|by apply elem_of_nil in Hin].
    rewrite Forall_forall in IH. apply (IH _ Hsub) in Hin.
    by eapply visits_below.
  - intros Hv. inversion Hv as [|? ? ? d sub ? ? Hsub Hk Hbelow]; subst; [by left|].
    right. exists (d, sub). split; [|done]. simpl. rewrite Hk.
    rewrite Forall_forall in IH. by apply (IH _ Hsub).
Qed.

(** *** The inventory *)

Lemma sorted_set_spec (out : gset string) :
  StronglySorted String.le (sorted_set out)
  /\ NoDup (sorted_set out)
  /\ forall x, x ∈ sorted_set out <-> x ∈ out.
Proof.
  unfold sorted_set. split; [|split].
  - apply StronglySorted_merge_sort; apply _.
  - rewrite merge_sort_Permutation. apply NoDup_elements.
  - intros x. by rewrite merge_sort_Permutation, elem_of_elements.
Qed.

Lemma found_under_spec os rel_root base_path p :
  p ∈ found_under os rel_root base_path
  <-> match lookup_path os base_path with
      | None => False
      | Some File =>
          allow_file base_path = true /\ p = _to_posix (relpath os base_path rel_root)
      | Some (Dir t) =>
          exists cur fns fn,
            visits (fun d => negb (str_in d EXCLUDE_DIRS)) base_path t cur fns
            /\ fn ∈ fns /\ allow_file (PosixPath.join cur fn) = true
            /\ p = _to_posix (relpath os (PosixPath.join cur fn) rel_root)
      end.
Proof.
  unfold found_under. destruct (lookup_path os base_path) as [[|t]|].
  - destruct (allow_file base_path).
    + rewrite list_elem_of_singleton. tauto.
    + rewrite elem_of_nil. split; [done|]. by intros [? _].
  - rewrite list_elem_of_bind. split.
    + intros ([cur fns] & Hp & Hw). apply walk_visits in Hw.
      apply list_elem_of_bind in Hp as (fn & Hp & Hfn).
      destruct (allow_file (PosixPath.join cur fn)) eqn:Ha; [|by apply elem_of_nil in Hp].
      apply list_elem_of_singleton in Hp. by exists cur, fns, fn.
    + intros (cur & fns & fn & Hv & Hfn & Ha & ->). exists (cur, fns).
      split; [|by apply walk_visits]. apply list_elem_of_bind. exists fn.
      split; [|done]. rewrite Ha. apply list_elem_of_here.
  - apply elem_of_nil.
Qed.

(** X17 (inventory is sorted).  The inventory is in ascending order of
    its paths and holds no path twice. *)
Theorem generate_files_sorted os base_dirs_abs :
  StronglySorted String.le (generate_files os base_dirs_abs)
  /\ NoDup (generate_files os base_dirs_abs).
Proof.
  unfold generate_files.
  destruct (sorted_set_spec
              (list_to_set (base_dirs_abs
                            ≫= found_under os (compute_rel_root os base_dirs_abs))))
    as (H1 & H2 & _).
  by split.
Qed.

(** X18 (what the inventory holds).  A path is in the inventory exactly
    when it is the relative path, from the common root, of a scan root that
    is an allowed file, or of an allowed file in a folder that the walk from
    a scan root reaches through folders with names that are not excluded.
    The name of the scan root itself is not tested. *)
Theorem generate_files_spec os base_dirs_abs p :
  p ∈ generate_files os base_dirs_abs
  <-> exists base_path,
        base_path ∈ base_dirs_abs
        /\ match lookup_path os base_path with
           | None => False
           | Some File =>
               allow_file base_path = true
               /\ p = _to_posix (relpath os base_path (compute_rel_root os base_dirs_abs))
           | Some (Dir t) =>
               exists cur fns fn,
                 visits (fun d => negb (str_in d EXCLUDE_DIRS)) base_path t cur fns
                 /\ fn ∈ fns /\ allow_file (PosixPath.join cur fn) = true
                 /\ p = _to_posix (relpath os (PosixPath.join cur fn)
                                     (compute_rel_root os base_dirs_abs))
           end.
Proof.
  unfold generate_files.
  destruct (sorted_set_spec
              (list_to_set (base_dirs_abs
                            ≫= found_under os (compute_rel_root os base_dirs_abs))))
    as (_ & _ & H).
  rewrite H, elem_of_list_to_set, list_elem_of_bind.
  split; intros (b & H1 & H2).
  - exists b. split; [done|]. by apply found_under_spec.
  - exists b. split; [|done]. by apply found_under_spec.
Qed.

Example generate_files_sample :
  generate_files sample_scan ["/r"] = ["a.py"; "src/b.py"].
Proof. vm_compute. reflexivity. Qed.

(** *** Mode auto *)

Lemma read_text_or_refusal os rel_root p :
  (exists c, read_text os rel_root p = Some c /\ read_refusal os rel_root p = None)
  \/ (exists why, read_text os rel_root p = None /\ read_refusal os rel_root p = Some why).
Proof.
  unfold read_text, read_refusal.
  destruct (auto_read_file_total os rel_root p) as ([c|] & why & -> & _); eauto.
Qed.

Lemma wrote_nil m : wrote m [] = m.
Proof. unfold wrote. rewrite app_nil_r. by destruct m. Qed.

Lemma auto_loop_spec os rel_root total files : forall i contents skipped m,
  exists contents' skipped' out,
    auto_loop os rel_root total i files contents skipped m
    = (Ok (contents', skipped'), wrote m out)
    /\ (forall p, contents' !! p
                  = if decide (p ∈ files)
                    then match read_text os rel_root p with
                         | Some c => Some c
                         | None => contents !! p
                         end
                    else contents !! p)
    /\ (forall p, skipped' !! p
                  = if decide (p ∈ files)
                    then match read_refusal os rel_root p with
                         | Some why => Some why
                         | None => skipped !! p
                         end
                    else skipped !! p).
Proof.
  induction files as [|q files IH]; intros i contents skipped m.
  - exists contents, skipped, []. rewrite wrote_nil. split; [done|].
    split; intros p; destruct (decide (p ∈ [])) as [H|H]; try done;
      by apply elem_of_nil in H.
  - cbn [auto_loop]. unfold read_text, read_refusal in *.
    destruct (auto_read_file_total os rel_root q) as (c & why & Hq & _).
    rewrite (bind_ok _ _ m (c, why) m) by (unfold lift; by rewrite Hq).
    destruct c as [c|].
    + set (pr := if i mod 50 =? 0 then _ else _).
      assert (Hpr : exists o, pr m = (Ok tt, wrote m o)).
      { unfold pr. destruct (i mod 50 =? 0); [by eexists|].
        exists []. by rewrite wrote_nil. }
      destruct Hpr as [o Hpr]. rewrite (bind_ok pr _ m tt _ Hpr).
      destruct (IH (i + 1) (<[q := c]> contents) skipped (wrote m o))
        as (c' & s' & out & -> & Hc & Hs).
      exists c', s', (o ++ out). rewrite wrote_wrote. split; [done|]. split; intros p.
      * rewrite Hc. destruct (decide (p = q)) as [->|Hne].
        -- rewrite Hq, lookup_insert_eq.
           rewrite (decide_True (P := q ∈ q :: files)) by apply list_elem_of_here.
           by repeat case_match.
        -- rewrite lookup_insert_ne by done.
           destruct (decide (p ∈ files)) as [Hin|Hout].
           ++ by rewrite decide_True by (by apply list_elem_of_further).
           ++ rewrite decide_False; [done|]. rewrite elem_of_cons. tauto.
      * rewrite Hs. destruct (decide (p = q)) as [->|Hne].
        -- rewrite Hq. rewrite (decide_True (P := q ∈ q :: files)) by apply list_elem_of_here.
           by case_match.
        -- destruct (decide (p ∈ files)) as [Hin|Hout].
           ++ by rewrite decide_True by (by apply list_elem_of_further).
           ++ rewrite decide_False; [done|]. rewrite elem_of_cons. tauto.
    + destruct (IH (i + 1) contents (<[q := why]> skipped) m)
        as (c' & s' & out & -> & Hc & Hs).
      exists c', s', out. split; [done|]. split; intros p.
      * rewrite Hc. destruct (decide (p = q)) as [->|Hne].
        -- rewrite Hq. rewrite (decide_True (P := q ∈ q :: files)) by apply list_elem_of_here.
           by case_match.
        -- destruct (decide (p ∈ files)) as [Hin|Hout].
           ++ by rewrite decide_True by (by apply list_elem_of_further).
           ++ rewrite decide_False; [done|]. rewrite elem_of_cons. tauto.
      * rewrite Hs. destruct (decide (p = q)) as [->|Hne].
        -- rewrite Hq, lookup_insert_eq.
           rewrite (decide_True (P := q ∈ q :: files)) by apply list_elem_of_here.
           by repeat case_match.
        -- rewrite lookup_insert_ne by done.
           destruct (decide (p ∈ files)) as [Hin|Hout].
           ++ by rewrite decide_True by (by apply list_elem_of_further).
           ++ rewrite decide_False; [done|]. rewrite elem_of_cons. tauto.
Qed.

Lemma auto_loop_fresh os rel_root total files m :
  exists contents skipped out,
    auto_loop os rel_root total 1 files ∅ ∅ m = (Ok (contents, skipped), wrote m out)
    /\ (forall p, contents !! p
                  = if decide (p ∈ files) then read_text os rel_root p else None)
    /\ (forall p, skipped !! p
                  = if decide (p ∈ files) then read_refusal os rel_root p else None).
Proof.
  destruct (auto_loop_spec os rel_root total files 1 ∅ ∅ m) as (c & s & out & H & Hc & Hs).
  exists c, s, out. split; [done|]. split; intros p.
  - rewrite Hc, lookup_empty. by repeat case_match.
  - rewrite Hs, lookup_empty. by repeat case_match.
Qed.

(** X19 (mode auto leaves no file out).  The reading loop of mode auto
    does not raise and reads nothing from the console.  It ends with every
    path of the inventory either among the contents, with the text read, or
    among the skipped, with the reason, and never in both; nothing else is
    in either. *)
Theorem auto_loop_partitions os rel_root files m :
  exists contents skipped out,
    auto_loop os rel_root (Z.of_nat (length files)) 1 files ∅ ∅ m
    = (Ok (contents, skipped), wrote m out)
    /\ (forall p, p ∈ files ->
          (contents !! p = read_text os rel_root p /\ skipped !! p = read_refusal os rel_root p)
          /\ (is_Some (contents !! p) <-> skipped !! p = None))
    /\ (forall p, p ∉ files -> contents !! p = None /\ skipped !! p = None).
Proof.
  destruct (auto_loop_fresh os rel_root (Z.of_nat (length files)) files m)
    as (c & s & out & H & Hc & Hs).
  exists c, s, out. split; [done|]. split.
  - intros p Hp. rewrite Hc, Hs, !decide_True by done. split; [done|].
    destruct (read_text_or_refusal os rel_root p) as [(x & -> & ->)|(w & -> & ->)].
    + split; [done|]. eauto.
    + split; [by intros [? ?]|done].
  - intros p Hp. by rewrite Hc, Hs, !decide_False by done.
Qed.

Lemma acquired_read contents (g : string -> option string) files :
  (forall p, p ∈ files -> contents !! p = g p) ->
  acquired contents files = omap (fun p => pair p <$> g p) files.
Proof.
  unfold acquired. induction files as [|q files IH]; intros H; [done|]. simpl.
  rewrite (H q) by apply list_elem_of_here.
  assert (IH' := IH (fun p Hp => H p (list_elem_of_further _ _ _ Hp))).
  destruct (g q); simpl; [f_equal|]; exact IH'.
Qed.

Lemma print_skipped_eq items : forall m,
  exists out, print_skipped items m = (Ok tt, wrote m out).
Proof.
  induction items as [|[p why] items IH]; intros m; simpl.
  - exists []. by rewrite wrote_nil.
  - rewrite (bind_ok _ _ m tt (wrote m [Print (" - " +:+ p +:+ " :: " +:+ why)]))
      by reflexivity.
    destruct (IH (wrote m [Print (" - " +:+ p +:+ " :: " +:+ why)])) as [out ->].
    eexists. by rewrite wrote_wrote.
Qed.

Lemma auto_report_eq files contents skipped m :
  exists out, auto_report files contents skipped m = (Ok 0, wrote m out).
Proof.
  unfold auto_report.
  rewrite (bind_ok _ _ m tt (wrote m [Print EmptyString])) by reflexivity.
  rewrite (bind_ok (print _) _ _ tt (wrote (wrote m [Print EmptyString]) [Print _]))
    by reflexivity.
  rewrite wrote_wrote.
  destruct (negb (bool_decide (skipped = ∅))).
  - match goal with |- context [(_ ≫= _) (wrote m ?o)] =>
      destruct (print_skipped_eq (sorted_items skipped)
                  (wrote (wrote m o) [Print (color "Skipped files:")])) as [out Hout];
      rewrite (bind_ok _ _ (wrote m o) tt (wrote (wrote (wrote m o)
                 [Print (color "Skipped files:")]) out))
    end.
    + rewrite !wrote_wrote. by eexists.
    + by rewrite (bind_ok _ _ _ tt (wrote _ [Print (color "Skipped files:")])) by reflexivity.
  - match goal with |- context [(_ ≫= _) (wrote m ?o)] =>
      rewrite (bind_ok _ _ (wrote m o) tt
                 (wrote (wrote m o) [Print (color "No skipped files. Clean.")]))
        by reflexivity
    end.
    rewrite !wrote_wrote. by eexists.
Qed.

Lemma finish_report_eq files done m :
  exists out, finish_report files done m = (Ok 0, wrote m out).
Proof.
  unfold finish_report.
  rewrite (bind_ok _ _ m tt (wrote m [Print EmptyString])) by reflexivity.
  rewrite (bind_ok (print _) _ _ tt (wrote (wrote m [Print EmptyString]) [Print _]))
    by reflexivity.
  rewrite wrote_wrote.
  match goal with |- context [(_ ≫= _) (wrote m ?o)] =>
    assert (Hrem : exists out,
              match remaining files done with
              | [] => print (color "All files completed. Good job.")
              | ps => print (color "Files with no content (still incomplete):");;
                      print_items ps
              end (wrote m o) = (Ok tt, wrote (wrote m o) out))
  end.
  { destruct (remaining files done) as [|p ps]; [by eexists|].
    rewrite (bind_ok _ _ _ tt (wrote _ [Print (color "Files with no content (still incomplete):")]))
      by reflexivity.
    rewrite print_items_eq, wrote_wrote. by eexists. }
  destruct Hrem as [out Hrem]. rewrite (bind_ok _ _ _ tt _ Hrem).
  rewrite (bind_ok (print _) _ _ tt (wrote _ [Print _])) by reflexivity.
  rewrite !wrote_wrote. by eexists.
Qed.

(** X20 (the bundle of mode auto).  Mode auto reads nothing from the
    console and leaves the variables and the checkpoint file alone.  If
    [bundle.txt] can be written, the status is 0 and the bundle is the head
    with the paths that were not read and why, sorted, followed by one group
    for each path that was read, in inventory order, with the text read; if
    not, the write's exception leaves [main] and the old bundle stays. *)
Theorem auto_mode_bundle os files rel_root m bundle :
  exists skipped out,
    (forall p, skipped !! p
               = if decide (p ∈ files) then read_refusal os rel_root p else None)
    /\ auto_mode os files rel_root m bundle
       = match write_text os BUNDLE_NAME with
         | Returns _ =>
             (Ok 0, wrote m out,
              Some (bundle_head (now_isoformat os) rel_root (sorted_items skipped)
                    +:+ join (group_text
                              <$> omap (fun p => pair p <$> read_text os rel_root p) files)))
         | Raises n => (Raise (Exception n), wrote m out, bundle)
         end.
Proof.
  unfold auto_mode.
  rewrite (bind_ok _ _ m tt
             (wrote m [Print (color "AUTO mode: reading files directly and building bundle.")]))
    by reflexivity.
  rewrite (bind_ok _ _ _ tt
             (wrote (wrote m [Print (color "AUTO mode: reading files directly and building bundle.")])
                [Print (color "No copy-paste. Just build.")]))
    by reflexivity.
  rewrite wrote_wrote.
  match goal with |- context [auto_loop _ _ _ _ _ _ _ ?m1] =>
    destruct (auto_loop_fresh os rel_root (Z.of_nat (length files)) files m1)
      as (c & s & out & -> & Hc & Hs) end.
  rewrite wrote_wrote. unfold write_bundle.
  destruct (write_text os BUNDLE_NAME) as [[]|n].
  - rewrite build_bundle_text_eq.
    rewrite (acquired_read c (read_text os rel_root) files)
      by (intros p Hp; by rewrite Hc, decide_True).
    match goal with |- context [auto_report files c s ?m1] =>
      destruct (auto_report_eq files c s m1) as [out' ->] end.
    rewrite wrote_wrote. exists s. eexists. split; [exact Hs|reflexivity].
  - exists s. eexists. split; [exact Hs|reflexivity].
Qed.

(** *** The end of an interactive run *)

Lemma acquired_flagged contents files : forall done,
  length done = length files ->
  (forall i p, files !! i = Some p ->
     (is_Some (contents !! p) <-> done !! i = Some true)) ->
  fst <$> acquired contents files = flagged files done.
Proof.
  unfold acquired, flagged.
  induction files as [|p files IH]; intros ds Hlen Hiff.
  { by destruct ds. }
  destruct ds as [|d ds]; [discriminate|].
  injection Hlen as Hlen.
  assert (IH' := IH ds Hlen (fun i q Hq => Hiff (S i) q Hq)).
  destruct (Hiff 0%nat p eq_refl) as [H1 H2]. simpl in *.
  destruct d; simpl.
  - destruct (H2 eq_refl) as [c ->]. simpl. by f_equal.
  - destruct (contents !! p) as [c|]; [|done]. by discriminate H1.
Qed.

Lemma done_count_flagged files : forall done,
  length done = length files ->
  done_count done = Z.of_nat (length (flagged files done)).
Proof.
  unfold done_count, flagged.
  induction files as [|p files IH]; intros ds Hlen.
  { by destruct ds. }
  destruct ds as [|d ds]; [discriminate|].
  injection Hlen as Hlen. specialize (IH ds Hlen). simpl.
  destruct d; simpl; [|exact IH]. rewrite length_fmap in *. lia.
Qed.

Lemma finish_groups os files rel_root m bundle :
  session_ok files (vars m) ->
  (exists out,
     finish os files rel_root m bundle
     = match write_text os BUNDLE_NAME with
       | Returns _ =>
           (Ok 0, wrote m out,
            Some (bundle_head (now_isoformat os) rel_root []
                  +:+ join (group_text <$> acquired (contents (vars m)) files)))
       | Raises n => (Raise (Exception n), m, bundle)
       end)
  /\ fst <$> acquired (contents (vars m)) files = flagged files (done (vars m))
  /\ done_count (done (vars m)) = Z.of_nat (length (acquired (contents (vars m)) files)).
Proof.
  intros (Hlen & Hiff & _).
  pose proof (acquired_flagged (contents (vars m)) files (done (vars m)) Hlen Hiff) as Hf.
  split; [|split; [exact Hf|]].
  - unfold finish, write_bundle. destruct (write_text os BUNDLE_NAME) as [[]|n].
    + destruct (finish_report_eq files (done (vars m)) m) as [out ->].
      exists out. by rewrite build_bundle_text_eq.
    + by exists [].
  - rewrite (done_count_flagged files) by done. rewrite <-Hf. by rewrite length_fmap.
Qed.

(** X21 (the bundle of an interactive run).  When the loop is left with
    the session state well formed, the bundle written has no list of skipped
    files and one group for each path whose flag is set, in inventory order,
    with the content kept for it; the number of flags that the last message
    gives is the number of groups.  If [bundle.txt] cannot be written, the
    write's exception leaves [main], with the old bundle in place and
    nothing printed. *)
Theorem finish_bundle os files rel_root m bundle :
  session_ok files (vars m) ->
  (exists out,
     finish os files rel_root m bundle
     = match write_text os BUNDLE_NAME with
       | Returns _ =>
           (Ok 0, wrote m out,
            Some (bundle_head (now_isoformat os) rel_root []
                  +:+ join (group_text <$> acquired (contents (vars m)) files)))
       | Raises n => (Raise (Exception n), m, bundle)
       end)
  /\ fst <$> acquired (contents (vars m)) files = flagged files (done (vars m))
  /\ done_count (done (vars m)) = Z.of_nat (length (acquired (contents (vars m)) files)).
Proof. apply finish_groups. Qed.

Lemma finish_bundle_witness :
  (exists out,
     finish sample_os sample_files "/r" (half_done []) None
     = (Ok 0, wrote (half_done []) out,
        Some (bundle_head "2024-01-01T00:00:00" "/r" []
              +:+ join (group_text <$> acquired (contents (vars (half_done []))) sample_files))))
  /\ fst <$> acquired (contents (vars (half_done []))) sample_files
     = flagged sample_files (done (vars (half_done [])))
  /\ done_count (done (vars (half_done [])))
     = Z.of_nat (length (acquired (contents (vars (half_done []))) sample_files)).
Proof.
  apply (finish_bundle sample_os sample_files "/r" (half_done []) None).
  split; [reflexivity|]. split; [|split; [|split; [simpl; lia|]]].
  - intros [|[|i]] p Hp; simpl in Hp; [injection Hp as <-|injection Hp as <-|done].
    + split; [done|]. intros _. by eexists.
    + split; [|done]. by intros [? ?].
  - intros p [c Hc]. simpl in Hc. apply lookup_singleton_Some in Hc as [<- _].
    apply list_elem_of_here.
  - apply list_elem_of_further, list_elem_of_here.
Defined.

(** *** Writing through a temporary file *)

Lemma tmp_name_other path pid : tmp_name path pid <> path.
Proof.
  unfold tmp_name. intros H. apply (f_equal String.length) in H.
  rewrite !str_length_app in H. simpl in H. lia.
Qed.

Lemma prefix_from_index s : forall n, prefix n s +:+ from_index n s = s.
Proof.
  induction s as [|c s IH]; intros [|n]; simpl; try done.
  by rewrite str_app_cons, IH.
Qed.

Lemma prefix_all s : prefix (String.length s) s = s.
Proof. induction s as [|c s IH]; simpl; [done|]. by rewrite IH. Qed.

Lemma from_index_all s : from_index (String.length s) s = EmptyString.
Proof. induction s as [|c s IH]; simpl; done. Qed.

Lemma move_other n p fs q : q <> p -> on_disk (move n p fs) !! q = on_disk fs !! q.
Proof. intros H. unfold move. simpl. by rewrite lookup_insert_ne. Qed.

(** What is in the file and what is still buffered make up, together, the
    text that was written, at every step between [open] and [close]. *)
Lemma move_keeps_text n p fs text :
  default EmptyString (on_disk fs !! p) +:+ buffered fs = text ->
  default EmptyString (on_disk (move n p fs) !! p) +:+ buffered (move n p fs) = text.
Proof.
  intros H. unfold move. simpl. rewrite lookup_insert_eq. simpl.
  by rewrite str_app_assoc, prefix_from_index.
Qed.

Lemma move_all p fs text :
  default EmptyString (on_disk fs !! p) +:+ buffered fs = text ->
  on_disk (move (String.length (buffered fs)) p fs) !! p = Some text
  /\ buffered (move (String.length (buffered fs)) p fs) = EmptyString.
Proof.
  intros H. unfold move. simpl.
  by rewrite lookup_insert_eq, prefix_all, from_index_all, H.
Qed.

(** The block that writes the temporary file touches no other path; when it
    ends without an exception the temporary file holds the text. *)
Lemma tmp_file_written os tmp data fs :
  let block := with_open (sys_open os tmp)
                 (sys_write os tmp data;; sys_flush os tmp;; sys_fsync os)
                 (sys_close os tmp) in
  (forall q, q <> tmp -> on_disk (block fs).2 !! q = on_disk fs !! q)
  /\ ((block fs).1 = Ok tt -> on_disk (block fs).2 !! tmp = Some data)
  /\ ((block fs).1 = Ok tt <->
      forall s, s <> SysReplace -> result_of os s = Returns tt).
Proof.
  intros block. unfold block, with_open, sys_open.
  destruct (result_of os SysOpen) as [[]|n] eqn:Eo; cbn [fst snd call].
  2:{ split; [done|]. split; [done|]. split; [done|].
      intros H. specialize (H SysOpen). rewrite Eo in H. by discriminate H. }
  set (fs1 := {| on_disk := <[tmp := EmptyString]> (on_disk fs); buffered := EmptyString |}).
  assert (H1 : forall q, q <> tmp -> on_disk fs1 !! q = on_disk fs !! q).
  { intros q Hq. unfold fs1. simpl. by rewrite lookup_insert_ne. }
  unfold mbind, fs_bind, sys_write, sys_flush, sys_fsync, sys_close.
  set (fs2 := move (moved_by os SysWrite) tmp
                {| on_disk := on_disk fs1; buffered := buffered fs1 +:+ data |}).
  assert (H2 : forall q, q <> tmp -> on_disk fs2 !! q = on_disk fs !! q).
  { intros q Hq. unfold fs2. rewrite move_other by done. by apply H1. }
  assert (T2 : default EmptyString (on_disk fs2 !! tmp) +:+ buffered fs2 = data).
  { unfold fs2. apply move_keeps_text. unfold fs1. simpl.
    by rewrite lookup_insert_eq. }
  assert (Hno : forall s0 n0, result_of os s0 = Raises n0 -> s0 <> SysReplace ->
                  ~ (forall s, s <> SysReplace -> result_of os s = Returns tt)).
  { intros s0 n0 E Hs H. rewrite (H s0 Hs) in E. discriminate. }
  destruct (result_of os SysWrite) as [[]|n] eqn:Ew; cbn [fst snd call].
  2:{ destruct (result_of os SysClose) as [[]|n'] eqn:Ec; cbn [fst snd call].
      all: split; [intros q Hq; rewrite move_other by done; by apply H2|].
      all: split; [done|]. all: split; [done|]. all: intros H; exfalso; by eapply (Hno SysWrite). }
  destruct (result_of os SysFlush) as [[]|n] eqn:Ef; cbn [fst snd call].
  2:{ destruct (result_of os SysClose) as [[]|n'] eqn:Ec; cbn [fst snd call].
      all: split; [intros q Hq; rewrite !move_other by done; by apply H2|].
      all: split; [done|]. all: split; [done|]. all: intros H; exfalso; by eapply (Hno SysFlush). }
  destruct (move_all tmp fs2 data T2) as [T3 B3].
  set (fs3 := move (String.length (buffered fs2)) tmp fs2) in *.
  assert (H3 : forall q, q <> tmp -> on_disk fs3 !! q = on_disk fs !! q).
  { intros q Hq. unfold fs3. rewrite move_other by done. by apply H2. }
  assert (T3' : default EmptyString (on_disk fs3 !! tmp) +:+ buffered fs3 = data).
  { by rewrite T3, B3, str_app_nil_r. }
  destruct (result_of os SysFsync) as [[]|n] eqn:Es; cbn [fst snd call].
  2:{ destruct (result_of os SysClose) as [[]|n'] eqn:Ec; cbn [fst snd call].
      all: split; [intros q Hq; rewrite !move_other by done; by apply H3|].
      all: split; [done|]. all: split; [done|]. all: intros H; exfalso; by eapply (Hno SysFsync). }
  destruct (result_of os SysClose) as [[]|n] eqn:Ec; cbn [fst snd call].
  2:{ split; [intros q Hq; rewrite !move_other by done; by apply H3|].
      split; [done|]. split; [done|]. intros H; exfalso; by eapply (Hno SysClose). }
  split; [intros q Hq; rewrite !move_other by done; by apply H3|].
  split; [intros _; by apply (move_all tmp fs3 data)|].
  split; [|done]. intros _ [] Hs; done.
Qed.

(** X22 (atomic write).  [atomic_write_text] follows the source call by
    call: the temporary file is opened, written, flushed and synced, closed
    however that went, and then renamed.  Whatever the operating system
    does at each call: a write that returns leaves the text under the path
    and no temporary file; a write that raises, at whatever step, leaves
    under the path what was there before; no path other than the path and
    its temporary name is touched; and the write returns exactly when each
    of the six calls does. *)
Theorem atomic_write_text_all_or_nothing os path data fs :
  let tmp := tmp_name path (getpid os) in
  match atomic_write_text os path data fs with
  | (Ok _, fs') => on_disk fs' !! path = Some data /\ on_disk fs' !! tmp = None
  | (Raise _, fs') => on_disk fs' !! path = on_disk fs !! path
  end
  /\ (forall q, q <> path -> q <> tmp ->
       on_disk (atomic_write_text os path data fs).2 !! q = on_disk fs !! q)
  /\ ((atomic_write_text os path data fs).1 = Ok tt <->
      forall s, result_of os s = Returns tt).
Proof.
  intros tmp. pose proof (tmp_name_other path (getpid os)) as Hne.
  destruct (tmp_file_written os tmp data fs) as (Hq & Hok & Hiff).
  cbv zeta in Hq, Hok, Hiff.
  assert (Heq : atomic_write_text os path data fs
                = match with_open (sys_open os tmp)
                          (sys_write os tmp data;; sys_flush os tmp;; sys_fsync os)
                          (sys_close os tmp) fs with
                  | (Ok _, fs1) => sys_replace os tmp path fs1
                  | (Raise e, fs1) => (Raise e, fs1)
                  end) by reflexivity.
  rewrite Heq. clear Heq.
  destruct (with_open _ _ _ fs) as [[[]|e] fs1]; simpl in Hq, Hok, Hiff.
  2:{ simpl. split; [by apply Hq|]. split; [intros q H1 H2; by apply Hq|].
      split; [done|]. intros H. apply Hiff. intros s _. apply H. }
  unfold sys_replace. rewrite (Hok eq_refl).
  destruct (result_of os SysReplace) as [[]|n] eqn:Er; simpl.
  - split; [split|].
    + by rewrite lookup_insert_eq.
    + rewrite lookup_insert_ne by done. by rewrite lookup_delete_eq.
    + split.
      * intros q H1 H2. rewrite lookup_insert_ne by done.
        rewrite lookup_delete_ne by done. by apply Hq.
      * split; [|done]. intros _ s. destruct s; try (by apply Hiff). exact Er.
  - split; [by apply Hq|]. split; [intros q H1 H2; by apply Hq|].
    split; [done|]. intros H. specialize (H SysReplace). rewrite Er in H. discriminate.
Qed.

(** A write on a sound disk, and one on a disk that is full at [flush]: the
    first three characters reached the temporary file, which stays, and the
    file under the path is as it was. *)
Example atomic_write_text_samples :
  let fs := {| on_disk := {[ "state.json" := "old" ]}; buffered := EmptyString |} in
  (atomic_write_text sound_disk "state.json" "new text" fs
   = (Ok tt, {| on_disk := {[ "state.json" := "new text" ]}; buffered := EmptyString |}))
  /\ (atomic_write_text full_disk "state.json" "new text" fs
      = (Raise (Exception "OSError"),
         {| on_disk := {[ "state.json" := "old"; "state.json.tmp.4711" := "new" ]};
            buffered := " text" |})).
Proof. split; vm_compute; reflexivity. Qed.

Lemma contains_app_r sub a : forall b, contains sub (b +:+ sub +:+ a) = true.
Proof.
  assert (Hs : forall s t, startswith (s +:+ t) s = true).
  { induction s as [|c s IH]; intros t; [by destruct t|].
    rewrite str_app_cons. simpl. by rewrite Ascii.eqb_refl, IH. }
  induction b as [|c b IH].
  - rewrite str_app_nil_l. destruct (sub +:+ a) eqn:E; simpl; rewrite <-?E, Hs; done.
  - rewrite str_app_cons. simpl. rewrite IH. apply orb_true_r.
Qed.

(** X23 (temporary files are not scanned).  A file that a write left
    behind under its temporary name is not taken into the inventory, in
    whatever folder it lies and whatever the path written was. *)
Theorem leftover_tmp_not_allowed fp path pid :
  PosixPath.basename fp = tmp_name path pid -> allow_file fp = false.
Proof.
  intros Hb. unfold allow_file. rewrite Hb.
  destruct (str_in (tmp_name path pid) EXCLUDE_FILES); [done|].
  unfold tmp_name. by rewrite contains_app_r.
Qed.

Lemma leftover_tmp_not_allowed_witness :
  allow_file ("/r/src/" +:+ tmp_name "main.py" 4711) = false.
Proof.
  apply (leftover_tmp_not_allowed ("/r/src/" +:+ tmp_name "main.py" 4711) "main.py" 4711).
  vm_compute. reflexivity.
Defined.

(** *** The screen *)






(** *** [main] as a whole *)

Lemma console_only_select_mode_answers default :
  console_only (select_mode_answers default).
Proof.
  intros m. unfold select_mode_answers.
  by destruct (select_mode_loop default (stdin m) (stdout m)) as [[r rest] out].
Qed.

Lemma console_only_select_mode default : console_only (select_mode_before_path default).
Proof.
  unfold select_mode_before_path.
  repeat (apply console_only_bind; [apply console_only_print|intros ?]).
  apply console_only_select_mode_answers.
Qed.

Lemma console_only_get_scan_dirs paths : console_only (get_scan_dirs paths).
Proof.
  unfold get_scan_dirs. destruct paths; [|apply console_only_ret].
  apply console_only_bind.
  - apply console_only_try; [|apply console_only_ret].
    apply console_only_bind; [apply console_only_input|intros; apply console_only_ret].
  - intros p. repeat case_match; apply console_only_ret.
Qed.

Lemma console_only_choose argv : console_only (choose_mode_and_dirs argv).
Proof.
  unfold choose_mode_and_dirs. destruct (parse_mode_and_dirs argv) as [[mode rest] forced].
  apply console_only_bind.
  - destruct (negb forced); [apply console_only_select_mode|apply console_only_ret].
  - intros mode'. apply console_only_bind; [apply console_only_get_scan_dirs|].
    intros; apply console_only_ret.
Qed.

Lemma select_mode_loop_in_MODES default inp : forall out mode rest out',
  default ∈ MODES ->
  select_mode_loop default inp out = (Ok mode, rest, out') -> mode ∈ MODES.
Proof.
  induction inp as [|[line|] inp IH]; intros out mode rest out' Hd; simpl.
  - by intros [= <- _ _].
  - repeat case_match; try (by intros [= <- _ _]); try (by eapply IH).
    + intros [= <- _ _]. apply list_elem_of_here.
    + intros [= <- _ _]. apply list_elem_of_further, list_elem_of_here.
    + intros [= <- _ _]. do 2 apply list_elem_of_further. apply list_elem_of_here.
  - discriminate.
Qed.

Lemma choose_mode_in_MODES argv m mode raw m1 :
  choose_mode_and_dirs argv m = (Ok (mode, raw), m1) -> mode ∈ MODES.
Proof.
  unfold choose_mode_and_dirs. pose proof (parse_mode_in_MODES argv) as Hp.
  destruct (parse_mode_and_dirs argv) as [[mode0 rest] forced]. simpl in Hp.
  unfold mbind at 1. unfold prog_bind at 1.
  destruct (negb forced).
  - rewrite select_mode_before_path_eq. unfold select_mode_answers.
    destruct (select_mode_loop MODE_HYBRID _ _) as [[[x|e] rest'] out] eqn:E; [|discriminate].
    apply select_mode_loop_in_MODES in E; [|apply list_elem_of_here].
    unfold mbind, prog_bind.
    destruct (get_scan_dirs rest _) as [[ds|e] m2]; [|discriminate].
    by intros [= <- _ _].
  - unfold mret at 1. unfold prog_ret at 1. unfold mbind, prog_bind.
    destruct (get_scan_dirs rest m) as [[ds|e] m2]; [|discriminate].
    by intros [= <- _ _].
Qed.

Lemma passes_keeps os files dirs root fuel : forall m,
  NoDup files -> inv files m -> inv files (machine_of (passes os files dirs root fuel m)).
Proof.
  induction fuel as [|k IH]; intros m Hnd Hm; simpl; [done|].
  pose proof (loop_pass_keeps os files dirs root m Hnd Hm) as H.
  destruct (loop_pass os files dirs root m) as [m'|m'|e m']; simpl in *; [|done..].
  by apply IH.
Qed.

Lemma no_files_report_eq repr_paths dirs m :
  no_files_report repr_paths dirs m
  = (Ok 1, wrote m [Print (color "No files found to scan.");
                    Print (color "Check:" +:+ " "
                           +:+ "are the paths correct? is the extension in ALLOWED_EXTS?");
                    Print (color "Scan roots:" +:+ " " +:+ repr_paths dirs)]).
Proof. unfold no_files_report. run. unfold wrote. simpl. by rewrite <-!app_assoc. Qed.

(** X25 (nothing to scan).  When the scan finds no file, [main] ends with
    status 1 in every mode, whatever the loop could have done: it has
    written neither [bundle.txt] nor the checkpoint file, and the variables
    are untouched. *)
Theorem main_without_files fuel os fs repr_paths argv m bundle mode raw m1 :
  choose_mode_and_dirs argv m = (Ok (mode, raw), m1) ->
  inventory_of fs raw = [] ->
  exists out,
    main fuel os fs repr_paths argv m bundle = Some (Ok 1, wrote m1 out, bundle)
    /\ checkpoint m1 = checkpoint m /\ vars m1 = vars m.
Proof.
  intros Hc Hf. unfold main. rewrite Hc. unfold inventory_of in Hf. rewrite Hf.
  rewrite no_files_report_eq. eexists. split; [reflexivity|].
  destruct (console_only_choose argv m) as [Hv Hk]. rewrite Hc in Hv, Hk. by split.
Qed.

Lemma main_without_files_witness :
  exists out,
    main 5 sample_os empty_scan (fun _ => "['/nowhere']") ["--paste"; "/nowhere"]
      (half_done []) None
    = Some (Ok 1, wrote (half_done []) out, None)
    /\ checkpoint (half_done []) = checkpoint (half_done [])
    /\ vars (half_done []) = vars (half_done []).
Proof.
  apply (main_without_files 5 sample_os empty_scan (fun _ => "['/nowhere']")
           ["--paste"; "/nowhere"] (half_done []) None MODE_PASTE ["/nowhere"] (half_done []));
    reflexivity.
Defined.

(** X26 (the bundle of a whole interactive run).  Let the checkpoint file
    be missing, unreadable, or a record that the program wrote.  When
    [main], in mode hybrid or paste and with some file found, ends with a
    status, the status is 0 and [bundle.txt] holds the head without skipped
    files and one group for each path whose flag is set at the end, in
    inventory order, with the content kept for it. *)
Theorem main_interactive_bundle fuel os fs repr_paths argv m bundle mode raw m1
    status m' bundle' :
  checkpoint_ok (checkpoint m) ->
  choose_mode_and_dirs argv m = (Ok (mode, raw), m1) ->
  mode <> MODE_AUTO -> inventory_of fs raw <> [] ->
  main fuel os fs repr_paths argv m bundle = Some (Ok status, m', bundle') ->
  let files := inventory_of fs raw in
  let v := vars m' in
  status = 0
  /\ session_ok files v
  /\ bundle' = Some (bundle_head (now_isoformat os) (root_of fs raw) []
                     +:+ join (group_text <$> acquired (contents v) files))
  /\ fst <$> acquired (contents v) files = flagged files (done v).
Proof.
  intros Hck Hc Hmode Hne. unfold main. rewrite Hc.
  fold (inventory_of fs raw). fold (root_of fs raw).
  set (root := root_of fs raw).
  assert (Hnd : NoDup (inventory_of fs raw)).
  { unfold inventory_of, generate_files. apply sorted_set_spec. }
  remember (inventory_of fs raw) as files eqn:Ef.
  destruct files as [|f0 fs0]; [done|]. clear Ef Hne.
  set (files := f0 :: fs0) in *.
  replace (String.eqb mode MODE_AUTO) with false
    by (symmetry; by apply String.eqb_neq).
  assert (Hk1 : checkpoint_ok (checkpoint m1)).
  { destruct (console_only_choose argv m) as [_ Hk]. rewrite Hc in Hk. simpl in Hk.
    by rewrite Hk. }
  destruct (interactive_start mode files (normalize_base_dirs fs raw) root m1)
    as [[[]|e] m2] eqn:Hs; [|discriminate].
  pose proof (interactive_start_keeps mode files _ root m1 m2
                (choose_mode_in_MODES _ _ _ _ _ Hc) Hk1 Hs) as Hinv.
  pose proof (passes_keeps os files (normalize_base_dirs fs raw) root fuel m2 Hnd Hinv)
    as Hinv'.
  destruct (passes os files (normalize_base_dirs fs raw) root fuel m2)
    as [m3|m3|e m3]; [discriminate| |discriminate].
  simpl in Hinv'. destruct Hinv' as [Hok _].
  destruct (finish_groups os files root m3 bundle Hok) as ([out Hfin] & Hfl & _).
  rewrite Hfin. destruct (write_text os BUNDLE_NAME) as [[]|n]; [|discriminate].
  intros [= <- <- <-]. simpl. done.
Qed.

Lemma main_interactive_bundle_witness :
  match main 5 sample_os sample_scan (fun _ => "['/r']") ["--paste"; "/r"]
          (half_done [Keys nl; Keys ("hello" +:+ nl); Keys ("\END" +:+ nl);
                      Keys ("q" +:+ nl); Keys ("y" +:+ nl)]) None with
  | Some (Ok status, m', bundle') =>
      status = 0
      /\ session_ok (inventory_of sample_scan ["/r"]) (vars m')
      /\ bundle' = Some (bundle_head (now_isoformat sample_os) (root_of sample_scan ["/r"]) []
                         +:+ join (group_text
                                   <$> acquired (contents (vars m'))
                                         (inventory_of sample_scan ["/r"])))
      /\ fst <$> acquired (contents (vars m')) (inventory_of sample_scan ["/r"])
         = flagged (inventory_of sample_scan ["/r"]) (done (vars m'))
  | _ => False
  end.
Proof.
  destruct (main 5 sample_os sample_scan (fun _ => "['/r']") ["--paste"; "/r"]
              (half_done [Keys nl; Keys ("hello" +:+ nl); Keys ("\END" +:+ nl);
                          Keys ("q" +:+ nl); Keys ("y" +:+ nl)]) None)
    as [[[[status|e] m'] bundle']|] eqn:E.
  - refine (main_interactive_bundle 5 sample_os sample_scan (fun _ => "['/r']")
              ["--paste"; "/r"] _ None MODE_PASTE ["/r"] _ status m' bundle' _ eq_refl _ _ E).
    + exact I.
    + discriminate.
    + vm_compute. discriminate.
  - vm_compute in E. discriminate.
  - vm_compute in E. discriminate.
Defined.

Example main_sample_bundle :
  (fun r => match r with Some (_, _, b) => b | None => None end)
    (main 5 sample_os sample_scan (fun _ => "['/r']") ["--paste"; "/r"]
       (half_done [Keys nl; Keys ("hello" +:+ nl); Keys ("\END" +:+ nl);
                   Keys ("q" +:+ nl); Keys ("y" +:+ nl)]) None)
  = Some (join ((fun line => line +:+ nl) <$>
      ["=== BUNDLE GENERATED: 2024-01-01T00:00:00 ===";
       "=== REL_ROOT: /r ===";
       "";
       "=== FILE: a.py ===";
       "hello";
       "=== END FILE: a.py ===";
       ""])).
Proof. vm_compute. reflexivity. Qed.

(** *** Between passes, and after a restart *)

Lemma untouched_synced os files dirs root m m' :
  untouched m m' -> synced os files dirs root m -> synced os files dirs root m'.
Proof.
  intros [Hs Hc] H. unfold synced in *. rewrite Hc, H.
  by injection Hs as -> -> -> -> ->.
Qed.

Lemma untouched_trans m0 m m' : untouched m0 m -> untouched m m' -> untouched m0 m'.
Proof. intros [H1 H2] [H3 H4]. split; congruence. Qed.

(** X27 (what a kill between passes finds on disk).  After any number of
    passes from the start of the loop, if the loop goes on or was left, the
    session state and the checkpoint file are those of the start, or the
    checkpoint file holds the record of the session state as it is now. *)
Theorem between_passes_disk_is_current os files dirs root fuel m0 :
  match passes os files dirs root fuel m0 with
  | Running m | Finishing m =>
      untouched m0 m
      \/ (write_text os STATE_FILE = Returns tt /\ synced os files dirs root m)
  | Crashed _ _ => True
  end.
Proof.
  assert (H : forall fuel m,
            untouched m0 m
            \/ (write_text os STATE_FILE = Returns tt /\ synced os files dirs root m) ->
            match passes os files dirs root fuel m with
            | Running m' | Finishing m' =>
                untouched m0 m'
                \/ (write_text os STATE_FILE = Returns tt /\ synced os files dirs root m')
            | Crashed _ _ => True
            end).
  { clear fuel. induction fuel as [|k IH]; intros m Hm; simpl; [exact Hm|].
    pose proof (pass_outcome os files dirs root m) as Hp.
    assert (Hnext : forall m',
              untouched m m'
              \/ (write_text os STATE_FILE = Returns tt /\ synced os files dirs root m') ->
              untouched m0 m'
              \/ (write_text os STATE_FILE = Returns tt /\ synced os files dirs root m')).
    { intros m' [Hu|Hs]; [|by right].
      destruct Hm as [Hm|[Hw Hm]].
      - left. by eapply untouched_trans.
      - right. split; [done|]. by eapply untouched_synced. }
    destruct (loop_pass os files dirs root m) as [m'|m'|e m']; [|by apply Hnext|done].
    apply IH. by apply Hnext. }
  apply H. left. by split.
Qed.

(** X28 (restart).  Let the checkpoint file hold the record of a session
    state that is well formed for the inventory.  A new run on the same
    inventory, scan roots and root starts with the flags, the contents, the
    cursor and the filter of that state; the mode is the one picked for the
    new run, not the saved one, and no override is armed. *)
Theorem restart_restores_session os files dirs root m mode' m0 :
  synced os files dirs root m -> session_ok files (vars m) ->
  checkpoint m0 = checkpoint m ->
  exists out,
    interactive_start mode' files dirs root m0
    = (Ok tt,
       {| vars := {| done := done (vars m); contents := contents (vars m);
                     cursor := cursor (vars m);
                     show_remaining_only := show_remaining_only (vars m);
                     mode := mode'; next_action_override := None |};
          stdin := stdin m0; checkpoint := checkpoint m0; stdout := stdout m0 ++ out |}).
Proof.
  intros Hsync (Hlen & _ & Hkeys & Hcur & Hmode) Hck.
  unfold interactive_start. run. rewrite Hck, Hsync.
  rewrite load_saved_match by done. run.
  eexists. rewrite <-Hsync, <-Hck. rewrite <-app_assoc. reflexivity.
Qed.

Lemma restart_restores_session_witness :
  exists out,
    interactive_start MODE_HYBRID sample_files ["/r"] "/r"
      (snd (save_state sample_os sample_files ["/r"] "/r" (half_done [Keys nl])))
    = (Ok tt,
       {| vars := {| done := [true; false]; contents := {[ "a.py" := "X" +:+ nl ]};
                     cursor := 0; show_remaining_only := false;
                     mode := MODE_HYBRID; next_action_override := None |};
          stdin := [Keys nl];
          checkpoint := checkpoint (snd (save_state sample_os sample_files ["/r"] "/r"
                                           (half_done [Keys nl])));
          stdout := [] ++ out |}).
Proof.
  apply (restart_restores_session sample_os sample_files ["/r"] "/r"
           (snd (save_state sample_os sample_files ["/r"] "/r" (half_done [Keys nl])))
           MODE_HYBRID
           (snd (save_state sample_os sample_files ["/r"] "/r" (half_done [Keys nl])))).
  - reflexivity.
  - split; [reflexivity|]. split; [|split; [|split; [simpl; lia|]]].
    + intros [|[|i]] p Hp; simpl in Hp; [injection Hp as <-|injection Hp as <-|done].
      * split; [done|]. intros _. by eexists.
      * split; [|done]. by intros [? ?].
    + intros p [c Hc]. simpl in Hc. apply lookup_singleton_Some in Hc as [<- _].
      apply list_elem_of_here.
    + apply list_elem_of_further, list_elem_of_here.
  - reflexivity.
Defined.
